(** * bigmemory: storage, lifecycle, locking and element access

    A shallow embedding of [src/BigMatrix.cpp] (the three backing stores,
    their reference-counted lifecycle and the column lock table) and of the
    element readers and writers of [src/bigmemory.cpp], with the properties
    the specification states about them. *)

From stdpp Require Import gmap strings list pretty.
From Stdlib Require Import ZArith QArith Qround Lia.

Open Scope Z_scope.

(** ** Element widths

    [matrixType] is the byte width of the element type: 1 ([char]),
    2 ([short]), 4 ([int]) and 8 ([double]).  Every [switch] of the source
    lists exactly these four cases and has no [default]. *)

Definition valid_type (t : Z) : bool :=
  (t =? 1) || (t =? 2) || (t =? 4) || (t =? 8).

(** [ttos]: a number printed in decimal. *)
Definition ttos (i : Z) : string := pretty i.

(** * LocalBigMatrix: the heap-backed store *)

Module Local.

(** The C++ heap.  A block records its size in bytes and, for the outer
    array of a separated matrix, the column pointers stored in it.
    [operator new] throws [std::bad_alloc] when the request does not fit
    in what is left ([avail]); a negative element count converts to a huge
    [size_t] and does not fit either. *)
Record block := Block { bsize : Z; slots : list nat }.

Record Heap := MkHeap {
  live : gmap nat block;
  next : nat;
  avail : Z
}.

Definition fits (n sz : Z) (h : Heap) : bool :=
  (0 <=? n) && (n * sz <=? avail h).

(** [new T[n]] with [sizeof(T) = sz]: [None] is [bad_alloc]. *)
Definition new_array (n sz : Z) (h : Heap) : option (nat * Heap) :=
  if fits n sz h then
    Some (next h,
          MkHeap (<[next h := Block (n * sz) []]> (live h))
                 (S (next h)) (avail h - n * sz))
  else None.

(** [pMat[i] = p]. *)
Definition store_slot (pMat p : nat) (h : Heap) : Heap :=
  MkHeap (alter (fun b => Block (bsize b) (slots b ++ [p])) pMat (live h))
         (next h) (avail h).

(** The loop of [CreateLocalSepColMatrix], columns [i .. i+fuel-1].
    [None] is [bad_alloc] escaping the loop, with the heap as it is then. *)
Fixpoint alloc_columns (fuel : nat) (pMat : nat) (nrow sz : Z) (h : Heap)
  : option unit * Heap :=
  match fuel with
  | O => (Some tt, h)
  | S fuel' =>
      match new_array nrow sz h with
      | None => (None, h)
      | Some (p, h1) => alloc_columns fuel' pMat nrow sz (store_slot pMat p h1)
      end
  end.

(** [template<typename T> void* CreateLocalSepColMatrix(long nrow, long ncol)]
    with [sz = sizeof(T)]; pointers are 8 bytes wide. *)
Definition CreateLocalSepColMatrix (sz nrow ncol : Z) (h : Heap)
  : option nat * Heap :=
  match new_array ncol 8 h with
  | None => (None, h)
  | Some (pMat, h1) =>
      match alloc_columns (Z.to_nat ncol) pMat nrow sz h1 with
      | (Some _, h2) => (Some pMat, h2)
      | (None, h2) => (None, h2)
      end
  end.

Record LocalBigMatrix := MkLocal {
  _nrow : Z;
  _ncol : Z;
  _matType : Z;
  _sepCols : bool;
  _matrix : option nat          (* [None] is the null pointer *)
}.

(** What the [try] block of [create] does: [Some None] when no case of the
    switch matches (nothing is assigned), [Some (Some p)] when [_matrix]
    is assigned [p], [None] when [bad_alloc] is thrown. *)
Definition create_body (nrow ncol matType : Z) (sepCols : bool) (h : Heap)
  : option (option nat) * Heap :=
  if valid_type matType then
    if sepCols then
      match CreateLocalSepColMatrix matType nrow ncol h with
      | (Some p, h') => (Some (Some p), h')
      | (None, h') => (None, h')
      end
    else
      match new_array (nrow * ncol) matType h with
      | Some (p, h') => (Some (Some p), h')
      | None => (None, h)
      end
  else (Some None, h).

(** [bool LocalBigMatrix::create(numRow, numCol, matrixType, sepCols)]. *)
Definition create (this : LocalBigMatrix) (numRow numCol matrixType : Z)
    (sepCols : bool) (h : Heap) : bool * LocalBigMatrix * Heap :=
  let this1 := MkLocal numRow numCol matrixType sepCols (_matrix this) in
  match create_body numRow numCol matrixType sepCols h with
  | (Some (Some p), h') =>
      (true, MkLocal numRow numCol matrixType sepCols (Some p), h')
  | (Some None, h') => (true, this1, h')
  | (None, h') => (false, this1, h')
  end.

(** A freshly constructed object and an empty heap of [n] bytes. *)
Definition fresh : LocalBigMatrix := MkLocal 0 0 0 false None.
Definition heap_of (n : Z) : Heap := MkHeap ∅ 0 n.

(** Bytes a separated matrix asks for in all: the pointer array and the
    [ncol] column blocks. *)
Definition sep_demand (sz nrow ncol : Z) : Z := ncol * 8 + ncol * (nrow * sz).

(** When every allocation of [create] is granted: the single block of a
    contiguous matrix, or the pointer array and then each column. *)
Definition sep_ok (sz nrow ncol : Z) (h : Heap) : bool :=
  fits ncol 8 h &&
  ((ncol =? 0) || ((0 <=? nrow) && (sep_demand sz nrow ncol <=? avail h))).

Definition memory_suffices (nrow ncol matType : Z) (sepCols : bool)
    (h : Heap) : bool :=
  if sepCols then sep_ok matType nrow ncol h
  else fits (nrow * ncol) matType h.

(** [delete [] p]: the block goes back to the heap.  Deleting what is not
    a live block is undefined ([None]). *)
Definition delete_array (p : nat) (h : Heap) : option Heap :=
  b ← live h !! p;
  Some (MkHeap (delete p (live h)) (next h) (avail h + bsize b)).

(** The loop of [DestroyLocalSepColMatrix], columns [i .. i+fuel-1]:
    [delete [] matrix[i]].  Reading a slot that was never assigned is
    undefined. *)
Fixpoint free_columns (fuel : nat) (matrix : nat) (i : nat) (h : Heap)
  : option Heap :=
  match fuel with
  | O => Some h
  | S fuel' =>
      b ← live h !! matrix;
      p ← slots b !! i;
      h1 ← delete_array p h;
      free_columns fuel' matrix (S i) h1
  end.

(** [template<typename T> void DestroyLocalSepColMatrix(T** matrix,
    const long ncol)].  The pointer array is given back with [delete
    matrix], the form without brackets, although it came from [new
    T*[ncol]]; the allocator gets the same block back for an array of
    pointers, and that is what is modelled. *)
Definition DestroyLocalSepColMatrix (matrix : nat) (ncol : Z) (h : Heap)
  : option Heap :=
  h1 ← free_columns (Z.to_nat ncol) matrix 0 h;
  delete_array matrix h1.

(** [template<typename T> void DestroyLocalMatrix(T* matrix)]. *)
Definition DestroyLocalMatrix (matrix : nat) (h : Heap) : option Heap :=
  delete_array matrix h.

(** [void LocalBigMatrix::destroy()]: nothing at all unless the pointer,
    the column count and the row count are all non-zero; with a type that
    is none of the four nothing is freed, but the pointer is still
    cleared. *)
Definition destroy (this : LocalBigMatrix) (h : Heap)
  : option (LocalBigMatrix * Heap) :=
  match _matrix this with
  | Some p =>
      if negb (_ncol this =? 0) && negb (_nrow this =? 0) then
        h' ← (if valid_type (_matType this) then
                if _sepCols this
                then DestroyLocalSepColMatrix p (_ncol this) h
                else DestroyLocalMatrix p h
              else Some h);
        Some (MkLocal 0 0 (_matType this) (_sepCols this) None, h')
      else Some (this, h)
  | None => Some (this, h)
  end.

End Local.
(** * SharedBigMatrix: the shared-memory and the file-backed store *)

Module Shared.

(** ** The resources processes share

    Everything the stores create is found by name: shared-memory objects
    and files (with their size in bytes), Boost named mutexes (and whether
    they are locked), the reader/writer locks of [BigMemoryMutex], and the
    shared reference counters.  [trace] lists, oldest first, the calls made
    on reader/writer locks. *)

Inductive lock_op := op_read_lock | op_read_write_lock | op_unlock.

Record World := MkWorld {
  shm : gmap string Z;
  files : gmap string Z;
  named_mutexes : gset string;
  held : gset string;
  rwlocks : gset string;
  counters : gmap string Z;
  trace : list (string * lock_op)
}.

Definition set_shm f w :=
  MkWorld (f (shm w)) (files w) (named_mutexes w) (held w) (rwlocks w)
          (counters w) (trace w).
Definition set_files f w :=
  MkWorld (shm w) (f (files w)) (named_mutexes w) (held w) (rwlocks w)
          (counters w) (trace w).
Definition set_named_mutexes f w :=
  MkWorld (shm w) (files w) (f (named_mutexes w)) (held w) (rwlocks w)
          (counters w) (trace w).
Definition set_held f w :=
  MkWorld (shm w) (files w) (named_mutexes w) (f (held w)) (rwlocks w)
          (counters w) (trace w).
Definition set_rwlocks f w :=
  MkWorld (shm w) (files w) (named_mutexes w) (held w) (f (rwlocks w))
          (counters w) (trace w).
Definition set_counters f w :=
  MkWorld (shm w) (files w) (named_mutexes w) (held w) (rwlocks w)
          (f (counters w)) (trace w).
Definition set_trace f w :=
  MkWorld (shm w) (files w) (named_mutexes w) (held w) (rwlocks w)
          (counters w) (f (trace w)).

Definition empty_world : World := MkWorld ∅ ∅ ∅ ∅ ∅ ∅ [].

(** ** The object

    [SharedBigMatrix] with the members of its two subclasses.  [_matrix]
    is [None] for the null pointer and otherwise lists the regions the
    column (or single) address points into; a [MappedRegionPtr] is [None]
    when null and otherwise names the object it maps; a [SharedCounter]
    or a [BigMemoryMutex] is [None] until [init] gives it its name. *)
Record SharedBigMatrix := MkShared {
  _nrow : Z;
  _ncol : Z;
  _matType : Z;
  _sepCols : bool;
  _matrix : option (list string);
  _uuid : string;
  _sharedName : string;
  _dataRegionPtrs : list (option string);
  _mutexPtrs : list string;
  _mutexLock : option string;
  _sharedCounter : option string;
  _fileName : string;
  _preserve : bool
}.

Definition set_dims (r c t : Z) (s : bool) o :=
  MkShared r c t s (_matrix o) (_uuid o) (_sharedName o) (_dataRegionPtrs o)
           (_mutexPtrs o) (_mutexLock o) (_sharedCounter o) (_fileName o)
           (_preserve o).
Definition set_matrix m o :=
  MkShared (_nrow o) (_ncol o) (_matType o) (_sepCols o) m (_uuid o)
           (_sharedName o) (_dataRegionPtrs o) (_mutexPtrs o) (_mutexLock o)
           (_sharedCounter o) (_fileName o) (_preserve o).
Definition set_uuid u o :=
  MkShared (_nrow o) (_ncol o) (_matType o) (_sepCols o) (_matrix o) u
           (_sharedName o) (_dataRegionPtrs o) (_mutexPtrs o) (_mutexLock o)
           (_sharedCounter o) (_fileName o) (_preserve o).
Definition set_sharedName n o :=
  MkShared (_nrow o) (_ncol o) (_matType o) (_sepCols o) (_matrix o) (_uuid o)
           n (_dataRegionPtrs o) (_mutexPtrs o) (_mutexLock o)
           (_sharedCounter o) (_fileName o) (_preserve o).
Definition set_dataRegionPtrs f o :=
  MkShared (_nrow o) (_ncol o) (_matType o) (_sepCols o) (_matrix o) (_uuid o)
           (_sharedName o) (f (_dataRegionPtrs o)) (_mutexPtrs o) (_mutexLock o)
           (_sharedCounter o) (_fileName o) (_preserve o).
Definition set_mutexPtrs l o :=
  MkShared (_nrow o) (_ncol o) (_matType o) (_sepCols o) (_matrix o) (_uuid o)
           (_sharedName o) (_dataRegionPtrs o) l (_mutexLock o)
           (_sharedCounter o) (_fileName o) (_preserve o).
Definition set_mutexLock l o :=
  MkShared (_nrow o) (_ncol o) (_matType o) (_sepCols o) (_matrix o) (_uuid o)
           (_sharedName o) (_dataRegionPtrs o) (_mutexPtrs o) l
           (_sharedCounter o) (_fileName o) (_preserve o).
Definition set_sharedCounter c o :=
  MkShared (_nrow o) (_ncol o) (_matType o) (_sepCols o) (_matrix o) (_uuid o)
           (_sharedName o) (_dataRegionPtrs o) (_mutexPtrs o) (_mutexLock o)
           c (_fileName o) (_preserve o).
Definition set_fileName n o :=
  MkShared (_nrow o) (_ncol o) (_matType o) (_sepCols o) (_matrix o) (_uuid o)
           (_sharedName o) (_dataRegionPtrs o) (_mutexPtrs o) (_mutexLock o)
           (_sharedCounter o) n (_preserve o).
Definition set_preserve p o :=
  MkShared (_nrow o) (_ncol o) (_matType o) (_sepCols o) (_matrix o) (_uuid o)
           (_sharedName o) (_dataRegionPtrs o) (_mutexPtrs o) (_mutexLock o)
           (_sharedCounter o) (_fileName o) p.

(** A newly constructed object: no data, no names, nothing attached.
    [FileBackedBigMatrix] objects start the same way. *)
Definition new_object : SharedBigMatrix :=
  MkShared 0 0 0 false None "" "" [] [] None None "" false.

(** ** Computations

    A member function runs on the object and the world.  It returns, or a
    Boost [interprocess_exception] leaves it, or it waits for ever on a
    mutex somebody else holds, or its behaviour is undefined (an index
    outside a vector, a null pointer dereferenced).  The state is kept in
    the first three cases, as it is at that moment. *)
Record State := MkState { this : SharedBigMatrix; world : World }.

Inductive outcome (A : Type) :=
  | Ok (a : A) (s : State)
  | Throw (s : State)
  | Blocks (s : State)
  | Undefined.
Arguments Ok {A} a s.
Arguments Throw {A} s.
Arguments Blocks {A} s.
Arguments Undefined {A}.

Definition M (A : Type) := State -> outcome A.

Definition ret {A} (a : A) : M A := fun s => Ok a s.

Definition bind {A B} (m : M A) (k : A -> M B) : M B := fun s =>
  match m s with
  | Ok a s' => k a s'
  | Throw s' => Throw s'
  | Blocks s' => Blocks s'
  | Undefined => Undefined
  end.

Global Instance M_ret : MRet M := @ret.
Global Instance M_bind : MBind M := fun A B k m => bind m k.

(** [try { body } catch (interprocess_exception &) { handler }]. *)
Definition try_catch {A} (body handler : M A) : M A := fun s =>
  match body s with
  | Throw s' => handler s'
  | r => r
  end.

Definition throw {A} : M A := fun s => Throw s.
Definition undefined {A} : M A := fun _ => Undefined.
Definition get_this : M SharedBigMatrix := fun s => Ok (this s) s.
Definition get_world : M World := fun s => Ok (world s) s.
Definition upd_this (f : SharedBigMatrix -> SharedBigMatrix) : M unit :=
  fun s => Ok tt (MkState (f (this s)) (world s)).
Definition upd_world (f : World -> World) : M unit :=
  fun s => Ok tt (MkState (this s) (f (world s))).

(** [for (i = 0; i < n; ++i) body(i)]. *)
Fixpoint for_each {A} (l : list A) (body : A -> M unit) : M unit :=
  match l with
  | [] => ret tt
  | i :: l' => body i;; for_each l' body
  end.

Definition upto (n : Z) : list Z := seqZ 0 n.

(** ** What the platform may refuse

    Creating or opening a shared-memory object fails when the name is
    taken or missing; beyond that the platform may refuse any of the three
    steps (no memory, no permission, no address space), and may refuse to
    open a file for writing. *)
Inductive fault := NoFault | FailOpen | FailTruncate | FailMap.

Record Env := MkEnv {
  shm_fault : string -> fault;
  file_fault : string -> bool
}.

Definition no_faults : Env := MkEnv (fun _ => NoFault) (fun _ => false).

Definition fault_eqb (a b : fault) : bool :=
  match a, b with
  | NoFault, NoFault | FailOpen, FailOpen
  | FailTruncate, FailTruncate | FailMap, FailMap => true
  | _, _ => false
  end.

Section Operations.
Variable env : Env.

(** *** Boost.Interprocess *)

(** [shared_memory_object shm(create_only, name, read_write)]. *)
Definition shm_create_only (name : string) : M unit :=
  w ← get_world;
  if bool_decide (name ∈ dom (shm w)) || fault_eqb (shm_fault env name) FailOpen
  then throw
  else upd_world (set_shm <[name := 0]>).

(** [shared_memory_object shm(open_only, name, read_write)]. *)
Definition shm_open_only (name : string) : M unit :=
  w ← get_world;
  if bool_decide (name ∈ dom (shm w)) && negb (fault_eqb (shm_fault env name) FailOpen)
  then ret tt
  else throw.

(** [shm.truncate(n)]. *)
Definition shm_truncate (name : string) (n : Z) : M unit :=
  if fault_eqb (shm_fault env name) FailTruncate then throw
  else upd_world (set_shm <[name := n]>).

(** [new MappedRegion(obj, read_write)]: the region, known by the name of
    what it maps. *)
Definition map_region (name : string) : M (option string) :=
  if fault_eqb (shm_fault env name) FailMap then throw
  else ret (Some name).

(** [shared_memory_object::remove(name)]. *)
Definition shm_remove (name : string) : M unit :=
  upd_world (set_shm (delete name)).

(** [file_mapping mFile(name, read_write)]: the file has to be there. *)
Definition file_mapping (name : string) : M unit :=
  w ← get_world;
  if bool_decide (name ∈ dom (files w)) then ret tt else throw.

(** [unlink(name)]. *)
Definition unlink (name : string) : M unit :=
  upd_world (set_files (delete name)).

(** [named_mutex mutex(open_or_create, name)]. *)
Definition named_mutex_open_or_create (name : string) : M unit :=
  upd_world (set_named_mutexes (union {[name]})).

(** [mutex.lock()]. *)
Definition mutex_lock (name : string) : M unit := fun s =>
  if bool_decide (name ∈ held (world s)) then Blocks s
  else upd_world (set_held (union {[name]})) s.

(** [mutex.unlock()]. *)
Definition mutex_unlock (name : string) : M unit :=
  upd_world (set_held (fun h => h ∖ {[name]})).

(** [named_mutex::remove(name)]: the name is free again, and whoever
    creates it next gets a new, unlocked mutex. *)
Definition named_mutex_remove (name : string) : M unit :=
  upd_world (set_named_mutexes (fun m => m ∖ {[name]}));;
  upd_world (set_held (fun h => h ∖ {[name]})).

(** *** SharedCounter *)

(** Modelled from the spec: the class [SharedCounter] ([init], [get],
    [reset]) is declared and defined outside [src/].  The spec calls it
    a named, shared integer with increment and decrement, which [create]
    establishes at 1, each [connect] increments by 1 and each [destroy]
    decrements by 1.  [create] and [connect] make the very same call,
    [_sharedCounter.init(name)], on a newly built counter object, so one
    definition has to serve both: a name not yet known starts at 1, a
    known one is incremented. *)
Definition SharedCounter_init (name : string) : M unit :=
  upd_world (set_counters (fun c =>
    match c !! name with
    | None => <[name := 1]> c
    | Some v => <[name := v + 1]> c
    end));;
  upd_this (set_sharedCounter (Some name)).

(** Modelled from the spec: [get] is the current value of the counter the
    object is attached to (0 when it is attached to none). *)
Definition count (w : World) (name : string) : Z := default 0 (counters w !! name).

Definition SharedCounter_get : M Z :=
  o ← get_this;
  w ← get_world;
  ret (match _sharedCounter o with
       | Some name => count w name
       | None => 0
       end).

(** Modelled from the spec: [reset] gives the reference back, that is,
    decrements the counter by 1 and detaches the object from it. *)
Definition SharedCounter_reset : M unit :=
  o ← get_this;
  match _sharedCounter o with
  | Some name =>
      upd_world (set_counters (fun c => <[name := default 0 (c !! name) - 1]> c));;
      upd_this (set_sharedCounter None)
  | None => ret tt
  end.

(** *** BigMemoryMutex *)

(** Modelled from the spec: the class [BigMemoryMutex] is declared outside
    [src/].  A lock is found by its name; [init] opens or creates it,
    [destroy] removes it, and [read_lock], [read_write_lock] and [unlock]
    are the calls of a reader/writer lock, recorded in the order in which
    they are made. *)
Definition BigMemoryMutex_init (name : string) : M unit :=
  upd_world (set_rwlocks (union {[name]})).

Definition BigMemoryMutex_destroy (name : string) : M unit :=
  upd_world (set_rwlocks (fun l => l ∖ {[name]})).

Definition BigMemoryMutex_call (name : string) (op : lock_op) : M unit :=
  upd_world (set_trace (fun t => t ++ [(name, op)])).

(** ** Names *)

Definition column_name (sharedName : string) (i : Z) : string :=
  sharedName +:+ "_column_" +:+ ttos i.
Definition column_mutex_name (sharedName : string) (i : Z) : string :=
  sharedName +:+ "_column_" +:+ ttos i +:+ "mutex".
Definition counter_name (sharedName : string) : string :=
  sharedName +:+ "_counter".
Definition counter_mutex_name (sharedName : string) : string :=
  sharedName +:+ "_counter_mutex".
Definition mutex_lock_name (sharedName : string) : string :=
  sharedName +:+ "_mutex_lock".
Definition create_uuid_mutex : string := "SharedBigMatrix_create_uuid".

(** [vec.resize(n)] on a vector of smart pointers: new entries are null. *)
Definition resize {A} (n : Z) (l : list (option A)) : list (option A) :=
  take (Z.to_nat n) l ++ replicate (Z.to_nat n - length l)%nat None.

(** ** SharedBigMatrix *)

(** [bool SharedBigMatrix::create_uuid()]; [u] is what the generator
    [uuid::create()] yields this time. *)
Definition create_uuid (u : string) : M bool :=
  named_mutex_open_or_create create_uuid_mutex;;
  mutex_lock create_uuid_mutex;;
  upd_this (set_uuid u);;
  mutex_unlock create_uuid_mutex;;
  named_mutex_remove create_uuid_mutex;;
  ret true.

(** [_mutexPtrs[ cols[i] ]]. *)
Definition mutex_at (c : Z) : M string :=
  o ← get_this;
  if c <? 0 then undefined
  else match _mutexPtrs o !! Z.to_nat c with
       | Some name => ret name
       | None => undefined
       end.

Definition structural_lock : M string :=
  o ← get_this;
  match _mutexLock o with
  | Some name => ret name
  | None => undefined
  end.

(** [bool SharedBigMatrix::read_lock(Columns &cols)]. *)
Definition read_lock (cols : list Z) : M bool :=
  l ← structural_lock;
  BigMemoryMutex_call l op_read_write_lock;;
  for_each cols (fun c =>
    m ← mutex_at c; BigMemoryMutex_call m op_read_lock);;
  BigMemoryMutex_call l op_unlock;;
  ret true.

(** [bool SharedBigMatrix::read_write_lock(Columns &cols)]. *)
Definition read_write_lock (cols : list Z) : M bool :=
  l ← structural_lock;
  BigMemoryMutex_call l op_read_write_lock;;
  for_each cols (fun c =>
    m ← mutex_at c; BigMemoryMutex_call m op_read_write_lock);;
  BigMemoryMutex_call l op_unlock;;
  ret true.

(** [bool SharedBigMatrix::unlock(Columns &cols)]: the two calls on
    [_mutexLock] are commented out in the source. *)
Definition unlock (cols : list Z) : M bool :=
  for_each cols (fun c =>
    m ← mutex_at c; BigMemoryMutex_call m op_unlock);;
  ret true.

(** [dataRegionPtrs[i] = p]. *)
Definition assign_region (i : Z) (p : option string) : M unit :=
  o ← get_this;
  if (0 <=? i) && (i <? Z.of_nat (length (_dataRegionPtrs o)))
  then upd_this (set_dataRegionPtrs <[Z.to_nat i := p]>)
  else undefined.

(** [dataRegionPtrs[i]->get_address()]. *)
Definition region_address (i : Z) : M string :=
  o ← get_this;
  match _dataRegionPtrs o !! Z.to_nat i with
  | Some (Some r) => ret r
  | _ => undefined
  end.

(** The loop of [CreateSharedSepMatrix], columns [l]; [pMat] collects the
    column addresses.  [None] is the [return false] of the handler. *)
Fixpoint CreateSharedSepMatrix_loop (sz : Z) (sharedName : string) (nrow : Z)
    (l : list Z) (pMat : list string) : M (option (list string)) :=
  match l with
  | [] => ret (Some pMat)
  | i :: l' =>
      r ← try_catch
            (shm_create_only (column_name sharedName i);;
             shm_truncate (column_name sharedName i) (nrow * sz);;
             p ← map_region (column_name sharedName i);
             assign_region i p;;
             a ← region_address i;
             ret (Some a))
            (for_each (upto i) (fun j => shm_remove (column_name sharedName j));;
             ret None);
      match r with
      | Some a => CreateSharedSepMatrix_loop sz sharedName nrow l' (pMat ++ [a])
      | None => ret None
      end
  end.

(** [template<typename T> void* CreateSharedSepMatrix(sharedName,
    dataRegionPtrs, nrow, ncol)], with [sz = sizeof(T)]. *)
Definition CreateSharedSepMatrix (sz : Z) (sharedName : string) (nrow ncol : Z)
  : M (option (list string)) :=
  upd_this (set_dataRegionPtrs (resize ncol));;
  CreateSharedSepMatrix_loop sz sharedName nrow (upto ncol) [].

(** [bool CreateMutexes(mutexPtrs, sharedName, ncol)]. *)
Definition CreateMutexes (sharedName : string) (ncol : Z) : M bool :=
  upd_this (set_mutexPtrs (column_mutex_name sharedName <$> upto ncol));;
  for_each (upto ncol) (fun i =>
    BigMemoryMutex_init (column_mutex_name sharedName i));;
  ret true.

(** [template<typename T> void* CreateSharedMatrix(...)]. *)
Definition CreateSharedMatrix (sz : Z) (sharedName : string) (nrow ncol : Z)
  : M (option (list string)) :=
  r ← try_catch
        (shm_create_only sharedName;;
         shm_truncate sharedName (nrow * ncol * sz);;
         p ← map_region sharedName;
         upd_this (set_dataRegionPtrs (fun l => l ++ [p]));;
         ret true)
        (shm_remove sharedName;; ret false);
  if r : bool then a ← region_address 0; ret (Some [a]) else ret None.

(** The [switch] on [_matType] around an assignment to [_matrix]: with a
    type that is none of the four, nothing is assigned. *)
Definition assign_matrix (t : Z) (make : Z -> M (option (list string))) : M unit :=
  if valid_type t then m ← make t; upd_this (set_matrix m) else ret tt.

(** ** SharedMemoryBigMatrix *)

(** [bool SharedMemoryBigMatrix::create(numRow, numCol, matrixType,
    sepCols)]. *)
Definition SharedMemoryBigMatrix_create (u : string)
    (numRow numCol matrixType : Z) (sepCols : bool) : M bool :=
  create_uuid u;;
  named_mutex_open_or_create (counter_mutex_name u);;
  mutex_lock (counter_mutex_name u);;
  upd_this (set_dims numRow numCol matrixType sepCols);;
  upd_this (set_sharedName u);;
  SharedCounter_init (counter_name u);;
  (if sepCols
   then assign_matrix matrixType (fun sz => CreateSharedSepMatrix sz u numRow numCol)
   else assign_matrix matrixType (fun sz => CreateSharedMatrix sz u numRow numCol));;
  o ← get_this;
  match _matrix o with
  | None =>
      SharedCounter_reset;;
      mutex_unlock (counter_mutex_name u);;
      named_mutex_remove (counter_mutex_name u);;
      ret false
  | Some _ =>
      CreateMutexes u numCol;;
      BigMemoryMutex_init (mutex_lock_name u);;
      upd_this (set_mutexLock (Some (mutex_lock_name u)));;
      mutex_unlock (counter_mutex_name u);;
      named_mutex_remove (counter_mutex_name u);;
      ret true
  end.

(** The loop of [ConnectSharedSepMatrix]. *)
Fixpoint ConnectSharedSepMatrix_loop (uuid : string) (l : list Z)
    (pMat : list string) : M (list string) :=
  match l with
  | [] => ret pMat
  | i :: l' =>
      shm_open_only (column_name uuid i);;
      p ← map_region (column_name uuid i);
      upd_this (set_dataRegionPtrs (fun l => l ++ [p]));;
      a ← region_address i;
      ConnectSharedSepMatrix_loop uuid l' (pMat ++ [a])
  end.

(** [template<typename T> void* ConnectSharedSepMatrix(uuid,
    dataRegionPtrs, nrow, ncol)]. *)
Definition ConnectSharedSepMatrix (uuid : string) (nrow ncol : Z)
  : M (option (list string)) :=
  pMat ← ConnectSharedSepMatrix_loop uuid (upto ncol) [];
  ret (Some pMat).

(** [template<typename T> void* ConnectSharedMatrix(sharedName,
    dataRegionPtrs, nrow, ncol)]. *)
Definition ConnectSharedMatrix (sharedName : string) (nrow ncol : Z)
  : M (option (list string)) :=
  shm_open_only sharedName;;
  p ← map_region sharedName;
  upd_this (set_dataRegionPtrs (fun l => l ++ [p]));;
  a ← region_address 0;
  ret (Some [a]).

(** [bool SharedMemoryBigMatrix::connect(uuid, numRow, numCol, matrixType,
    sepCols)]. *)
Definition SharedMemoryBigMatrix_connect (uuid : string)
    (numRow numCol matrixType : Z) (sepCols : bool) : M bool :=
  named_mutex_open_or_create (counter_mutex_name uuid);;
  mutex_lock (counter_mutex_name uuid);;
  upd_this (set_uuid uuid);;
  upd_this (set_sharedName uuid);;
  upd_this (set_dims numRow numCol matrixType sepCols);;
  SharedCounter_init (counter_name uuid);;
  (if sepCols
   then assign_matrix matrixType (fun _ => ConnectSharedSepMatrix uuid numRow numCol)
   else assign_matrix matrixType (fun _ => ConnectSharedMatrix uuid numRow numCol));;
  CreateMutexes uuid numCol;;
  BigMemoryMutex_init (mutex_lock_name uuid);;
  upd_this (set_mutexLock (Some (mutex_lock_name uuid)));;
  mutex_unlock (counter_mutex_name uuid);;
  named_mutex_remove (counter_mutex_name uuid);;
  ret true.

(** [void DestroySharedSepMatrix(uuid, ncol)]. *)
Definition DestroySharedSepMatrix (uuid : string) (ncol : Z) : M unit :=
  for_each (upto ncol) (fun i => shm_remove (column_name uuid i)).

(** The locks go when the counter reads 1: every [_mutexPtrs[i]->destroy()]
    and then [_mutexLock.destroy()]. *)
Definition destroy_locks : M unit :=
  o ← get_this;
  for_each (_mutexPtrs o) BigMemoryMutex_destroy;;
  match _mutexLock o with
  | Some l => BigMemoryMutex_destroy l
  | None => ret tt
  end.

Definition when (b : bool) (m : M unit) : M unit := if b then m else ret tt.

(** [bool SharedMemoryBigMatrix::destroy()].  The [delete []] of the
    column-address array changes nothing that is kept here. *)
Definition SharedMemoryBigMatrix_destroy : M bool :=
  o ← get_this;
  named_mutex_open_or_create (counter_mutex_name (_sharedName o));;
  mutex_lock (counter_mutex_name (_sharedName o));;
  upd_this (set_dataRegionPtrs (resize 0));;
  (if _sepCols o then
     c ← SharedCounter_get;
     when (c =? 1) (DestroySharedSepMatrix (_uuid o) (_ncol o))
   else
     c ← SharedCounter_get;
     when (c =? 1) (shm_remove (_uuid o)));;
  c ← SharedCounter_get;
  when (c =? 1) destroy_locks;;
  SharedCounter_reset;;
  mutex_unlock (counter_mutex_name (_sharedName o));;
  named_mutex_remove (counter_mutex_name (_sharedName o));;
  ret true.

(** ** FileBackedBigMatrix *)

(** The loop of [ConnectFileBackedSepMatrix]. *)
Fixpoint ConnectFileBackedSepMatrix_loop (sharedName filePath : string)
    (l : list Z) (pMat : list string) : M (list string) :=
  match l with
  | [] => ret pMat
  | i :: l' =>
      file_mapping (filePath +:+ column_name sharedName i);;
      p ← map_region (filePath +:+ column_name sharedName i);
      assign_region i p;;
      a ← region_address i;
      ConnectFileBackedSepMatrix_loop sharedName filePath l' (pMat ++ [a])
  end.

(** [template<typename T> void* ConnectFileBackedSepMatrix(sharedName,
    filePath, dataRegionPtrs, nrow, ncol)]. *)
Definition ConnectFileBackedSepMatrix (sharedName filePath : string)
    (nrow ncol : Z) : M (option (list string)) :=
  upd_this (set_dataRegionPtrs (resize ncol));;
  pMat ← ConnectFileBackedSepMatrix_loop sharedName filePath (upto ncol) [];
  ret (Some pMat).

(** A [filebuf] opened with [trunc], moved [n] bytes in, one byte written
    and closed; [false] when the file cannot be opened. *)
Definition make_file (name : string) (n : Z) : M bool :=
  if file_fault env name then ret false
  else upd_world (set_files <[name := n + 1]>);; ret true.

(** The loop of [CreateFileBackedSepMatrix]: [false] is its
    [return NULL]. *)
Fixpoint CreateFileBackedSepMatrix_loop (sz : Z) (fileName filePath : string)
    (nrow : Z) (l : list Z) : M bool :=
  match l with
  | [] => ret true
  | i :: l' =>
      ok ← make_file (filePath +:+ column_name fileName i) (nrow * sz);
      if ok : bool then CreateFileBackedSepMatrix_loop sz fileName filePath nrow l'
      else ret false
  end.

(** [template<typename T> void* CreateFileBackedSepMatrix(fileName,
    filePath, dataRegionPtrs, nrow, ncol)]. *)
Definition CreateFileBackedSepMatrix (sz : Z) (fileName filePath : string)
    (nrow ncol : Z) : M (option (list string)) :=
  ok ← CreateFileBackedSepMatrix_loop sz fileName filePath nrow (upto ncol);
  if ok : bool then ConnectFileBackedSepMatrix fileName filePath nrow ncol
  else ret None.

(** [template<typename T> void* ConnectFileBackedMatrix(fileName, filePath,
    dataRegionPtrs, nrow, ncol)]. *)
Definition ConnectFileBackedMatrix (fileName filePath : string)
    (nrow ncol : Z) : M (option (list string)) :=
  file_mapping (filePath +:+ fileName);;
  p ← map_region (filePath +:+ fileName);
  upd_this (set_dataRegionPtrs (fun l => l ++ [p]));;
  a ← region_address 0;
  ret (Some [a]).

(** [template<typename T> void* CreateFileBackedMatrix(fileName, filePath,
    dataRegionPtrs, nrow, ncol)]. *)
Definition CreateFileBackedMatrix (sz : Z) (fileName filePath : string)
    (nrow ncol : Z) : M (option (list string)) :=
  ok ← make_file (filePath +:+ fileName) (nrow * ncol * sz);
  if ok : bool then ConnectFileBackedMatrix fileName filePath nrow ncol
  else ret None.

(** [bool FileBackedBigMatrix::create(fileName, filePath, numRow, numCol,
    matrixType, sepCols, preserve)]. *)
Definition FileBackedBigMatrix_create (u : string) (fileName filePath : string)
    (numRow numCol matrixType : Z) (sepCols preserve : bool) : M bool :=
  create_uuid u;;
  named_mutex_open_or_create (counter_mutex_name (fileName +:+ u));;
  mutex_lock (counter_mutex_name (fileName +:+ u));;
  upd_this (set_fileName fileName);;
  upd_this (set_sharedName (fileName +:+ u));;
  SharedCounter_init (counter_name (fileName +:+ u));;
  upd_this (set_dims numRow numCol matrixType sepCols);;
  upd_this (set_preserve preserve);;
  (if sepCols
   then assign_matrix matrixType (fun sz =>
          CreateFileBackedSepMatrix sz fileName filePath numRow numCol)
   else assign_matrix matrixType (fun sz =>
          CreateFileBackedMatrix sz fileName filePath numRow numCol));;
  o ← get_this;
  match _matrix o with
  | None => ret false
  | Some _ =>
      CreateMutexes (fileName +:+ u) numCol;;
      BigMemoryMutex_init (mutex_lock_name (fileName +:+ u));;
      upd_this (set_mutexLock (Some (mutex_lock_name (fileName +:+ u))));;
      mutex_unlock (counter_mutex_name (fileName +:+ u));;
      named_mutex_remove (counter_mutex_name (fileName +:+ u));;
      ret true
  end.

(** [bool FileBackedBigMatrix::connect(sharedName, fileName, filePath,
    numRow, numCol, matrixType, sepCols, preserve)]. *)
Definition FileBackedBigMatrix_connect (sharedName fileName filePath : string)
    (numRow numCol matrixType : Z) (sepCols preserve : bool) : M bool :=
  named_mutex_open_or_create (counter_mutex_name sharedName);;
  mutex_lock (counter_mutex_name sharedName);;
  upd_this (set_sharedName sharedName);;
  upd_this (set_fileName fileName);;
  upd_this (set_dims numRow numCol matrixType sepCols);;
  upd_this (set_preserve preserve);;
  SharedCounter_init (counter_name sharedName);;
  (if sepCols
   then assign_matrix matrixType (fun _ =>
          ConnectFileBackedSepMatrix fileName filePath numRow numCol)
   else assign_matrix matrixType (fun _ =>
          ConnectFileBackedMatrix fileName filePath numRow numCol));;
  CreateMutexes sharedName numCol;;
  BigMemoryMutex_init (mutex_lock_name sharedName);;
  upd_this (set_mutexLock (Some (mutex_lock_name sharedName)));;
  mutex_unlock (counter_mutex_name sharedName);;
  named_mutex_remove (counter_mutex_name sharedName);;
  ret true.

(** [void DestroyFileBackedSepMatrix(sharedName, ncol, fileName,
    preserve)]. *)
Definition DestroyFileBackedSepMatrix (sharedName : string) (ncol : Z)
    (fileName : string) (preserve : bool) : M unit :=
  for_each (upto ncol) (fun i =>
    shm_remove (column_name sharedName i);;
    when (negb preserve) (unlink (column_name fileName i))).

(** [bool FileBackedBigMatrix::destroy()]. *)
Definition FileBackedBigMatrix_destroy : M bool :=
  o ← get_this;
  named_mutex_open_or_create (counter_mutex_name (_sharedName o));;
  mutex_lock (counter_mutex_name (_sharedName o));;
  upd_this (set_dataRegionPtrs (resize 0));;
  (if _sepCols o then
     c ← SharedCounter_get;
     when (c =? 1)
       (DestroyFileBackedSepMatrix (_sharedName o) (_ncol o) (_fileName o)
          (_preserve o))
   else
     c ← SharedCounter_get;
     when (c =? 1)
       (shm_remove (_sharedName o);;
        when (negb (_preserve o)) (unlink (_fileName o))));;
  c ← SharedCounter_get;
  when (c =? 1) destroy_locks;;
  mutex_unlock (counter_mutex_name (_sharedName o));;
  named_mutex_remove (counter_mutex_name (_sharedName o));;
  ret true.

End Operations.

(** What the spec says a batched call on the lock table does: take the
    structural lock [l], make the call [op] on each named column lock in
    the order given, release the structural lock. *)
Definition batched_calls (l : string) (names : list string) (op : lock_op)
  : list (string * lock_op) :=
  [(l, op_read_write_lock)] ++ ((fun n => (n, op)) <$> names) ++ [(l, op_unlock)].

(** The column locks the indices [cols] select in the object [o]. *)
Definition selects (o : SharedBigMatrix) (cols : list Z) (names : list string)
  : Prop :=
  Forall2 (fun c n => 0 <= c /\ _mutexPtrs o !! Z.to_nat c = Some n) cols names.

(** The data segments [connect] opens for an identity: one per column when
    the columns are separated, one for the whole matrix otherwise. *)
Definition segment_names (uuid : string) (ncol : Z) (sepCols : bool)
  : list string :=
  if sepCols then column_name uuid <$> upto ncol else [uuid].

(** The files a file-backed matrix is made of, as [create] names them. *)
Definition backing_files (fileName filePath : string) (ncol : Z) (sepCols : bool)
  : list string :=
  if sepCols then (fun i => filePath +:+ column_name fileName i) <$> upto ncol
  else [filePath +:+ fileName].

End Shared.

(** * Reading and writing elements ([bigmemory.cpp]) *)

Module Elements.

(** ** Numbers

    A C [double] is NaN, an infinity or a finite number.  Finite doubles
    are kept as the rationals they are: the code compares doubles, tests
    them for NaN and converts them to and from integers, and never
    computes with them, so nothing is rounded.  R's [NA_REAL] is a NaN,
    and no comparison here can tell it from another NaN. *)
Inductive double := DNaN | DInf (negative : bool) | DFin (q : Q).

Definition Qltb (x y : Q) : bool := negb (Qle_bool y x).

(** [a < b] on doubles: false as soon as one side is NaN. *)
Definition dlt (a b : double) : bool :=
  match a, b with
  | DNaN, _ | _, DNaN => false
  | DInf true, DInf true => false
  | DInf true, _ => true
  | _, DInf true => false
  | DInf false, _ => false
  | _, DInf false => true
  | DFin x, DFin y => Qltb x y
  end.

(** [a == b] on doubles. *)
Definition deq (a b : double) : bool :=
  match a, b with
  | DFin x, DFin y => Qeq_bool x y
  | DInf s, DInf s' => Bool.eqb s s'
  | _, _ => false
  end.

(** Modelled from the spec: [isna] on a [double] comes from [isna.hpp],
    which is not in [src/]; it recognises the missing-value marker of the
    R representation, here the NaN. *)
Definition isna (d : double) : bool :=
  match d with DNaN => true | _ => false end.

Definition double_of_Z (z : Z) : double := DFin (inject_Z z).

(** A signed integer of [w] bits. *)
Definition int_min (w : Z) : Z := - 2 ^ (w - 1).
Definition int_max (w : Z) : Z := 2 ^ (w - 1) - 1.
Definition in_int (w z : Z) : bool := (int_min w <=? z) && (z <=? int_max w).

(** Narrowing an integer to [w] bits keeps the low bits (two's
    complement). *)
Definition wrap (w z : Z) : Z :=
  (z + 2 ^ (w - 1)) mod 2 ^ w - 2 ^ (w - 1).

(** [static_cast] of a double to a signed integer of [w] bits: the
    fraction is dropped; undefined ([None]) for NaN, the infinities and
    whatever does not fit. *)
Definition int_of_double (w : Z) (d : double) : option Z :=
  match d with
  | DFin q =>
      let z := Z.quot (Qnum q) (Z.pos (Qden q)) in
      if in_int w z then Some z else None
  | _ => None
  end.

(** [static_cast<index_type>(d)]: [index_type] has 64 bits. *)
Definition index_of_double (d : double) : option Z := int_of_double 64 d.

(** [bool TooManyRIndices(index_type val)]. *)
Definition TooManyRIndices (val : Z) : bool := 2 ^ 31 - 1 <? val.

(** ** The conversions a template instance uses

    [CType] is the element type of the matrix and [RType] that of the R
    vector: [r_double] is the promotion of an R value in a comparison with
    a double, [c_of_double] and [c_of_r] are [static_cast<CType>],
    [r_of_c] and [r_of_double] are [static_cast<RType>], [c_eqb] is [==]
    on [CType]. *)
Record Conv (CType RType : Type) := MkConv {
  r_double : RType -> double;
  c_of_double : double -> option CType;
  c_of_r : RType -> option CType;
  c_eqb : CType -> CType -> bool;
  r_of_c : CType -> RType;
  r_of_double : double -> option RType
}.
Arguments MkConv {CType RType}.
Arguments r_double {CType RType}.
Arguments c_of_double {CType RType}.
Arguments c_of_r {CType RType}.
Arguments c_eqb {CType RType}.
Arguments r_of_c {CType RType}.
Arguments r_of_double {CType RType}.

(** An integer matrix of [w] bits against R's 32-bit [int]. *)
Definition int_conv (w : Z) : Conv Z Z :=
  MkConv double_of_Z (int_of_double w) (fun v => Some (wrap w v)) Z.eqb
         (fun c => c) (int_of_double 32).

Definition char_int : Conv Z Z := int_conv 8.
Definition short_int : Conv Z Z := int_conv 16.
Definition int_int : Conv Z Z := int_conv 32.
Definition double_double : Conv double double :=
  MkConv (fun v => v) Some Some deq (fun c => c) Some.

(** ** The matrix as an accessor sees it

    The data is a list of buffers: one for a contiguous matrix, one per
    column for a separated one.  A column pointer is a buffer and an
    offset into it. *)
Record Mat (T : Type) := MkMat {
  num_rows : Z;
  num_columns : Z;
  cells : list (list T)
}.
Arguments MkMat {T}.
Arguments num_rows {T}.
Arguments num_columns {T}.
Arguments cells {T}.

Definition ptr : Type := nat * Z.

Definition Accessor : Type := forall T, Mat T -> Z -> option ptr.

(** Modelled from the spec: [BigMatrixAccessor.hpp] is not in [src/].
    For Contiguous, column [i]'s address is [base + i*rows] elements. *)
Definition BigMatrixAccessor : Accessor :=
  fun T m i => Some (0%nat, i * num_rows m).

(** Modelled from the spec: for Separated, column [i]'s address is the
    [i]-th independently owned buffer; there is none outside the array of
    column pointers. *)
Definition SepBigMatrixAccessor : Accessor :=
  fun T m i =>
    if (0 <=? i) && (i <? Z.of_nat (length (cells m)))
    then Some (Z.to_nat i, 0) else None.

(** [pColumn[j]] read and [pColumn[j] = v]: undefined outside the buffer
    the pointer points into. *)
Definition load {T} (bufs : list (list T)) (p : ptr) (j : Z) : option T :=
  if 0 <=? p.2 + j then b ← bufs !! p.1; b !! Z.to_nat (p.2 + j) else None.

Definition store {T} (bufs : list (list T)) (p : ptr) (j : Z) (v : T)
  : option (list (list T)) :=
  b ← bufs !! p.1;
  if (0 <=? p.2 + j) && (p.2 + j <? Z.of_nat (length b))
  then Some (<[p.1 := <[Z.to_nat (p.2 + j) := v]> b]> bufs)
  else None.

(** [for (...) body] over the values the loop variable takes, threading
    what the body changes; [None] is undefined behaviour. *)
Fixpoint loop {S A} (body : S -> A -> option S) (l : list A) (s : S)
  : option S :=
  match l with
  | [] => Some s
  | a :: l' => s' ← body s a; loop body l' s'
  end.

Definition below (n : Z) : list Z := seqZ 0 n.

(** [k % valLength]: undefined when the vector is empty. *)
Definition modulo (k valLength : Z) : option Z :=
  if valLength =? 0 then None else Some (Z.rem k valLength).

(** The function templates; the functions R calls, of the same names,
    follow the module. *)
Module Template.

Section Templates.
Context {CType RType : Type}.
Variable conv : Conv CType RType.
Variable accessor : Accessor.

(** The right-hand side of every assignment of the four bulk writers:
    [(v < C_MIN || v > C_MAX) ? static_cast<CType>(NA_C)
                              : static_cast<CType>(v)]. *)
Definition range_checked (NA_C C_MIN C_MAX : double) (v : RType)
  : option CType :=
  if dlt (r_double conv v) C_MIN || dlt C_MAX (r_double conv v)
  then c_of_double conv NA_C
  else c_of_r conv v.

(** [kIndex = k++ % valLength] and the value then assigned. *)
Definition next_value (values : list RType) (NA_C C_MIN C_MAX : double)
    (k : Z) : option CType :=
  kIndex ← modulo k (Z.of_nat (length values));
  v ← values !! Z.to_nat kIndex;
  range_checked NA_C C_MIN C_MAX v.

(** [mat[static_cast<index_type>(d) - 1]]. *)
Definition column_at (pMat : Mat CType) (d : double) : option ptr :=
  i ← index_of_double d; accessor CType pMat (i - 1).

(** [template<CType, RType, BMAccessorType> void SetMatrixElements(pMat,
    col, row, values, NA_C, C_MIN, C_MAX, NA_R)]. *)
Definition SetMatrixElements (pMat : Mat CType) (col row : list double)
    (values : list RType) (NA_C C_MIN C_MAX NA_R : double)
  : option (Mat CType) :=
  r ← loop (fun '(bufs, k) ci =>
              pColumn ← column_at pMat ci;
              loop (fun '(bufs, k) rj =>
                      v ← next_value values NA_C C_MIN C_MAX k;
                      j ← index_of_double rj;
                      bufs' ← store bufs pColumn (j - 1) v;
                      Some (bufs', k + 1))
                   row (bufs, k))
           col (cells pMat, 0);
  Some (MkMat (num_rows pMat) (num_columns pMat) r.1).

(** [template<...> void SetMatrixAll(pMat, values, NA_C, C_MIN, C_MAX,
    NA_R)]. *)
Definition SetMatrixAll (pMat : Mat CType) (values : list RType)
    (NA_C C_MIN C_MAX NA_R : double) : option (Mat CType) :=
  r ← loop (fun '(bufs, k) i =>
              pColumn ← accessor CType pMat i;
              loop (fun '(bufs, k) j =>
                      v ← next_value values NA_C C_MIN C_MAX k;
                      bufs' ← store bufs pColumn j v;
                      Some (bufs', k + 1))
                   (below (num_rows pMat)) (bufs, k))
           (below (num_columns pMat)) (cells pMat, 0);
  Some (MkMat (num_rows pMat) (num_columns pMat) r.1).

(** [template<...> void SetMatrixCols(pMat, col, values, NA_C, C_MIN,
    C_MAX, NA_R)]. *)
Definition SetMatrixCols (pMat : Mat CType) (col : list double)
    (values : list RType) (NA_C C_MIN C_MAX NA_R : double)
  : option (Mat CType) :=
  r ← loop (fun '(bufs, k) ci =>
              pColumn ← column_at pMat ci;
              loop (fun '(bufs, k) j =>
                      v ← next_value values NA_C C_MIN C_MAX k;
                      bufs' ← store bufs pColumn j v;
                      Some (bufs', k + 1))
                   (below (num_rows pMat)) (bufs, k))
           col (cells pMat, 0);
  Some (MkMat (num_rows pMat) (num_columns pMat) r.1).

(** [template<...> void SetMatrixRows(pMat, row, values, NA_C, C_MIN,
    C_MAX, NA_R)]. *)
Definition SetMatrixRows (pMat : Mat CType) (row : list double)
    (values : list RType) (NA_C C_MIN C_MAX NA_R : double)
  : option (Mat CType) :=
  r ← loop (fun '(bufs, k) i =>
              pColumn ← accessor CType pMat i;
              loop (fun '(bufs, k) rj =>
                      v ← next_value values NA_C C_MIN C_MAX k;
                      j ← index_of_double rj;
                      bufs' ← store bufs pColumn (j - 1) v;
                      Some (bufs', k + 1))
                   row (bufs, k))
           (below (num_columns pMat)) (cells pMat, 0);
  Some (MkMat (num_rows pMat) (num_columns pMat) r.1).

(** [template<CType, BMAccessorType> void SetAllMatrixElements(pMat,
    value, NA_C, C_MIN, C_MAX, NA_R)]; [value] is [NUMERIC_VALUE(value)]. *)
Definition SetAllMatrixElements (pMat : Mat CType) (value : double)
    (NA_C C_MIN C_MAX NA_R : double) : option (Mat CType) :=
  let val :=
    if dlt value C_MIN || dlt C_MAX value
    then (if negb (isna value) then NA_C else value)
    else value in
  bufs ← loop (fun bufs i =>
                 pColumn ← accessor CType pMat i;
                 loop (fun bufs j =>
                         v ← c_of_double conv val;
                         store bufs pColumn j v)
                      (below (num_rows pMat)) bufs)
              (below (num_columns pMat)) (cells pMat);
  Some (MkMat (num_rows pMat) (num_columns pMat) bufs).

(** What a reader returns: [R_NilValue], or the matrix it allocated, whose
    cells are [None] until they are assigned. *)
Inductive result :=
  | NilValue
  | RetMat (numRows numCols : Z) (pRet : list (option RType)).

(** [pRet[k] = v]. *)
Definition put (pRet : list (option RType)) (k : Z) (v : RType)
  : option (list (option RType)) :=
  if (0 <=? k) && (k <? Z.of_nat (length pRet))
  then Some (<[Z.to_nat k := Some v]> pRet) else None.

(** [(pColumn[j] == static_cast<CType>(NA_C)) ? static_cast<RType>(NA_R)
                                              : static_cast<RType>(pColumn[j])]. *)
Definition element (bufs : list (list CType)) (pColumn : ptr) (j : Z)
    (NA_C NA_R : double) : option RType :=
  x ← load bufs pColumn j;
  na ← c_of_double conv NA_C;
  if c_eqb conv x na then r_of_double conv NA_R else Some (r_of_c conv x).

Definition allocMatrix (numRows numCols : Z) : list (option RType) :=
  replicate (Z.to_nat (numRows * numCols)) None.

(** [template<...> SEXP GetMatrixElements(pMat, NA_C, NA_R, col, row,
    sxpType)]; the row and column names it also returns are left out. *)
Definition GetMatrixElements (pMat : Mat CType) (NA_C NA_R : double)
    (col row : list double) : option result :=
  let numCols := Z.of_nat (length col) in
  let numRows := Z.of_nat (length row) in
  if TooManyRIndices (numCols * numRows) then Some NilValue
  else
    r ← loop (fun '(pRet, k) ci =>
                if isna ci then
                  loop (fun '(pRet, k) _ =>
                          na ← r_of_double conv NA_R;
                          pRet' ← put pRet k na;
                          Some (pRet', k))
                       row (pRet, k)
                else
                  pColumn ← column_at pMat ci;
                  loop (fun '(pRet, k) rj =>
                          pRet' ← (if isna rj then
                                     na ← r_of_double conv NA_R;
                                     put pRet k na
                                   else
                                     j ← index_of_double rj;
                                     v ← element (cells pMat) pColumn (j - 1)
                                           NA_C NA_R;
                                     put pRet k v);
                          Some (pRet', k + 1))
                       row (pRet, k))
             col (allocMatrix numRows numCols, 0);
    Some (RetMat numRows numCols r.1).

(** [template<...> SEXP GetMatrixRows(pMat, NA_C, NA_R, row, sxpType)]. *)
Definition GetMatrixRows (pMat : Mat CType) (NA_C NA_R : double)
    (row : list double) : option result :=
  let numRows := Z.of_nat (length row) in
  let numCols := num_columns pMat in
  if TooManyRIndices (numCols * numRows) then Some NilValue
  else
    r ← loop (fun '(pRet, k) i =>
                pColumn ← accessor CType pMat i;
                loop (fun '(pRet, k) rj =>
                        pRet' ← (if isna rj then
                                   na ← r_of_double conv NA_R;
                                   put pRet k na
                                 else
                                   j ← index_of_double rj;
                                   v ← element (cells pMat) pColumn (j - 1)
                                         NA_C NA_R;
                                   put pRet k v);
                        Some (pRet', k + 1))
                     row (pRet, k))
             (below numCols) (allocMatrix numRows numCols, 0);
    Some (RetMat numRows numCols r.1).

(** [template<...> SEXP GetMatrixCols(pMat, NA_C, NA_R, col, sxpType)]. *)
Definition GetMatrixCols (pMat : Mat CType) (NA_C NA_R : double)
    (col : list double) : option result :=
  let numCols := Z.of_nat (length col) in
  let numRows := num_rows pMat in
  if TooManyRIndices (numCols * numRows) then Some NilValue
  else
    r ← loop (fun '(pRet, k) ci =>
                if isna ci then
                  loop (fun '(pRet, k) _ =>
                          na ← r_of_double conv NA_R;
                          pRet' ← put pRet k na;
                          Some (pRet', k))
                       (below numRows) (pRet, k)
                else
                  pColumn ← column_at pMat ci;
                  loop (fun '(pRet, k) j =>
                          v ← element (cells pMat) pColumn j NA_C NA_R;
                          pRet' ← put pRet k v;
                          Some (pRet', k + 1))
                       (below numRows) (pRet, k))
             col (allocMatrix numRows numCols, 0);
    Some (RetMat numRows numCols r.1).

(** [template<...> SEXP GetMatrixAll(pMat, NA_C, NA_R, sxpType)]. *)
Definition GetMatrixAll (pMat : Mat CType) (NA_C NA_R : double)
  : option result :=
  let numCols := num_columns pMat in
  let numRows := num_rows pMat in
  if TooManyRIndices (numCols * numRows) then Some NilValue
  else
    r ← loop (fun '(pRet, k) i =>
                pColumn ← accessor CType pMat i;
                loop (fun '(pRet, k) j =>
                        v ← element (cells pMat) pColumn j NA_C NA_R;
                        pRet' ← put pRet k v;
                        Some (pRet', k + 1))
                     (below numRows) (pRet, k))
             (below numCols) (allocMatrix numRows numCols, 0);
    Some (RetMat numRows numCols r.1).

End Templates.

Arguments NilValue {RType}.
Arguments RetMat {RType}.

End Template.

(** ** What R hands over

    The numeric limits come from headers that are not in [src/]
    ([NA_INTEGER] and [NA_REAL] from R, the others from the package):
    they are taken as given.  Each is passed on as a [double]. *)
Record Limits := MkLimits {
  NA_CHAR : Z; R_CHAR_MIN : Z; R_CHAR_MAX : Z;
  NA_SHORT : Z; R_SHORT_MIN : Z; R_SHORT_MAX : Z;
  NA_INTEGER : Z; R_INT_MIN : Z; R_INT_MAX : Z;
  NA_REAL : double; R_DOUBLE_MIN : double; R_DOUBLE_MAX : double
}.

(** A sentinel is a value of its type outside the valid range of that
    type, and the valid range fits the type. *)
Definition sentinel_ok (w na lo hi : Z) : bool :=
  in_int w na && in_int w lo && in_int w hi && (lo <=? hi) &&
  ((na <? lo) || (hi <? na)).




(** The data behind the [void*] of a [BigMatrix]: integers for the types
    1, 2 and 4, doubles for the type 8. *)
Inductive data :=
  | Ints (bufs : list (list Z))
  | Doubles (bufs : list (list double)).

Record BigMatrix := MkBigMatrix {
  nrow : Z;
  ncol : Z;
  matrix_type : Z;
  separated_columns : bool;
  matrix : data
}.

(** An R vector: [INTSXP] or [REALSXP]. *)
Inductive SEXP :=
  | INTSXP (v : list Z)
  | REALSXP (v : list double).

(** A template instance at an integer type runs on the integer data and
    on [INTEGER_DATA(values)]; anything else is a reinterpretation the
    code never means ([None]). *)
Definition on_ints (pMat : BigMatrix) (values : SEXP)
    (f : Mat Z -> list Z -> option (Mat Z)) : option BigMatrix :=
  match matrix pMat, values with
  | Ints b, INTSXP v =>
      m ← f (MkMat (nrow pMat) (ncol pMat) b) v;
      Some (MkBigMatrix (nrow pMat) (ncol pMat) (matrix_type pMat)
              (separated_columns pMat) (Ints (cells m)))
  | _, _ => None
  end.

Definition on_doubles (pMat : BigMatrix) (values : SEXP)
    (f : Mat double -> list double -> option (Mat double)) : option BigMatrix :=
  match matrix pMat, values with
  | Doubles b, REALSXP v =>
      m ← f (MkMat (nrow pMat) (ncol pMat) b) v;
      Some (MkBigMatrix (nrow pMat) (ncol pMat) (matrix_type pMat)
              (separated_columns pMat) (Doubles (cells m)))
  | _, _ => None
  end.

Section Entry.
Variable lim : Limits.

(** An integer limit, passed where a [double] is expected. *)
Let d (x : Limits -> Z) : double := double_of_Z (x lim).

(** [void SetMatrixElements(SEXP bigMatAddr, SEXP col, SEXP row,
    SEXP values)]. *)
Definition SetMatrixElements (pMat : BigMatrix) (col row : list double)
    (values : SEXP) : option BigMatrix :=
  if separated_columns pMat then
    match matrix_type pMat with
    | 1 => on_ints pMat values (fun m v =>
             Template.SetMatrixElements char_int SepBigMatrixAccessor m col row v
               (d NA_CHAR) (d R_CHAR_MIN) (d R_CHAR_MAX) (d NA_INTEGER))
    | 2 => on_ints pMat values (fun m v =>
             Template.SetMatrixElements short_int SepBigMatrixAccessor m col row v
               (d NA_SHORT) (d R_SHORT_MIN) (d R_SHORT_MAX) (d NA_INTEGER))
    | 4 => on_ints pMat values (fun m v =>
             Template.SetMatrixElements int_int SepBigMatrixAccessor m col row v
               (d NA_INTEGER) (d R_INT_MIN) (d R_INT_MAX) (d NA_INTEGER))
    | 8 => on_doubles pMat values (fun m v =>
             Template.SetMatrixElements double_double SepBigMatrixAccessor m col row v
               (NA_REAL lim) (R_DOUBLE_MIN lim) (R_DOUBLE_MAX lim) (NA_REAL lim))
    | _ => Some pMat
    end
  else
    match matrix_type pMat with
    | 1 => on_ints pMat values (fun m v =>
             Template.SetMatrixElements char_int BigMatrixAccessor m col row v
               (d NA_CHAR) (d R_CHAR_MIN) (d R_CHAR_MAX) (d NA_INTEGER))
    | 2 => on_ints pMat values (fun m v =>
             Template.SetMatrixElements short_int BigMatrixAccessor m col row v
               (d NA_SHORT) (d R_SHORT_MIN) (d R_SHORT_MAX) (d NA_INTEGER))
    | 4 => on_ints pMat values (fun m v =>
             Template.SetMatrixElements int_int BigMatrixAccessor m col row v
               (d NA_INTEGER) (d R_INT_MIN) (d R_INT_MAX) (d NA_INTEGER))
    | 8 => on_doubles pMat values (fun m v =>
             Template.SetMatrixElements double_double BigMatrixAccessor m col row v
               (NA_REAL lim) (R_DOUBLE_MIN lim) (R_DOUBLE_MAX lim) (NA_REAL lim))
    | _ => Some pMat
    end.

(** [void SetMatrixAll(SEXP bigMatAddr, SEXP values)]. *)
Definition SetMatrixAll (pMat : BigMatrix) (values : SEXP) : option BigMatrix :=
  if separated_columns pMat then
    match matrix_type pMat with
    | 1 => on_ints pMat values (fun m v =>
             Template.SetMatrixAll char_int SepBigMatrixAccessor m v
               (d NA_CHAR) (d R_CHAR_MIN) (d R_CHAR_MAX) (d NA_INTEGER))
    | 2 => on_ints pMat values (fun m v =>
             Template.SetMatrixAll short_int SepBigMatrixAccessor m v
               (d NA_SHORT) (d R_SHORT_MIN) (d R_SHORT_MAX) (d NA_INTEGER))
    | 4 => on_ints pMat values (fun m v =>
             Template.SetMatrixAll int_int SepBigMatrixAccessor m v
               (d NA_INTEGER) (d R_INT_MIN) (d R_INT_MAX) (d NA_INTEGER))
    | 8 => on_doubles pMat values (fun m v =>
             Template.SetMatrixAll double_double SepBigMatrixAccessor m v
               (NA_REAL lim) (R_DOUBLE_MIN lim) (R_DOUBLE_MAX lim) (NA_REAL lim))
    | _ => Some pMat
    end
  else
    match matrix_type pMat with
    | 1 => on_ints pMat values (fun m v =>
             Template.SetMatrixAll char_int BigMatrixAccessor m v
               (d NA_CHAR) (d R_CHAR_MIN) (d R_CHAR_MAX) (d NA_INTEGER))
    | 2 => on_ints pMat values (fun m v =>
             Template.SetMatrixAll short_int BigMatrixAccessor m v
               (d NA_SHORT) (d R_SHORT_MIN) (d R_SHORT_MAX) (d NA_INTEGER))
    | 4 => on_ints pMat values (fun m v =>
             Template.SetMatrixAll int_int BigMatrixAccessor m v
               (d NA_INTEGER) (d R_INT_MIN) (d R_INT_MAX) (d NA_INTEGER))
    | 8 => on_doubles pMat values (fun m v =>
             Template.SetMatrixAll double_double BigMatrixAccessor m v
               (NA_REAL lim) (R_DOUBLE_MIN lim) (R_DOUBLE_MAX lim) (NA_REAL lim))
    | _ => Some pMat
    end.

(** [void SetMatrixCols(SEXP bigMatAddr, SEXP col, SEXP values)]. *)
Definition SetMatrixCols (pMat : BigMatrix) (col : list double)
    (values : SEXP) : option BigMatrix :=
  if separated_columns pMat then
    match matrix_type pMat with
    | 1 => on_ints pMat values (fun m v =>
             Template.SetMatrixCols char_int SepBigMatrixAccessor m col v
               (d NA_CHAR) (d R_CHAR_MIN) (d R_CHAR_MAX) (d NA_INTEGER))
    | 2 => on_ints pMat values (fun m v =>
             Template.SetMatrixCols short_int SepBigMatrixAccessor m col v
               (d NA_SHORT) (d R_SHORT_MIN) (d R_SHORT_MAX) (d NA_INTEGER))
    | 4 => on_ints pMat values (fun m v =>
             Template.SetMatrixCols int_int SepBigMatrixAccessor m col v
               (d NA_INTEGER) (d R_INT_MIN) (d R_INT_MAX) (d NA_INTEGER))
    | 8 => on_doubles pMat values (fun m v =>
             Template.SetMatrixCols double_double SepBigMatrixAccessor m col v
               (NA_REAL lim) (R_DOUBLE_MIN lim) (R_DOUBLE_MAX lim) (NA_REAL lim))
    | _ => Some pMat
    end
  else
    match matrix_type pMat with
    | 1 => on_ints pMat values (fun m v =>
             Template.SetMatrixCols char_int BigMatrixAccessor m col v
               (d NA_CHAR) (d R_CHAR_MIN) (d R_CHAR_MAX) (d NA_INTEGER))
    | 2 => on_ints pMat values (fun m v =>
             Template.SetMatrixCols short_int BigMatrixAccessor m col v
               (d NA_SHORT) (d R_SHORT_MIN) (d R_SHORT_MAX) (d NA_INTEGER))
    | 4 => on_ints pMat values (fun m v =>
             Template.SetMatrixCols int_int BigMatrixAccessor m col v
               (d NA_INTEGER) (d R_INT_MIN) (d R_INT_MAX) (d NA_INTEGER))
    | 8 => on_doubles pMat values (fun m v =>
             Template.SetMatrixCols double_double BigMatrixAccessor m col v
               (NA_REAL lim) (R_DOUBLE_MIN lim) (R_DOUBLE_MAX lim) (NA_REAL lim))
    | _ => Some pMat
    end.

(** [void SetMatrixRows(SEXP bigMatAddr, SEXP row, SEXP values)]. *)
Definition SetMatrixRows (pMat : BigMatrix) (row : list double)
    (values : SEXP) : option BigMatrix :=
  if separated_columns pMat then
    match matrix_type pMat with
    | 1 => on_ints pMat values (fun m v =>
             Template.SetMatrixRows char_int SepBigMatrixAccessor m row v
               (d NA_CHAR) (d R_CHAR_MIN) (d R_CHAR_MAX) (d NA_INTEGER))
    | 2 => on_ints pMat values (fun m v =>
             Template.SetMatrixRows short_int SepBigMatrixAccessor m row v
               (d NA_SHORT) (d R_SHORT_MIN) (d R_SHORT_MAX) (d NA_INTEGER))
    | 4 => on_ints pMat values (fun m v =>
             Template.SetMatrixRows int_int SepBigMatrixAccessor m row v
               (d NA_INTEGER) (d R_INT_MIN) (d R_INT_MAX) (d NA_INTEGER))
    | 8 => on_doubles pMat values (fun m v =>
             Template.SetMatrixRows double_double SepBigMatrixAccessor m row v
               (NA_REAL lim) (R_DOUBLE_MIN lim) (R_DOUBLE_MAX lim) (NA_REAL lim))
    | _ => Some pMat
    end
  else
    match matrix_type pMat with
    | 1 => on_ints pMat values (fun m v =>
             Template.SetMatrixRows char_int BigMatrixAccessor m row v
               (d NA_CHAR) (d R_CHAR_MIN) (d R_CHAR_MAX) (d NA_INTEGER))
    | 2 => on_ints pMat values (fun m v =>
             Template.SetMatrixRows short_int BigMatrixAccessor m row v
               (d NA_SHORT) (d R_SHORT_MIN) (d R_SHORT_MAX) (d NA_INTEGER))
    | 4 => on_ints pMat values (fun m v =>
             Template.SetMatrixRows int_int BigMatrixAccessor m row v
               (d NA_INTEGER) (d R_INT_MIN) (d R_INT_MAX) (d NA_INTEGER))
    | 8 => on_doubles pMat values (fun m v =>
             Template.SetMatrixRows double_double BigMatrixAccessor m row v
               (NA_REAL lim) (R_DOUBLE_MIN lim) (R_DOUBLE_MAX lim) (NA_REAL lim))
    | _ => Some pMat
    end.

(** The same for the writers that take one [double]. *)
Definition fill_ints (pMat : BigMatrix)
    (f : Mat Z -> option (Mat Z)) : option BigMatrix :=
  on_ints pMat (INTSXP []) (fun m _ => f m).

Definition fill_doubles (pMat : BigMatrix)
    (f : Mat double -> option (Mat double)) : option BigMatrix :=
  on_doubles pMat (REALSXP []) (fun m _ => f m).

(** [void SetAllMatrixElements(SEXP bigMatAddr, SEXP value)]: "it is
    assumed that value is a double". *)
Definition SetAllMatrixElements (pMat : BigMatrix) (value : double)
  : option BigMatrix :=
  if separated_columns pMat then
    match matrix_type pMat with
    | 1 => fill_ints pMat (fun m =>
             Template.SetAllMatrixElements char_int SepBigMatrixAccessor m value
               (d NA_CHAR) (d R_CHAR_MIN) (d R_CHAR_MAX) (NA_REAL lim))
    | 2 => fill_ints pMat (fun m =>
             Template.SetAllMatrixElements short_int SepBigMatrixAccessor m value
               (d NA_SHORT) (d R_SHORT_MIN) (d R_SHORT_MAX) (NA_REAL lim))
    | 4 => fill_ints pMat (fun m =>
             Template.SetAllMatrixElements int_int SepBigMatrixAccessor m value
               (d NA_INTEGER) (d R_INT_MIN) (d R_INT_MAX) (NA_REAL lim))
    | 8 => fill_doubles pMat (fun m =>
             Template.SetAllMatrixElements double_double SepBigMatrixAccessor m value
               (NA_REAL lim) (R_DOUBLE_MIN lim) (R_DOUBLE_MAX lim) (NA_REAL lim))
    | _ => Some pMat
    end
  else
    match matrix_type pMat with
    | 1 => fill_ints pMat (fun m =>
             Template.SetAllMatrixElements char_int BigMatrixAccessor m value
               (d NA_CHAR) (d R_CHAR_MIN) (d R_CHAR_MAX) (d NA_INTEGER))
    | 2 => fill_ints pMat (fun m =>
             Template.SetAllMatrixElements short_int BigMatrixAccessor m value
               (d NA_SHORT) (d R_SHORT_MIN) (d R_SHORT_MAX) (d NA_INTEGER))
    | 4 => fill_ints pMat (fun m =>
             Template.SetAllMatrixElements int_int BigMatrixAccessor m value
               (d NA_INTEGER) (d R_INT_MIN) (d R_INT_MAX) (d NA_INTEGER))
    | 8 => fill_doubles pMat (fun m =>
             Template.SetAllMatrixElements double_double BigMatrixAccessor m value
               (NA_REAL lim) (R_DOUBLE_MIN lim) (R_DOUBLE_MAX lim) (NA_REAL lim))
    | _ => Some pMat
    end.



(** What a reader hands back to R. *)
Inductive answer :=
  | Nil
  | IntMatrix (numRows numCols : Z) (pRet : list (option Z))
  | RealMatrix (numRows numCols : Z) (pRet : list (option double)).

Definition read_ints (pMat : BigMatrix)
    (f : Mat Z -> option (Template.result (RType := Z))) : option answer :=
  match matrix pMat with
  | Ints b =>
      r ← f (MkMat (nrow pMat) (ncol pMat) b);
      Some (match r with
            | Template.NilValue => Nil
            | Template.RetMat nr nc l => IntMatrix nr nc l
            end)
  | _ => None
  end.

Definition read_doubles (pMat : BigMatrix)
    (f : Mat double -> option (Template.result (RType := double)))
  : option answer :=
  match matrix pMat with
  | Doubles b =>
      r ← f (MkMat (nrow pMat) (ncol pMat) b);
      Some (match r with
            | Template.NilValue => Nil
            | Template.RetMat nr nc l => RealMatrix nr nc l
            end)
  | _ => None
  end.

(** [SEXP GetMatrixElements(SEXP bigMatAddr, SEXP col, SEXP row)]; with a
    type that is none of the four, [ret] stays the null object. *)
Definition GetMatrixElements (pMat : BigMatrix) (col row : list double)
  : option answer :=
  if separated_columns pMat then
    match matrix_type pMat with
    | 1 => read_ints pMat (fun m =>
             Template.GetMatrixElements char_int SepBigMatrixAccessor m
               (d NA_CHAR) (d NA_INTEGER) col row)
    | 2 => read_ints pMat (fun m =>
             Template.GetMatrixElements short_int SepBigMatrixAccessor m
               (d NA_SHORT) (d NA_INTEGER) col row)
    | 4 => read_ints pMat (fun m =>
             Template.GetMatrixElements int_int SepBigMatrixAccessor m
               (d NA_INTEGER) (d NA_INTEGER) col row)
    | 8 => read_doubles pMat (fun m =>
             Template.GetMatrixElements double_double SepBigMatrixAccessor m
               (NA_REAL lim) (NA_REAL lim) col row)
    | _ => Some Nil
    end
  else
    match matrix_type pMat with
    | 1 => read_ints pMat (fun m =>
             Template.GetMatrixElements char_int BigMatrixAccessor m
               (d NA_CHAR) (d NA_INTEGER) col row)
    | 2 => read_ints pMat (fun m =>
             Template.GetMatrixElements short_int BigMatrixAccessor m
               (d NA_SHORT) (d NA_INTEGER) col row)
    | 4 => read_ints pMat (fun m =>
             Template.GetMatrixElements int_int BigMatrixAccessor m
               (d NA_INTEGER) (d NA_INTEGER) col row)
    | 8 => read_doubles pMat (fun m =>
             Template.GetMatrixElements double_double BigMatrixAccessor m
               (NA_REAL lim) (NA_REAL lim) col row)
    | _ => Some Nil
    end.

(** [SEXP GetMatrixCols(SEXP bigMatAddr, SEXP col)]. *)
Definition GetMatrixCols (pMat : BigMatrix) (col : list double)
  : option answer :=
  if separated_columns pMat then
    match matrix_type pMat with
    | 1 => read_ints pMat (fun m =>
             Template.GetMatrixCols char_int SepBigMatrixAccessor m
               (d NA_CHAR) (d NA_INTEGER) col)
    | 2 => read_ints pMat (fun m =>
             Template.GetMatrixCols short_int SepBigMatrixAccessor m
               (d NA_SHORT) (d NA_INTEGER) col)
    | 4 => read_ints pMat (fun m =>
             Template.GetMatrixCols int_int SepBigMatrixAccessor m
               (d NA_INTEGER) (d NA_INTEGER) col)
    | 8 => read_doubles pMat (fun m =>
             Template.GetMatrixCols double_double SepBigMatrixAccessor m
               (NA_REAL lim) (NA_REAL lim) col)
    | _ => Some Nil
    end
  else
    match matrix_type pMat with
    | 1 => read_ints pMat (fun m =>
             Template.GetMatrixCols char_int BigMatrixAccessor m
               (d NA_CHAR) (d NA_INTEGER) col)
    | 2 => read_ints pMat (fun m =>
             Template.GetMatrixCols short_int BigMatrixAccessor m
               (d NA_SHORT) (d NA_INTEGER) col)
    | 4 => read_ints pMat (fun m =>
             Template.GetMatrixCols int_int BigMatrixAccessor m
               (d NA_INTEGER) (d NA_INTEGER) col)
    | 8 => read_doubles pMat (fun m =>
             Template.GetMatrixCols double_double BigMatrixAccessor m
               (NA_REAL lim) (NA_REAL lim) col)
    | _ => Some Nil
    end.

End Entry.

End Elements.


(** * Index vectors, column scans and the lock entry points
      ([bigmemory.cpp]) *)

Module Indexing.
Import Elements.

(** [template <typename T, typename VecType> index_type EqAtIndex(val,
    vec)], from position [i] on; [eqb] is the [==] of the two types. *)
Fixpoint EqAtIndex_from {T} (eqb : T -> T -> bool) (val : T) (vec : list T)
    (i : Z) : Z :=
  match vec with
  | [] => -1
  | x :: vec' => if eqb val x then i else EqAtIndex_from eqb val vec' (i + 1)
  end.

Definition EqAtIndex {T} (eqb : T -> T -> bool) (val : T) (vec : list T) : Z :=
  EqAtIndex_from eqb val vec 0.

(** What [CCleanIndices] returns, a list of two: *)
Inductive cleaned :=
  | Rejected                                       (* NULL, NULL *)
  | Replaced (newIndices : list (option double))   (* TRUE, newIndices *)
  | Unchanged.                                     (* FALSE, NULL *)

Record tally := MkTally {
  zeroIndexCount : Z;
  negIndexCount : Z;
  posIndexCount : Z
}.

(** [labs(x)]: undefined for the least [long]. *)
Definition labs (x : Z) : option Z :=
  if x =? int_min 64 then None else Some (Z.abs x).

(** [-1 * d] on doubles. *)
Definition dneg (d : double) : double :=
  match d with
  | DNaN => DNaN
  | DInf s => DInf (negb s)
  | DFin q => DFin (- q)
  end.

(** The first loop of [CCleanIndices]: the three counts, or [None] for
    its [return ret] at the first index beyond [maxrc].  The integer part
    of a double is itself a double, so [labs(...)] is compared with
    [maxrc] as it is. *)
Fixpoint count_indices (maxrc : double) (pIndices : list double) (t : tally)
  : option (option tally) :=
  match pIndices with
  | [] => Some (Some t)
  | x :: rest =>
      v ← index_of_double x;
      a ← labs v;
      if dlt maxrc (double_of_Z a) then Some None
      else count_indices maxrc rest
             (MkTally (zeroIndexCount t + (if v =? 0 then 1 else 0))
                      (negIndexCount t + (if v <? 0 then 1 else 0))
                      (posIndexCount t + (if 0 <? v then 1 else 0)))
  end.

(** The loop of the branch [zeroIndexCount > 0]: every index that is not
    zero goes to the next cell of a vector of [posIndexCount] cells. *)
Definition drop_zeros (pIndices : list double) (posIndexCount : Z)
  : option (list (option double)) :=
  r ← loop (fun '(newPIndices, j) x =>
              v ← index_of_double x;
              if v =? 0 then Some (newPIndices, j)
              else
                newPIndices' ← Template.put newPIndices j x;
                Some (newPIndices', j + 1))
           pIndices (replicate (Z.to_nat posIndexCount) None, 0);
  Some r.1.

(** [std::lower_bound(ind.begin(), ind.end(), key)] on a vector in
    ascending order: the position of the first element that is not less
    than [key], the length when there is none. *)
Fixpoint lower_bound (ind : list Z) (key : Z) : nat :=
  match ind with
  | [] => 0
  | e :: rest => if e <? key then S (lower_bound rest key) else 0
  end.

(** One round of the erasing loop. *)
Definition erase_index (ind : list Z) (x : double) : option (list Z) :=
  key ← index_of_double (dneg x);
  let it := lower_bound ind key in
  match ind !! it with
  | None => Some ind
  | Some e =>
      v ← index_of_double x;
      if v =? int_min 64 then None          (* [-1 * v] overflows *)
      else if e =? -1 * v then Some (delete it ind) else Some ind
  end.

(** The branch [negIndexCount > 0]; [can_reserve n] tells whether
    [ind.reserve(n)] gets its memory. *)
Definition complement (can_reserve : Z -> bool) (pIndices : list double)
    (maxrc : double) : option cleaned :=
  m ← index_of_double maxrc;
  if (m <? 0) || negb (can_reserve m) then Some Rejected
  else
    ind ← loop erase_index pIndices (seqZ 1 m);
    if TooManyRIndices (Z.of_nat (length ind)) then Some Rejected
    else Some (Replaced ((fun i => Some (double_of_Z i)) <$> ind)).

(** [SEXP CCleanIndices(SEXP indices, SEXP rc)]. *)
Definition CCleanIndices (can_reserve : Z -> bool) (indices : list double)
    (rc : double) : option cleaned :=
  let numIndices := Z.of_nat (length indices) in
  c ← count_indices rc indices (MkTally 0 0 0);
  match c with
  | None => Some Rejected
  | Some t =>
      if (zeroIndexCount t =? numIndices) && (0 <? numIndices)
      then Some (Replaced [])
      else if (0 <? posIndexCount t) && (0 <? negIndexCount t)
      then Some Rejected
      else if 0 <? zeroIndexCount t then
        newIndices ← drop_zeros indices (posIndexCount t);
        Some (Replaced newIndices)
      else if 0 <? negIndexCount t then complement can_reserve indices rc
      else Some Unchanged
  end.

End Indexing.

Module Scans.
Import Elements.

Section Scan.
Context {T : Type}.
Variable accessor : Accessor.

(** [template<typename T, typename BMAccessorType> SEXP ColCountNA(pMat,
    column)]; [eq_int x n] is [x == n] for an [int n], [to_double] is
    [(double)x]. *)
Definition ColCountNA (eq_int : T -> Z -> bool) (to_double : T -> double)
    (NA_INTEGER : Z) (pMat : Mat T) (column : double) : option Z :=
  col ← index_of_double column;
  loop (fun counter i =>
          pColumn ← accessor T pMat (col - 1);
          x ← load (cells pMat) pColumn i;
          Some (if eq_int x NA_INTEGER || isna (to_double x)
                then counter + 1 else counter))
       (below (num_rows pMat)) 0.

(** An [int] going up by one: past the largest [int] the behaviour is
    undefined. *)
Definition int_add (a b : Z) : option Z :=
  if in_int 32 (a + b) then Some (a + b) else None.

Definition int_mul (a b : Z) : option Z :=
  if in_int 32 (a * b) then Some (a * b) else None.

(** [template<typename T, typename BMAccessorType> SEXP
    MatrixHashRanges(pMat, selectColumn)]: [None] inside is [R_NilValue];
    [neq] is [!=] on [T]; an [index_type] stored in an [int] cell keeps
    its low 32 bits. *)
Definition MatrixHashRanges (neq : T -> T -> bool) (pMat : Mat T)
    (selectColumn : double) : option (option (list (option Z))) :=
  s ← index_of_double selectColumn;
  let sc := s - 1 in
  if num_rows pMat =? 0 then Some None
  else
    pColumn ← accessor T pMat sc;
    first ← load (cells pMat) pColumn 0;
    r ← loop (fun '(lastVal, uniqueValCount) i =>
                pColumn ← accessor T pMat sc;
                val ← load (cells pMat) pColumn i;
                if neq val lastVal then
                  n ← int_add uniqueValCount 1;
                  Some (val, n)
                else Some (lastVal, uniqueValCount))
             (seqZ 1 (num_rows pMat - 1)) (first, 1);
    let uniqueValCount := r.2 in
    size ← int_mul uniqueValCount 2;
    let pRet := replicate (Z.to_nat size) None in
    pColumn ← accessor T pMat sc;
    first ← load (cells pMat) pColumn 0;
    pRet ← Template.put pRet 0 1;
    r ← loop (fun '(pRet, j, lastVal) i =>
                pColumn ← accessor T pMat sc;
                val ← load (cells pMat) pColumn i;
                if neq val lastVal then
                  pRet ← Template.put pRet j (wrap 32 i);
                  j1 ← int_add j 1;
                  pRet ← Template.put pRet j1 (wrap 32 (i + 1));
                  j2 ← int_add j1 1;
                  Some (pRet, j2, val)
                else Some (pRet, j, lastVal))
             (seqZ 1 (num_rows pMat - 1)) (pRet, 1, first);
    last ← int_mul uniqueValCount 2;
    pRet ← Template.put r.1.1 (last - 1) (wrap 32 (num_rows pMat));
    Some (Some pRet).

End Scan.

(** The data of an integer matrix, or of a [double] one, as the template
    instance of that type sees it. *)
Definition ints_of (pMat : BigMatrix) : option (Mat Z) :=
  match matrix pMat with
  | Ints b => Some (MkMat (nrow pMat) (ncol pMat) b)
  | Doubles _ => None
  end.

Definition doubles_of (pMat : BigMatrix) : option (Mat double) :=
  match matrix pMat with
  | Doubles b => Some (MkMat (nrow pMat) (ncol pMat) b)
  | Ints _ => None
  end.

Definition accessor_of (pMat : BigMatrix) : Accessor :=
  if separated_columns pMat then SepBigMatrixAccessor else BigMatrixAccessor.

(** [SEXP ColCountNA(SEXP address, SEXP column)]: the eight instances
    differ in the element type and the accessor only; with a type that is
    none of the four the answer is [R_NilValue] ([None] inside). *)
Definition ColCountNA_entry (NA_INTEGER : Z) (pMat : BigMatrix)
    (column : double) : option (option Z) :=
  match matrix_type pMat with
  | 1 | 2 | 4 =>
      m ← ints_of pMat;
      n ← ColCountNA (accessor_of pMat) Z.eqb double_of_Z NA_INTEGER m column;
      Some (Some n)
  | 8 =>
      m ← doubles_of pMat;
      n ← ColCountNA (accessor_of pMat)
            (fun x n => deq x (double_of_Z n)) (fun x => x) NA_INTEGER m column;
      Some (Some n)
  | _ => Some None
  end.

(** [SEXP MatrixHashRanges(SEXP bigMatAddr, SEXP selectColumn)]. *)
Definition MatrixHashRanges_entry (pMat : BigMatrix) (selectColumn : double)
  : option (option (list (option Z))) :=
  match matrix_type pMat with
  | 1 | 2 | 4 =>
      m ← ints_of pMat;
      MatrixHashRanges (accessor_of pMat) (fun a b => negb (a =? b)) m selectColumn
  | 8 =>
      m ← doubles_of pMat;
      MatrixHashRanges (accessor_of pMat) (fun a b => negb (deq a b)) m selectColumn
  | _ => Some None
  end.

End Scans.

(** ** Locking from R *)

Module Locks.
Import Elements.

(** [indexes[i] = static_cast<index_type>(NUMERIC_DATA(lockCols)[i]) - 1]. *)
Definition indexes (lockCols : list double) : option (list Z) :=
  mapM (fun x => i ← index_of_double x; Some (i - 1)) lockCols.

Definition with_indexes (lockCols : list double)
    (f : list Z -> Shared.M bool) : Shared.M unit :=
  match indexes lockCols with
  | Some cols => Shared.bind (f cols) (fun _ => Shared.ret tt)
  | None => Shared.undefined
  end.

(** [void BigMatrixRLock(SEXP address, SEXP lockCols)]. *)
Definition BigMatrixRLock (lockCols : list double) : Shared.M unit :=
  with_indexes lockCols Shared.read_lock.

(** [void BigMatrixRWLock(SEXP address, SEXP lockCols)]. *)
Definition BigMatrixRWLock (lockCols : list double) : Shared.M unit :=
  with_indexes lockCols Shared.read_write_lock.

(** [void BigMatrixRelease(SEXP address, SEXP lockCols)]. *)
Definition BigMatrixRelease (lockCols : list double) : Shared.M unit :=
  with_indexes lockCols Shared.unlock.

End Locks.
(** * Properties *)

Lemma valid_type_cases t :
  valid_type t = true -> t = 1 \/ t = 2 \/ t = 4 \/ t = 8.
Proof. unfold valid_type. lia. Qed.

Lemma valid_type_false t :
  valid_type t = false -> t <> 1 /\ t <> 2 /\ t <> 4 /\ t <> 8.
Proof. unfold valid_type. lia. Qed.

(** ** LocalBigMatrix::create *)

Section LocalCreate.
Import Local.

Lemma new_array_Some n sz h p h' :
  new_array n sz h = Some (p, h') ->
  fits n sz h = true /\ p = next h /\
  live h' = <[next h := Block (n * sz) []]> (live h) /\
  avail h' = avail h - n * sz.
Proof.
  unfold new_array. destruct (fits n sz h); [|discriminate].
  intros [= <- <-]. auto.
Qed.

Lemma new_array_None n sz h :
  new_array n sz h = None <-> fits n sz h = false.
Proof. unfold new_array. destruct (fits n sz h); split; congruence. Qed.

Lemma store_slot_dom pMat p h : dom (live (store_slot pMat p h)) = dom (live h).
Proof. unfold store_slot; simpl. apply leibniz_equiv, dom_alter. Qed.

(** Nothing in the allocation loop ever frees: the set of live blocks only
    grows, whether the loop ends normally or by [bad_alloc]. *)
Lemma alloc_columns_keeps n : forall pMat nrow sz h r h',
  alloc_columns n pMat nrow sz h = (r, h') ->
  dom (live h) ⊆ dom (live h').
Proof.
  induction n as [|n IH]; simpl; intros pMat nrow sz h r h' E.
  - injection E as <- <-. done.
  - destruct (new_array nrow sz h) as [[p h1]|] eqn:En.
    + apply IH in E. rewrite store_slot_dom in E.
      apply new_array_Some in En as (_ & _ & Hl & _).
      rewrite Hl, dom_insert_L in E. set_solver.
    + injection E as <- <-. done.
Qed.

(** The loop succeeds exactly when all its blocks fit. *)
Lemma alloc_columns_ok n : forall pMat nrow sz h,
  0 < sz ->
  (alloc_columns n pMat nrow sz h).1 = Some tt <->
  (n = O \/ (0 <= nrow /\ Z.of_nat n * (nrow * sz) <= avail h)).
Proof.
  induction n as [|n IH]; simpl; intros pMat nrow sz h Hsz.
  - split; auto.
  - destruct (new_array nrow sz h) as [[p h1]|] eqn:En.
    + apply new_array_Some in En as (Hf & _ & _ & Ha).
      rewrite IH by done. unfold store_slot; simpl. rewrite Ha.
      unfold fits in Hf. split.
      * intros [->|[? ?]]; right; split; nia.
      * intros [?|[? ?]]; [lia|]. destruct n; [by left|right]. split; nia.
    + apply new_array_None in En. unfold fits in En. simpl. split; [done|].
      intros [?|[? ?]]; [lia|]. exfalso. nia.
Qed.

Lemma CreateLocalSepColMatrix_ok sz nrow ncol h :
  0 < sz ->
  is_Some (CreateLocalSepColMatrix sz nrow ncol h).1 <->
  sep_ok sz nrow ncol h = true.
Proof.
  intros Hsz. unfold CreateLocalSepColMatrix, sep_ok.
  destruct (new_array ncol 8 h) as [[p h1]|] eqn:En.
  - apply new_array_Some in En as (Hf & _ & _ & Ha). rewrite Hf. simpl.
    pose proof (alloc_columns_ok (Z.to_nat ncol) p nrow sz h1 Hsz) as Hok.
    destruct (alloc_columns (Z.to_nat ncol) p nrow sz h1) as [[[]|] h2];
      simpl in *; unfold fits, sep_demand in *.
    + split; [intros _|by eauto].
      destruct Hok as [Hok _]. specialize (Hok eq_refl). nia.
    + split; [by intros [? ?]|]. intros H. exfalso.
      destruct Hok as [_ Hok]. enough (None = Some tt) by discriminate.
      apply Hok. destruct (Z.eq_dec ncol 0); [left|right]; nia.
  - apply new_array_None in En. rewrite En. simpl. split; [by intros [? ?]|done].
Qed.

Lemma valid_type_pos t : valid_type t = true -> 0 < t.
Proof. intros H. apply valid_type_cases in H. lia. Qed.

(** [create] reports failure exactly when the type is one of the four and
    memory is insufficient. *)
Lemma create_true_iff this r c t s h :
  (create this r c t s h).1.1 = true <->
  (valid_type t = false \/ memory_suffices r c t s h = true).
Proof.
  unfold create, create_body, memory_suffices.
  destruct (valid_type t) eqn:Ht; simpl; [|split; auto].
  destruct s.
  - pose proof (CreateLocalSepColMatrix_ok t r c h (valid_type_pos _ Ht)) as Hok.
    destruct (CreateLocalSepColMatrix t r c h) as [[p|] h']; simpl in *.
    + split; [intros _; right; apply Hok; eauto|done].
    + split; [done|]. intros [?|H]; [done|]. apply Hok in H as [? ?]. done.
  - destruct (new_array (r * c) t h) as [[p h']|] eqn:En; simpl.
    + apply new_array_Some in En as [-> _]. split; auto.
    + apply new_array_None in En. rewrite En. split; [done|]. by intros [?|?].
Qed.

(** When the separated branch fails after the pointer array was granted,
    the array (and every column block granted before the failure) is still
    live on return, and the object does not point to it. *)
Lemma create_sep_failure_leaks this r c t h this' h' :
  valid_type t = true ->
  fits c 8 h = true ->
  create this r c t true h = (false, this', h') ->
  next h ∈ dom (live h') /\ dom (live h) ⊆ dom (live h') /\
  _matrix this' = _matrix this.
Proof.
  intros Ht Hf. unfold create, create_body, CreateLocalSepColMatrix, new_array.
  rewrite Ht, Hf.
  set (h1 := MkHeap _ _ _).
  destruct (alloc_columns _ _ _ _ h1) as [[[]|] h2] eqn:Ea; [done|].
  intros [= <- <-]. simpl. apply alloc_columns_keeps in Ea.
  subst h1. simpl in Ea. rewrite dom_insert_L in Ea. set_solver.
Qed.

End LocalCreate.

(** C5 (the code leaks): a separated 1 x 2 matrix of [char] on a heap with
    17 bytes left.  The pointer array (16 bytes) and column 0 (1 byte) are
    granted, column 1 is refused; [create] returns [false], the object's
    pointer stays null, and the two granted blocks are still allocated. *)
Theorem create_sep_partial_failure_leaks :
  exists this' h',
    Local.create Local.fresh 1 2 1 true (Local.heap_of 17) = (false, this', h') /\
    Local._matrix this' = None /\
    dom (Local.live h') = {[ 0%nat; 1%nat ]} /\
    Local.live h' !! 0%nat = Some (Local.Block 16 [1%nat]) /\
    Local.live h' !! 1%nat = Some (Local.Block 1 []).
Proof.
  eexists _, _. split; [reflexivity|]. split; [reflexivity|].
  split; [|split]; by vm_compute.
Qed.

(** C10: with a [matrixType] outside {1,2,4,8} no case of either switch
    matches: [create] returns [true], leaves the data pointer as it was and
    allocates nothing.  And whenever [create] returns [false], the type is
    one of the four and the memory left did not suffice for the blocks
    asked for, that is, an allocation raised [bad_alloc]. *)
Theorem create_unknown_type_succeeds this r c t s h :
  (valid_type t = false ->
   Local.create this r c t s h =
     (true, Local.MkLocal r c t s (Local._matrix this), h)) /\
  ((Local.create this r c t s h).1.1 = false ->
   valid_type t = true /\ Local.memory_suffices r c t s h = false).
Proof.
  split.
  - intros Ht. unfold Local.create, Local.create_body. by rewrite Ht.
  - intros Hf. pose proof (create_true_iff this r c t s h) as Hiff.
    destruct (valid_type t); destruct (Local.memory_suffices r c t s h);
      try done; exfalso; rewrite Hf in Hiff; destruct Hiff as [_ Hiff];
      (enough (false = true) by discriminate); apply Hiff; auto.
Qed.

Lemma create_unknown_type_succeeds_witness :
  (valid_type 3 = false /\
   Local.create Local.fresh 5 5 3 true (Local.heap_of 0) =
     (true, Local.MkLocal 5 5 3 true None, Local.heap_of 0)) /\
  ((Local.create Local.fresh 1 1 4 false (Local.heap_of 3)).1.1 = false /\
   valid_type 4 = true /\
   Local.memory_suffices 1 1 4 false (Local.heap_of 3) = false).
Proof.
  split.
  - split; [reflexivity|].
    apply (create_unknown_type_succeeds Local.fresh 5 5 3 true (Local.heap_of 0)).
    reflexivity.
  - split; [reflexivity|].
    apply (create_unknown_type_succeeds Local.fresh 1 1 4 false (Local.heap_of 3)).
    reflexivity.
Defined.

(** ** The lock table *)

Section MonadLaws.
Import Shared.

Lemma bind_eq {A B} (m : M A) (k : A -> M B) s :
  (m ≫= k) s =
  match m s with
  | Ok a s' => k a s'
  | Throw s' => Throw s'
  | Blocks s' => Blocks s'
  | Undefined => Undefined
  end.
Proof. reflexivity. Qed.

Lemma bind_Ok {A B} (m : M A) (k : A -> M B) s b s' :
  (m ≫= k) s = Ok b s' -> exists a s1, m s = Ok a s1 /\ k a s1 = Ok b s'.
Proof. rewrite bind_eq. destruct (m s); [eauto|done..]. Qed.

Lemma ret_eq {A} (a : A) s : mret (M := M) a s = Ok a s.
Proof. reflexivity. Qed.
Lemma ret'_eq {A} (a : A) s : ret a s = Ok a s.
Proof. reflexivity. Qed.
Lemma get_this_eq s : get_this s = Ok (this s) s.
Proof. reflexivity. Qed.
Lemma get_world_eq s : get_world s = Ok (world s) s.
Proof. reflexivity. Qed.
Lemma upd_this_eq f s : upd_this f s = Ok tt (MkState (f (this s)) (world s)).
Proof. reflexivity. Qed.
Lemma upd_world_eq f s : upd_world f s = Ok tt (MkState (this s) (f (world s))).
Proof. reflexivity. Qed.
Lemma throw_eq {A} s : throw (A := A) s = Throw s.
Proof. reflexivity. Qed.
Lemma undefined_eq {A} s : undefined (A := A) s = Undefined.
Proof. reflexivity. Qed.
Lemma when_true m : when true m = m.
Proof. reflexivity. Qed.
Lemma when_false m s : when false m s = Ok tt s.
Proof. reflexivity. Qed.
Lemma try_catch_eq {A} (body handler : M A) s :
  try_catch body handler s =
  match body s with
  | Throw s' => handler s'
  | r => r
  end.
Proof. reflexivity. Qed.

End MonadLaws.

Create Rewrite HintDb mred.
#[global] Hint Rewrite @bind_eq @ret_eq @ret'_eq get_this_eq get_world_eq
  upd_this_eq upd_world_eq @throw_eq @undefined_eq when_true when_false
  @try_catch_eq : mred.

(** Projections of updated records. *)
Ltac wsimpl :=
  unfold Shared.count in *;
  cbn [Shared.this Shared.world Shared.shm Shared.files Shared.named_mutexes
       Shared.held Shared.rwlocks Shared.counters Shared.trace
       Shared.set_shm Shared.set_files Shared.set_named_mutexes
       Shared.set_held Shared.set_rwlocks Shared.set_counters
       Shared.set_trace
       Shared._nrow Shared._ncol Shared._matType Shared._sepCols
       Shared._matrix Shared._uuid Shared._sharedName
       Shared._dataRegionPtrs Shared._mutexPtrs Shared._mutexLock
       Shared._sharedCounter Shared._fileName Shared._preserve
       Shared.set_dims Shared.set_matrix Shared.set_uuid
       Shared.set_sharedName Shared.set_dataRegionPtrs Shared.set_mutexPtrs
       Shared.set_mutexLock Shared.set_sharedCounter Shared.set_fileName
       Shared.set_preserve] in *.

(** Run a computation on a state as far as it reduces. *)
Ltac mred :=
  repeat first
    [ progress autorewrite with mred
    | progress cbn [Shared.this Shared.world] ].

Ltac mrun := repeat first [ progress mred | progress wsimpl ].

Section Locking.
Import Shared.

(** The state after the calls [evs] were made on reader/writer locks. *)
Definition log (evs : list (string * lock_op)) (s : State) : State :=
  MkState (this s) (set_trace (fun t => t ++ evs) (world s)).

Lemma mutex_at_eq c s :
  mutex_at c s =
  if c <? 0 then Undefined
  else match _mutexPtrs (this s) !! Z.to_nat c with
       | Some name => Ok name s
       | None => Undefined
       end.
Proof.
  unfold mutex_at. mred. destruct (c <? 0); [done|].
  by destruct (_mutexPtrs (this s) !! Z.to_nat c).
Qed.

Lemma BigMemoryMutex_call_eq n op s :
  BigMemoryMutex_call n op s = Ok tt (log [(n, op)] s).
Proof. reflexivity. Qed.

Lemma log_nil s : log [] s = s.
Proof.
  destruct s as [o [? ? ? ? ? ? t]]. unfold log, set_trace; simpl.
  by rewrite app_nil_r.
Qed.

Lemma log_app e1 e2 s : log e2 (log e1 s) = log (e1 ++ e2) s.
Proof. unfold log, set_trace; simpl. by rewrite app_assoc. Qed.

Lemma column_calls s cols names op :
  selects (this s) cols names ->
  for_each cols (fun c => m ← mutex_at c; BigMemoryMutex_call m op) s
  = Ok tt (log ((fun n => (n, op)) <$> names) s).
Proof.
  intros Hsel. revert s names Hsel.
  induction cols as [|c cols IH]; intros s names Hsel.
  - apply Forall2_nil_inv_l in Hsel as ->. by rewrite log_nil.
  - apply Forall2_cons_inv_l in Hsel as (n & names' & [Hc Hn] & Hsel & ->).
    cbn [for_each]. mred. rewrite mutex_at_eq.
    destruct (Z.ltb_spec c 0) as [?|_]; [lia|]. rewrite Hn.
    rewrite BigMemoryMutex_call_eq. mred. rewrite (IH (log [(n, op)] s) names' Hsel).
    by rewrite log_app.
Qed.

Lemma read_lock_calls s cols names l :
  _mutexLock (this s) = Some l -> selects (this s) cols names ->
  read_lock cols s = Ok true (log (batched_calls l names op_read_lock) s).
Proof.
  intros Hl Hsel.
  unfold read_lock, structural_lock. mred. rewrite Hl. mred.
  rewrite !BigMemoryMutex_call_eq. mred.
  rewrite (column_calls (log _ s) cols names _ Hsel). mred.
  rewrite !BigMemoryMutex_call_eq, !log_app. reflexivity.
Qed.

Lemma read_write_lock_calls s cols names l :
  _mutexLock (this s) = Some l -> selects (this s) cols names ->
  read_write_lock cols s
  = Ok true (log (batched_calls l names op_read_write_lock) s).
Proof.
  intros Hl Hsel.
  unfold read_write_lock, structural_lock. mred. rewrite Hl. mred.
  rewrite !BigMemoryMutex_call_eq. mred.
  rewrite (column_calls (log _ s) cols names _ Hsel). mred.
  rewrite !BigMemoryMutex_call_eq, !log_app. reflexivity.
Qed.

Lemma unlock_calls s cols names :
  selects (this s) cols names ->
  unlock cols s = Ok true (log ((fun n => (n, op_unlock)) <$> names) s).
Proof.
  intros Hsel.
  unfold unlock. mred. rewrite (column_calls _ cols names _ Hsel). by mred.
Qed.

End Locking.

(** A two-column separated matrix of [char], just created. *)
Definition two_columns : Shared.State :=
  match Shared.SharedMemoryBigMatrix_create Shared.no_faults "u" 1 2 1 true
          (Shared.MkState Shared.new_object Shared.empty_world) with
  | Shared.Ok _ s => s
  | _ => Shared.MkState Shared.new_object Shared.empty_world
  end.

(** C4, as stated, fails for [unlock]: on the two-column matrix,
    [unlock] of columns 1 and 0 makes two calls only, one on each column
    lock, and none on the structural lock. *)
Lemma unlock_leaves_structural_lock_alone :
  exists s',
    Shared.unlock [1; 0] two_columns = Shared.Ok true s' /\
    Shared.trace (Shared.world s') =
      [("u_column_1mutex", Shared.op_unlock); ("u_column_0mutex", Shared.op_unlock)] /\
    Shared.trace (Shared.world s') <>
      Shared.trace (Shared.world two_columns) ++
      Shared.batched_calls "u_mutex_lock" ["u_column_1mutex"; "u_column_0mutex"]
        Shared.op_unlock.
Proof.
  eexists. split; [by vm_compute|]. split; [by vm_compute|]. by vm_compute.
Qed.

(** C4, amended: [read_lock] and [read_write_lock] take the structural
    lock, make their call on each named column lock in the order given and
    release the structural lock; [unlock] releases each named column lock
    in the order given and does not touch the structural lock. *)
Theorem batched_lock_calls s cols names l :
  Shared._mutexLock (Shared.this s) = Some l ->
  Shared.selects (Shared.this s) cols names ->
  Shared.read_lock cols s =
    Shared.Ok true (log (Shared.batched_calls l names Shared.op_read_lock) s) /\
  Shared.read_write_lock cols s =
    Shared.Ok true (log (Shared.batched_calls l names Shared.op_read_write_lock) s) /\
  Shared.unlock cols s =
    Shared.Ok true (log ((fun n => (n, Shared.op_unlock)) <$> names) s).
Proof.
  intros Hl Hsel. split; [|split].
  - by apply read_lock_calls.
  - by apply read_write_lock_calls.
  - by apply unlock_calls.
Qed.

Lemma batched_lock_calls_witness :
  Shared.read_lock [1; 0] two_columns =
    Shared.Ok true
      (log (Shared.batched_calls "u_mutex_lock"
              ["u_column_1mutex"; "u_column_0mutex"] Shared.op_read_lock)
         two_columns) /\
  Shared.read_write_lock [1; 0] two_columns =
    Shared.Ok true
      (log (Shared.batched_calls "u_mutex_lock"
              ["u_column_1mutex"; "u_column_0mutex"] Shared.op_read_write_lock)
         two_columns) /\
  Shared.unlock [1; 0] two_columns =
    Shared.Ok true
      (log ((fun n => (n, Shared.op_unlock)) <$>
              ["u_column_1mutex"; "u_column_0mutex"]) two_columns).
Proof.
  apply (batched_lock_calls two_columns [1; 0]
           ["u_column_1mutex"; "u_column_0mutex"] "u_mutex_lock").
  - reflexivity.
  - unfold Shared.selects.
    repeat (constructor; [split; [lia|reflexivity]|]). constructor.
Defined.

(** ** Running the primitives *)

Section Primitives.
Import Shared.
Variable env : Env.

Lemma mutex_lock_eq n s :
  mutex_lock n s =
  if bool_decide (n ∈ held (world s)) then Blocks s
  else Ok tt (MkState (this s) (set_held (union {[n]}) (world s))).
Proof. reflexivity. Qed.

Lemma named_mutex_open_or_create_eq n s :
  named_mutex_open_or_create n s =
  Ok tt (MkState (this s) (set_named_mutexes (union {[n]}) (world s))).
Proof. reflexivity. Qed.

Lemma mutex_unlock_eq n s :
  mutex_unlock n s =
  Ok tt (MkState (this s) (set_held (fun h => h ∖ {[n]}) (world s))).
Proof. reflexivity. Qed.

Lemma named_mutex_remove_eq n s :
  named_mutex_remove n s =
  Ok tt (MkState (this s)
           (set_held (fun h => h ∖ {[n]})
              (set_named_mutexes (fun m => m ∖ {[n]}) (world s)))).
Proof. reflexivity. Qed.

Lemma shm_remove_eq n s :
  shm_remove n s = Ok tt (MkState (this s) (set_shm (delete n) (world s))).
Proof. reflexivity. Qed.

Lemma unlink_eq n s :
  unlink n s = Ok tt (MkState (this s) (set_files (delete n) (world s))).
Proof. reflexivity. Qed.

Lemma BigMemoryMutex_init_eq n s :
  BigMemoryMutex_init n s =
  Ok tt (MkState (this s) (set_rwlocks (union {[n]}) (world s))).
Proof. reflexivity. Qed.

Lemma BigMemoryMutex_destroy_eq n s :
  BigMemoryMutex_destroy n s =
  Ok tt (MkState (this s) (set_rwlocks (fun l => l ∖ {[n]}) (world s))).
Proof. reflexivity. Qed.

Lemma SharedCounter_get_eq s :
  SharedCounter_get s =
  Ok (match _sharedCounter (this s) with
      | Some name => count (world s) name
      | None => 0
      end) s.
Proof. reflexivity. Qed.

Lemma SharedCounter_init_eq n s :
  SharedCounter_init n s =
  Ok tt (MkState (set_sharedCounter (Some n) (this s))
           (set_counters (<[n := count (world s) n + 1]>) (world s))).
Proof.
  unfold SharedCounter_init. mred. unfold count, set_counters.
  by destruct (counters (world s) !! n).
Qed.

Lemma SharedCounter_reset_eq s :
  SharedCounter_reset s =
  match _sharedCounter (this s) with
  | Some n =>
      Ok tt (MkState (set_sharedCounter None (this s))
               (set_counters (<[n := count (world s) n - 1]>) (world s)))
  | None => Ok tt s
  end.
Proof.
  unfold SharedCounter_reset. mred.
  by destruct (_sharedCounter (this s)).
Qed.

Lemma shm_create_only_eq n s :
  shm_create_only env n s =
  if bool_decide (n ∈ dom (shm (world s))) || fault_eqb (shm_fault env n) FailOpen
  then Throw s
  else Ok tt (MkState (this s) (set_shm <[n := 0]> (world s))).
Proof. unfold shm_create_only. mred. by destruct (_ || _). Qed.

Lemma shm_open_only_eq n s :
  shm_open_only env n s =
  if bool_decide (n ∈ dom (shm (world s))) && negb (fault_eqb (shm_fault env n) FailOpen)
  then Ok tt s else Throw s.
Proof. unfold shm_open_only. mred. by destruct (_ && _). Qed.

Lemma shm_truncate_eq n k s :
  shm_truncate env n k s =
  if fault_eqb (shm_fault env n) FailTruncate then Throw s
  else Ok tt (MkState (this s) (set_shm <[n := k]> (world s))).
Proof. unfold shm_truncate. by destruct (fault_eqb _ _). Qed.

Lemma map_region_eq n s :
  map_region env n s =
  if fault_eqb (shm_fault env n) FailMap then Throw s else Ok (Some n) s.
Proof. unfold map_region. by destruct (fault_eqb _ _). Qed.

Lemma file_mapping_eq n s :
  file_mapping n s =
  if bool_decide (n ∈ dom (files (world s))) then Ok tt s else Throw s.
Proof. unfold file_mapping. mred. by destruct (bool_decide _). Qed.

Lemma make_file_eq n k s :
  make_file env n k s =
  if file_fault env n then Ok false s
  else Ok true (MkState (this s) (set_files <[n := k + 1]> (world s))).
Proof. unfold make_file. by destruct (file_fault env n). Qed.

(** A loop whose body only rewrites the world. *)
Lemma for_each_world {A} (l : list A) (body : A -> M unit)
    (g : A -> World -> World) :
  (forall i s, body i s = Ok tt (MkState (this s) (g i (world s)))) ->
  forall s,
    for_each l body s =
    Ok tt (MkState (this s) (foldl (fun w i => g i w) (world s) l)).
Proof.
  intros Hbody. induction l as [|i l IH]; intros s; cbn [for_each foldl].
  - by destruct s.
  - mred. rewrite Hbody, IH. reflexivity.
Qed.

End Primitives.

#[global] Hint Rewrite named_mutex_open_or_create_eq mutex_unlock_eq
  named_mutex_remove_eq shm_remove_eq unlink_eq BigMemoryMutex_init_eq
  BigMemoryMutex_destroy_eq SharedCounter_get_eq SharedCounter_init_eq
  SharedCounter_reset_eq : mred.

(** ** Loops that remove named things *)

Section Removal.
Import Shared.

Lemma foldl_set_shm {A} (h : A -> gmap string Z -> gmap string Z) l w :
  foldl (fun w i => set_shm (h i) w) w l =
  set_shm (fun m => foldl (fun m i => h i m) m l) w.
Proof.
  revert w. induction l as [|i l IH]; intros w; cbn [foldl].
  - by destruct w.
  - rewrite IH. reflexivity.
Qed.

Lemma foldl_set_rwlocks {A} (h : A -> gset string -> gset string) l w :
  foldl (fun w i => set_rwlocks (h i) w) w l =
  set_rwlocks (fun m => foldl (fun m i => h i m) m l) w.
Proof.
  revert w. induction l as [|i l IH]; intros w; cbn [foldl].
  - by destruct w.
  - rewrite IH. reflexivity.
Qed.

Lemma foldl_set_shm_files {A}
    (hs hf : A -> gmap string Z -> gmap string Z) l w :
  foldl (fun w i => set_files (hf i) (set_shm (hs i) w)) w l =
  set_files (fun m => foldl (fun m i => hf i m) m l)
    (set_shm (fun m => foldl (fun m i => hs i m) m l) w).
Proof.
  revert w. induction l as [|i l IH]; intros w; cbn [foldl].
  - by destruct w.
  - rewrite IH. reflexivity.
Qed.

Lemma lookup_foldl_delete {A V} (f : A -> string) (l : list A)
    (m : gmap string V) n :
  foldl (fun m i => delete (f i) m) m l !! n =
  if decide (n ∈ f <$> l) then None else m !! n.
Proof.
  revert m. induction l as [|i l IH]; intros m; cbn [foldl].
  - rewrite decide_False; [done|]. cbn. set_solver.
  - rewrite IH. rewrite fmap_cons.
    destruct (decide (n ∈ f <$> l)) as [Hin|Hout].
    + rewrite decide_True; [done|]. set_solver.
    + destruct (decide (n = f i)) as [->|Hne].
      * rewrite decide_True by set_solver. by rewrite lookup_delete_eq.
      * rewrite decide_False by set_solver. by rewrite lookup_delete_ne.
Qed.

Lemma foldl_id {A B} (l : list A) (m : B) : foldl (fun m _ => m) m l = m.
Proof. induction l; cbn; auto. Qed.

Lemma elem_of_foldl_difference (l : list string) (X : gset string) n :
  n ∈ foldl (fun X i => X ∖ {[i]}) X l <-> n ∈ X /\ n ∉ l.
Proof.
  revert X. induction l as [|i l IH]; intros X; cbn [foldl].
  - set_solver.
  - rewrite IH. set_solver.
Qed.

End Removal.

(** ** destroy *)

Section Destroy.
Import Shared.
Variable env : Env.

Lemma destroy_locks_eq s :
  destroy_locks s =
  Ok tt (MkState (this s)
    (set_rwlocks (fun X =>
       match _mutexLock (this s) with
       | Some l => foldl (fun X i => X ∖ {[i]}) X (_mutexPtrs (this s)) ∖ {[l]}
       | None => foldl (fun X i => X ∖ {[i]}) X (_mutexPtrs (this s))
       end) (world s))).
Proof.
  unfold destroy_locks. mred.
  rewrite (for_each_world _ _ (fun i => set_rwlocks (fun l => l ∖ {[i]})))
    by (intros; apply BigMemoryMutex_destroy_eq).
  rewrite foldl_set_rwlocks. mred.
  destruct (_mutexLock (this s)); mred; reflexivity.
Qed.

Lemma DestroySharedSepMatrix_eq uuid ncol s :
  DestroySharedSepMatrix uuid ncol s =
  Ok tt (MkState (this s)
    (set_shm (fun m => foldl (fun m i => delete (column_name uuid i) m) m
                         (upto ncol)) (world s))).
Proof.
  unfold DestroySharedSepMatrix.
  rewrite (for_each_world _ _ (fun i => set_shm (delete (column_name uuid i))))
    by (intros; apply shm_remove_eq).
  by rewrite foldl_set_shm.
Qed.

Lemma DestroyFileBackedSepMatrix_eq sharedName ncol fileName preserve s :
  DestroyFileBackedSepMatrix sharedName ncol fileName preserve s =
  Ok tt (MkState (this s)
    (set_files (fun m =>
        foldl (fun m i => (if preserve then fun m => m
                           else delete (column_name fileName i)) m) m (upto ncol))
      (set_shm (fun m => foldl (fun m i => delete (column_name sharedName i) m) m
                           (upto ncol)) (world s)))).
Proof.
  unfold DestroyFileBackedSepMatrix.
  rewrite (for_each_world _ _ (fun i =>
     fun w => set_files (if preserve then fun m => m
                         else delete (column_name fileName i))
                (set_shm (delete (column_name sharedName i)) w))).
  - by rewrite (foldl_set_shm_files (fun i => delete (column_name sharedName i))
               (fun i => if preserve then fun m => m
                         else delete (column_name fileName i))).
  - intros i s0. mred. destruct preserve; mred; [|done].
    by destruct s0 as [o []].
Qed.

Lemma SharedMemoryBigMatrix_destroy_spec s cn :
  counter_mutex_name (_sharedName (this s)) ∉ held (world s) ->
  _sharedCounter (this s) = Some cn ->
  exists s',
    SharedMemoryBigMatrix_destroy s = Ok true s' /\
    counters (world s') = <[cn := count (world s) cn - 1]> (counters (world s)) /\
    files (world s') = files (world s) /\
    (count (world s) cn = 1 ->
       (forall n, n ∈ segment_names (_uuid (this s)) (_ncol (this s))
                       (_sepCols (this s)) -> shm (world s') !! n = None) /\
       (forall n, n ∈ _mutexPtrs (this s) -> n ∉ rwlocks (world s')) /\
       (forall l, _mutexLock (this s) = Some l -> l ∉ rwlocks (world s'))) /\
    (count (world s) cn <> 1 ->
       shm (world s') = shm (world s) /\ rwlocks (world s') = rwlocks (world s)).
Proof.
  intros Hfree Hcn. unfold SharedMemoryBigMatrix_destroy. mred.
  rewrite mutex_lock_eq. wsimpl.
  rewrite bool_decide_eq_false_2 by done. mred.
  destruct s as [o w]. wsimpl. unfold segment_names.
  destruct (_sepCols o); mrun; rewrite Hcn;
    destruct (Z.eqb_spec (default 0 (counters w !! cn)) 1) as [Hc|Hc];
    mrun; rewrite ?DestroySharedSepMatrix_eq; mrun; rewrite ?Hcn;
    (destruct (Z.eqb_spec (default 0 (counters w !! cn)) 1) as [Hc'|Hc']; [|try done]);
    try (exfalso; done);
    mrun; rewrite ?destroy_locks_eq; mrun; rewrite ?Hcn; mrun.
  all: eexists; split; [reflexivity|]; wsimpl.
  all: split; [done|]; split; [done|]; split; [|by intros].
  all: intros Hone; first [done | split; [|split]].
  all: try (intros l Hl; rewrite Hl; set_solver).
  all: try (intros n Hn; destruct (_mutexLock o);
            rewrite ?elem_of_difference, elem_of_foldl_difference; tauto).
  - intros n Hn. rewrite lookup_foldl_delete. by rewrite decide_True.
  - intros n Hn. apply list_elem_of_singleton in Hn as ->.
    apply lookup_delete_eq.
Qed.

(** The value [get] reads in the object of [s]. *)
Definition reading (s : State) : Z :=
  match _sharedCounter (this s) with
  | Some cn => count (world s) cn
  | None => 0
  end.

(** The files [FileBackedBigMatrix::destroy] unlinks when it unlinks. *)
Definition unlinked (o : SharedBigMatrix) : list string :=
  if _sepCols o then column_name (_fileName o) <$> upto (_ncol o)
  else [_fileName o].

Lemma FileBackedBigMatrix_destroy_blocks s :
  counter_mutex_name (_sharedName (this s)) ∈ held (world s) ->
  exists s', FileBackedBigMatrix_destroy s = Blocks s'.
Proof.
  intros Hheld. unfold FileBackedBigMatrix_destroy. mred.
  rewrite mutex_lock_eq. wsimpl. rewrite bool_decide_eq_true_2 by done.
  eauto.
Qed.

Lemma FileBackedBigMatrix_destroy_spec s :
  counter_mutex_name (_sharedName (this s)) ∉ held (world s) ->
  exists s',
    FileBackedBigMatrix_destroy s = Ok true s' /\
    counters (world s') = counters (world s) /\
    _sharedCounter (this s') = _sharedCounter (this s) /\
    (forall n, files (world s') !! n =
       if (reading s =? 1) && negb (_preserve (this s)) &&
          bool_decide (n ∈ unlinked (this s))
       then None else files (world s) !! n) /\
    (reading s = 1 ->
       (forall n, n ∈ _mutexPtrs (this s) -> n ∉ rwlocks (world s')) /\
       (forall l, _mutexLock (this s) = Some l -> l ∉ rwlocks (world s'))) /\
    (reading s <> 1 -> rwlocks (world s') = rwlocks (world s)).
Proof.
  intros Hfree. unfold FileBackedBigMatrix_destroy. mred.
  rewrite mutex_lock_eq. wsimpl.
  rewrite bool_decide_eq_false_2 by done. mred.
  destruct s as [o w]. unfold reading, unlinked. wsimpl.
  set (c := match _sharedCounter o with
            | Some cn => default 0 (counters w !! cn) | None => 0 end).
  destruct (_sepCols o); destruct (_preserve o); mrun; fold c;
    destruct (Z.eqb_spec c 1) as [Hc|Hc];
    mrun; rewrite ?DestroyFileBackedSepMatrix_eq; mrun; fold c;
    (destruct (Z.eqb_spec c 1) as [Hc'|Hc']; [|try done]);
    try (exfalso; done);
    mrun; rewrite ?destroy_locks_eq; mrun.
  all: eexists; split; [reflexivity|]; wsimpl.
  all: split; [done|]; split; [done|]; split; [|split].
  all: try (by intros).
  all: try (intros _; split;
            [ intros n Hn; destruct (_mutexLock o);
              rewrite ?elem_of_difference, elem_of_foldl_difference; tauto
            | intros l Hl; rewrite Hl; set_solver ]).
  all: intros n; cbn [negb andb]; rewrite ?foldl_id; try done.
  - rewrite lookup_foldl_delete.
    destruct (decide _) as [Hin|Hin].
    + by rewrite bool_decide_eq_true_2.
    + by rewrite bool_decide_eq_false_2.
  - destruct (decide (n = _fileName o)) as [->|Hne].
    + rewrite lookup_delete_eq. rewrite bool_decide_eq_true_2; [done|set_solver].
    + rewrite lookup_delete_ne by done.
      rewrite bool_decide_eq_false_2; [done|set_solver].
Qed.

End Destroy.

(** ** connect *)

Section Connect.
Import Shared.
Variable env : Env.

Lemma region_address_eq i s :
  region_address i s =
  match _dataRegionPtrs (this s) !! Z.to_nat i with
  | Some (Some r) => Ok r s
  | _ => Undefined
  end.
Proof.
  unfold region_address. mred.
  by destruct (_dataRegionPtrs (this s) !! Z.to_nat i) as [[?|]|].
Qed.

Lemma assign_region_eq i p s :
  assign_region i p s =
  if (0 <=? i) && (i <? Z.of_nat (length (_dataRegionPtrs (this s))))
  then Ok tt (MkState (set_dataRegionPtrs <[Z.to_nat i := p]> (this s)) (world s))
  else Undefined.
Proof. unfold assign_region. mred. by destruct (_ && _). Qed.

(** The loop of [ConnectSharedSepMatrix] leaves the world as it is, and
    it comes to its end only if every segment it asks for is there. *)
Lemma ConnectSharedSepMatrix_loop_Ok uuid l : forall pMat s r s',
  ConnectSharedSepMatrix_loop env uuid l pMat s = Ok r s' ->
  world s' = world s /\
  forall i, i ∈ l -> column_name uuid i ∈ dom (shm (world s)).
Proof.
  induction l as [|i l IH]; intros pMat s r s' H; cbn in H.
  - injection H as _ <-. split; [done|]. intros i Hi. by apply elem_of_nil in Hi.
  - revert H. mred. rewrite shm_open_only_eq.
    destruct (bool_decide_reflect (column_name uuid i ∈ dom (shm (world s))))
      as [Hin|Hout]; cbn [andb]; [|done].
    destruct (negb _); [|done]. mred. rewrite map_region_eq.
    destruct (fault_eqb _ _); [done|]. mrun. rewrite region_address_eq. wsimpl.
    destruct (_ !! _) as [[a|]|]; [|done..].
    intros H. apply IH in H as [Hw Hall]. wsimpl. split; [done|].
    intros j [->|Hj]%elem_of_cons; auto.
Qed.

(** On a newly built object the loop stops with the exception of the
    first segment that is missing, unless an earlier one already made it
    stop the same way. *)
Lemma ConnectSharedSepMatrix_loop_Throw uuid n : forall i0 pMat s,
  0 <= i0 ->
  Forall is_Some (_dataRegionPtrs (this s)) ->
  length (_dataRegionPtrs (this s)) = Z.to_nat i0 ->
  (exists j, j ∈ seqZ i0 (Z.of_nat n) /\
             column_name uuid j ∉ dom (shm (world s))) ->
  exists s', ConnectSharedSepMatrix_loop env uuid (seqZ i0 (Z.of_nat n)) pMat s
             = Throw s' /\ world s' = world s.
Proof.
  induction n as [|n IH]; intros i0 pMat s Hi0 Hall Hlen (j & Hj & Hmiss).
  - by apply elem_of_nil in Hj.
  - rewrite Nat2Z.inj_succ, seqZ_cons in Hj |- * by lia.
    replace (Z.pred (Z.succ (Z.of_nat n))) with (Z.of_nat n) in * by lia.
    cbn [ConnectSharedSepMatrix_loop]. mred. rewrite shm_open_only_eq.
    destruct (bool_decide_reflect (column_name uuid i0 ∈ dom (shm (world s))))
      as [Hin|Hout]; cbn [andb]; [|by eauto].
    destruct (negb _); [|by eauto]. mred. rewrite map_region_eq.
    destruct (fault_eqb _ _); [by eauto|]. mrun. rewrite region_address_eq. wsimpl.
    rewrite lookup_app_r by lia. rewrite Hlen, Nat.sub_diag. cbn [lookup list_lookup].
    apply elem_of_cons in Hj as [->|Hj]; [done|].
    edestruct (IH (Z.succ i0) (pMat ++ [column_name uuid i0])
                 (MkState (set_dataRegionPtrs
                             (fun l => l ++ [Some (column_name uuid i0)]) (this s))
                          (world s))) as (s' & Hs' & Hw); wsimpl.
    + lia.
    + apply Forall_app. split; [done|]. repeat constructor. by eexists.
    + rewrite length_app. cbn. lia.
    + eauto.
    + eauto.
Qed.

Lemma CreateMutexes_eq sharedName ncol s :
  CreateMutexes sharedName ncol s =
  Ok true (MkState
    (set_mutexPtrs (column_mutex_name sharedName <$> upto ncol) (this s))
    (set_rwlocks (fun X => foldl (fun X i => {[column_mutex_name sharedName i]} ∪ X)
                             X (upto ncol)) (world s))).
Proof.
  unfold CreateMutexes. mred.
  rewrite (for_each_world _ _
     (fun i => set_rwlocks (union {[column_mutex_name sharedName i]})))
    by (intros; apply BigMemoryMutex_init_eq).
  rewrite foldl_set_rwlocks. by mred.
Qed.

Lemma SharedMemoryBigMatrix_connect_Ok uuid r c t sep s b s' :
  SharedMemoryBigMatrix_connect env uuid r c t sep s = Ok b s' ->
  b = true /\
  counters (world s') =
    <[counter_name uuid := count (world s) (counter_name uuid) + 1]>
      (counters (world s)) /\
  shm (world s') = shm (world s) /\
  files (world s') = files (world s) /\
  (valid_type t = true ->
   forall n, n ∈ segment_names uuid c sep -> n ∈ dom (shm (world s))).
Proof.
  unfold SharedMemoryBigMatrix_connect. mred.
  rewrite mutex_lock_eq. wsimpl. destruct (bool_decide _); [done|]. mrun.
  unfold assign_matrix, segment_names.
  destruct sep; destruct (valid_type t); mrun.
  - unfold ConnectSharedSepMatrix. mred.
    destruct (ConnectSharedSepMatrix_loop _ _ _ _ _) as [pMat s2| | |] eqn:Hloop;
      [|done..].
    apply ConnectSharedSepMatrix_loop_Ok in Hloop as [Hw Hall].
    destruct s2 as [o2 w2]. wsimpl. subst w2.
    mrun. rewrite CreateMutexes_eq. mrun.
    intros [= <- <-]. wsimpl. repeat split; try done.
    intros _ n (i & -> & Hi)%list_elem_of_fmap. by apply Hall.
  - rewrite CreateMutexes_eq. mrun. intros [= <- <-]. wsimpl. done.
  - unfold ConnectSharedMatrix. mred. rewrite shm_open_only_eq. wsimpl.
    destruct (bool_decide_reflect (uuid ∈ dom (shm (world s)))) as [Hin|Hout];
      cbn [andb]; [|done].
    destruct (negb _); [|done]. mred. rewrite map_region_eq.
    destruct (fault_eqb _ _); [done|]. mrun. rewrite region_address_eq. wsimpl.
    destruct (_ !! _) as [[a|]|]; [|done..]. mrun.
    rewrite CreateMutexes_eq. mrun. intros [= <- <-]. wsimpl.
    repeat split; try done. by intros _ n ->%list_elem_of_singleton.
  - rewrite CreateMutexes_eq. mrun. intros [= <- <-]. wsimpl. done.
Qed.

Lemma SharedMemoryBigMatrix_connect_Throw uuid r c t sep s n :
  valid_type t = true ->
  counter_mutex_name uuid ∉ held (world s) ->
  _dataRegionPtrs (this s) = [] ->
  n ∈ segment_names uuid c sep ->
  n ∉ dom (shm (world s)) ->
  exists s', SharedMemoryBigMatrix_connect env uuid r c t sep s = Throw s'.
Proof.
  intros Ht Hfree Hnew Hn Hmiss.
  unfold SharedMemoryBigMatrix_connect. mred.
  rewrite mutex_lock_eq. wsimpl. rewrite bool_decide_eq_false_2 by done. mrun.
  unfold assign_matrix, segment_names in *. rewrite Ht.
  destruct sep; mrun.
  - unfold ConnectSharedSepMatrix. mred.
    apply list_elem_of_fmap in Hn as (j & -> & Hj).
    assert (0 < c) as Hc.
    { unfold upto in Hj. apply elem_of_seqZ in Hj. lia. }
    unfold upto in *. rewrite <- (Z2Nat.id c) in Hj |- * by lia.
    edestruct (ConnectSharedSepMatrix_loop_Throw uuid (Z.to_nat c) 0 []) as (s' & -> & _);
      [| | |exists j; split; [exact Hj|]|]; wsimpl; rewrite ?Hnew; try done.
    eauto.
  - apply list_elem_of_singleton in Hn as ->.
    unfold ConnectSharedMatrix. mred. rewrite shm_open_only_eq. wsimpl.
    rewrite bool_decide_eq_false_2 by done. cbn [andb]. eauto.
Qed.

End Connect.

(** C6, as stated, fails: the whole matrix lives in the segment ["u"],
    which exists, and no reference counter of that identity exists;
    [connect] succeeds all the same and leaves a counter that reads 1.
    (It also succeeds, opening nothing, when the type is none of the
    four.) *)
Lemma connect_succeeds_without_counter :
  let w := Shared.set_shm <["u" := 4]> Shared.empty_world in
  Shared.counters w !! Shared.counter_name "u" = None /\
  (exists s',
     Shared.SharedMemoryBigMatrix_connect Shared.no_faults "u" 2 2 1 false
       (Shared.MkState Shared.new_object w) = Shared.Ok true s' /\
     Shared.counters (Shared.world s') !! Shared.counter_name "u" = Some 1) /\
  (exists s',
     Shared.SharedMemoryBigMatrix_connect Shared.no_faults "v" 2 2 3 true
       (Shared.MkState Shared.new_object w) = Shared.Ok true s' /\
     Shared.segment_names "v" 2 true = ["v_column_0"; "v_column_1"] /\
     Shared.shm (Shared.world s') !! "v_column_0" = None).
Proof.
  cbv zeta. split; [by vm_compute|]. split.
  - eexists. split; by vm_compute.
  - eexists. split; [by vm_compute|]. split; by vm_compute.
Qed.

(** C6, amended: for a type among the four, [connect] succeeds only when
    every data segment the layout derives from the identity exists (each
    column segment when separated, the single segment otherwise), and on
    a newly built object whose creation mutex is free it fails with the
    exception of the open when one of them is missing.  The reference
    counter need not exist: it is opened or created. *)
Theorem connect_needs_every_segment env uuid r c t sep s :
  valid_type t = true ->
  (forall b s',
     Shared.SharedMemoryBigMatrix_connect env uuid r c t sep s = Shared.Ok b s' ->
     forall n, n ∈ Shared.segment_names uuid c sep ->
               n ∈ dom (Shared.shm (Shared.world s))) /\
  (Shared.counter_mutex_name uuid ∉ Shared.held (Shared.world s) ->
   Shared._dataRegionPtrs (Shared.this s) = [] ->
   forall n, n ∈ Shared.segment_names uuid c sep ->
             n ∉ dom (Shared.shm (Shared.world s)) ->
   exists s', Shared.SharedMemoryBigMatrix_connect env uuid r c t sep s
              = Shared.Throw s').
Proof.
  intros Ht. split.
  - intros b s' H. apply SharedMemoryBigMatrix_connect_Ok in H.
    destruct H as (_ & _ & _ & _ & H). by apply H.
  - intros. by eapply SharedMemoryBigMatrix_connect_Throw.
Qed.

Lemma connect_needs_every_segment_witness :
  let w := Shared.set_shm <["u" := 4]> Shared.empty_world in
  "u" ∈ dom (Shared.shm w) /\
  exists s', Shared.SharedMemoryBigMatrix_connect Shared.no_faults "u" 2 2 1 false
               (Shared.MkState Shared.new_object Shared.empty_world)
             = Shared.Throw s'.
Proof.
  cbv zeta. split.
  - pose (s := Shared.MkState Shared.new_object
                 (Shared.set_shm <["u" := 4]> Shared.empty_world)).
    pose (r := Shared.SharedMemoryBigMatrix_connect Shared.no_faults
                 "u" 2 2 1 false s).
    apply (proj1 (connect_needs_every_segment Shared.no_faults "u" 2 2 1 false
                    s eq_refl)
             true (match r with Shared.Ok _ s' => s' | _ => s end)).
    + vm_compute. reflexivity.
    + apply list_elem_of_singleton. reflexivity.
  - apply (proj2 (connect_needs_every_segment Shared.no_faults "u" 2 2 1 false
                    (Shared.MkState Shared.new_object Shared.empty_world)
                    eq_refl)) with "u".
    + apply not_elem_of_empty.
    + reflexivity.
    + apply list_elem_of_singleton. reflexivity.
    + cbn. rewrite dom_empty_L. apply not_elem_of_empty.
Defined.

(** ** create *)

Section Create.
Import Shared.
Variable env : Env.

Lemma column_name_inj u i j : column_name u i = column_name u j -> i = j.
Proof.
  unfold column_name, ttos. intros H.
  apply String.app_inj, String.app_inj in H. by apply pretty_Z_inj in H.
Qed.

(** Column [k] cannot be created: its name is taken, or the platform
    refuses one of the three steps. *)
Definition column_fails (u : string) (k : Z) (w : World) : Prop :=
  column_name u k ∈ dom (shm w) \/ shm_fault env (column_name u k) <> NoFault.

(** It is the creation of the object itself that fails. *)
Definition fails_at_open (u : string) (k : Z) (w : World) : Prop :=
  column_name u k ∈ dom (shm w) \/ shm_fault env (column_name u k) = FailOpen.

Definition column_free (u : string) (j : Z) (w : World) : Prop :=
  (column_name u j ∉ dom (shm w)) /\ shm_fault env (column_name u j) = NoFault.

(** The handler of [CreateSharedSepMatrix]: the segments of the columns
    before [k] are removed and nothing else is. *)
Lemma remove_created u k s :
  exists m',
    for_each (upto k) (fun j => shm_remove (column_name u j)) s
    = Ok tt (MkState (this s) (set_shm (fun _ => m') (world s))) /\
    (forall j, 0 <= j < k -> m' !! column_name u j = None) /\
    (forall x, (forall j, 0 <= j < k -> x <> column_name u j) ->
               m' !! x = shm (world s) !! x).
Proof.
  rewrite (for_each_world _ _ (fun j => set_shm (delete (column_name u j))))
    by (intros; apply shm_remove_eq).
  rewrite foldl_set_shm. eexists. split; [reflexivity|]. split.
  - intros j Hj. rewrite lookup_foldl_delete, decide_True; [done|].
    apply list_elem_of_fmap. exists j. split; [done|].
    apply elem_of_seqZ. lia.
  - intros x Hx. rewrite lookup_foldl_delete, decide_False; [done|].
    intros (j & -> & Hj)%list_elem_of_fmap. apply elem_of_seqZ in Hj.
    eapply Hx; [|done]. lia.
Qed.

Lemma CreateSharedSepMatrix_loop_fails sz u nrow k n : forall i0 pMat s,
  0 <= i0 <= k -> k < i0 + Z.of_nat n ->
  (forall j, i0 <= j < k -> column_free u j (world s)) ->
  column_fails u k (world s) ->
  (k < Z.of_nat (length (_dataRegionPtrs (this s)))) ->
  exists regs m',
    CreateSharedSepMatrix_loop env sz u nrow (seqZ i0 (Z.of_nat n)) pMat s =
      Ok None (MkState (set_dataRegionPtrs (fun _ => regs) (this s))
                       (set_shm (fun _ => m') (world s))) /\
    (forall j, 0 <= j < k -> m' !! column_name u j = None) /\
    (fails_at_open u k (world s) ->
     forall x, (forall j, 0 <= j < k -> x <> column_name u j) ->
               m' !! x = shm (world s) !! x).
Proof.
  induction n as [|n IH]; intros i0 pMat s Hi0 Hk Hfree Hfail Hlen; [lia|].
  rewrite Nat2Z.inj_succ, seqZ_cons by lia.
  replace (Z.pred (Z.succ (Z.of_nat n))) with (Z.of_nat n) by lia.
  cbn [CreateSharedSepMatrix_loop]. mred.
  destruct (Z.eq_dec i0 k) as [->|Hne].
  - (* the failing column: every path through the body ends in the handler *)
    rewrite shm_create_only_eq.
    destruct (bool_decide_reflect (column_name u k ∈ dom (shm (world s))))
      as [Hin|Hout]; cbn [orb].
    { destruct (remove_created u k s) as (m' & Hrun & H1 & H2).
      mred. rewrite Hrun. mred. destruct s as [o w].
      exists (_dataRegionPtrs o), m'.
      split; [by destruct o|]. split; [done|]. intros _. apply H2. }
    destruct (shm_fault env (column_name u k)) eqn:Hf; cbn [fault_eqb].
    + destruct Hfail as [?|?]; done.
    + destruct (remove_created u k s) as (m' & Hrun & H1 & H2).
      mred. rewrite Hrun. mred. destruct s as [o w].
      exists (_dataRegionPtrs o), m'.
      split; [by destruct o|]. split; [done|]. intros _. apply H2.
    + mred. rewrite shm_truncate_eq, Hf. cbn [fault_eqb]. mred.
      match goal with |- context [for_each _ _ ?s0] =>
        destruct (remove_created u k s0) as (m' & Hrun & H1 & H2) end.
      rewrite Hrun. mrun. destruct s as [o w].
      exists (_dataRegionPtrs o), m'.
      wsimpl. split; [by destruct o|]. split; [done|].
      intros [?|?]; [done|congruence].
    + mred. rewrite shm_truncate_eq, Hf. cbn [fault_eqb]. mred.
      rewrite map_region_eq, Hf. cbn [fault_eqb]. mred.
      match goal with |- context [for_each _ _ ?s0] =>
        destruct (remove_created u k s0) as (m' & Hrun & H1 & H2) end.
      rewrite Hrun. mrun. destruct s as [o w].
      exists (_dataRegionPtrs o), m'.
      wsimpl. split; [by destruct o|]. split; [done|].
      intros [?|?]; [done|congruence].
  - (* a column before it: created, sized and mapped *)
    destruct (Hfree i0) as [Hout Hnf]; [lia|].
    rewrite shm_create_only_eq.
    rewrite bool_decide_eq_false_2 by done. rewrite Hnf. cbn [orb fault_eqb].
    mred. rewrite shm_truncate_eq, Hnf. cbn [fault_eqb]. mred.
    rewrite map_region_eq, Hnf. cbn [fault_eqb]. mrun.
    rewrite assign_region_eq. wsimpl.
    destruct (Z.leb_spec 0 i0); [|lia]. destruct (Z.ltb_spec i0 (Z.of_nat (length (_dataRegionPtrs (this s))))); [|lia].
    cbn [andb]. mrun. rewrite region_address_eq. wsimpl.
    rewrite list_lookup_insert_eq by lia. mrun.
    match goal with |- context [CreateSharedSepMatrix_loop _ _ _ _ _ ?p ?s1] =>
      destruct (IH (Z.succ i0) p s1) as (regs & m' & -> & H1 & H2) end.
    + lia.
    + lia.
    + intros j Hj. destruct (Hfree j) as [Hj1 Hj2]; [lia|]. split; [|done].
      wsimpl. rewrite !dom_insert_L.
      assert (column_name u j <> column_name u i0)
        by (intros Heq%column_name_inj; lia).
      set_solver.
    + destruct Hfail as [Hin|Hf]; [left|by right].
      wsimpl. rewrite !dom_insert_L. set_solver.
    + wsimpl. rewrite length_insert. lia.
    + exists regs, m'. split; [done|]. split; [done|].
      intros Hopen x Hx. rewrite H2.
      * wsimpl. rewrite !lookup_insert_ne; [done|..];
          intros <-; eapply (Hx i0); (lia || done).
      * destruct Hopen as [Hin|Hf]; [left|by right].
        wsimpl. rewrite !dom_insert_L. set_solver.
      * done.
Qed.

Lemma create_uuid_eq u s :
  create_uuid_mutex ∉ held (world s) ->
  create_uuid u s =
  Ok true (MkState (set_uuid u (this s))
    (set_held (fun h => h ∖ {[create_uuid_mutex]})
       (set_named_mutexes (fun m => m ∖ {[create_uuid_mutex]})
          (set_held (fun h => h ∖ {[create_uuid_mutex]})
             (set_held (union {[create_uuid_mutex]})
                (set_named_mutexes (union {[create_uuid_mutex]}) (world s))))))).
Proof.
  intros Hfree. unfold create_uuid. mred. rewrite mutex_lock_eq. wsimpl.
  rewrite bool_decide_eq_false_2 by done. by mrun.
Qed.

Lemma length_resize {A} n (l : list (option A)) :
  length (resize n l) = Z.to_nat n.
Proof.
  unfold resize. rewrite length_app, length_take, length_replicate. lia.
Qed.

Lemma SharedMemoryBigMatrix_create_sep_fails u nrow ncol t k s :
  valid_type t = true ->
  0 <= k < ncol ->
  create_uuid_mutex ∉ held (world s) ->
  counter_mutex_name u ∉ held (world s) ->
  (forall j, 0 <= j < k -> column_free u j (world s)) ->
  column_fails u k (world s) ->
  exists s',
    SharedMemoryBigMatrix_create env u nrow ncol t true s = Ok false s' /\
    (forall j, 0 <= j < k -> shm (world s') !! column_name u j = None) /\
    (fails_at_open u k (world s) ->
     forall x, (forall j, 0 <= j < k -> x <> column_name u j) ->
               shm (world s') !! x = shm (world s) !! x).
Proof.
  intros Ht Hk Hfree1 Hfree2 Hfree Hfail.
  unfold SharedMemoryBigMatrix_create. mred.
  rewrite create_uuid_eq by done. mrun.
  rewrite mutex_lock_eq. wsimpl.
  rewrite bool_decide_eq_false_2 by set_solver. mrun.
  unfold assign_matrix. rewrite Ht. unfold CreateSharedSepMatrix. mrun.
  unfold upto.
  replace (seqZ 0 ncol) with (seqZ 0 (Z.of_nat (Z.to_nat ncol)))
    by (f_equal; lia).
  match goal with |- context [CreateSharedSepMatrix_loop _ _ _ _ _ ?p ?s1] =>
    destruct (CreateSharedSepMatrix_loop_fails t u nrow k (Z.to_nat ncol) 0 p s1)
      as (regs & m' & -> & H1 & H2) end; wsimpl; try done; try lia.
  { rewrite length_resize. lia. }
  mrun. eexists. split; [reflexivity|]. wsimpl. split; [done|].
  intros Hopen x Hx. by apply H2.
Qed.

End Create.

(** C3: a separated shared [create] of [ncol] columns, of a type among
    the four, on mutexes that are free.  The columns before [k] can be
    created (their names are free and the platform refuses nothing) and
    column [k] cannot (its name is taken, or the platform refuses to
    create, size or map it).  Then [create] returns [false] and no segment
    of a column before [k] exists any more; and when it is the creation
    of the object of column [k] itself that fails, every other name is as
    it was before the call, so that an identity none of whose segments
    existed has none afterwards. *)
Theorem create_failure_removes_earlier_segments env u nrow ncol t k s :
  valid_type t = true ->
  0 <= k < ncol ->
  Shared.create_uuid_mutex ∉ Shared.held (Shared.world s) ->
  Shared.counter_mutex_name u ∉ Shared.held (Shared.world s) ->
  (forall j, 0 <= j < k -> column_free env u j (Shared.world s)) ->
  column_fails env u k (Shared.world s) ->
  exists s',
    Shared.SharedMemoryBigMatrix_create env u nrow ncol t true s
      = Shared.Ok false s' /\
    (forall j, 0 <= j < k ->
       Shared.column_name u j ∉ dom (Shared.shm (Shared.world s'))) /\
    (fails_at_open env u k (Shared.world s) ->
     (forall j, 0 <= j < ncol ->
        Shared.column_name u j ∉ dom (Shared.shm (Shared.world s))) ->
     forall j, 0 <= j < ncol ->
       Shared.column_name u j ∉ dom (Shared.shm (Shared.world s'))).
Proof.
  intros Ht Hk Hf1 Hf2 Hfree Hfail.
  destruct (SharedMemoryBigMatrix_create_sep_fails env u nrow ncol t k s)
    as (s' & Hrun & H1 & H2); try done.
  exists s'. split; [done|]. split.
  - intros j Hj. apply not_elem_of_dom. by apply H1.
  - intros Hopen Hnew j Hj. apply not_elem_of_dom.
    destruct (Z.lt_ge_cases j k) as [Hlt|Hge].
    + apply H1. lia.
    + rewrite H2; [by apply not_elem_of_dom, Hnew|done|].
      intros i Hi Heq%column_name_inj. lia.
Qed.

(** Column 1 of three cannot be created: its name is taken. *)
Definition column_1_taken : Shared.State :=
  Shared.MkState Shared.new_object
    (Shared.set_shm <["u_column_1" := 8]> Shared.empty_world).

Lemma create_failure_removes_earlier_segments_witness :
  exists s',
    Shared.SharedMemoryBigMatrix_create Shared.no_faults "u" 2 3 4 true
      column_1_taken = Shared.Ok false s' /\
    (forall j, 0 <= j < 1 ->
       Shared.column_name "u" j ∉ dom (Shared.shm (Shared.world s'))).
Proof.
  destruct (create_failure_removes_earlier_segments Shared.no_faults
              "u" 2 3 4 1 column_1_taken) as (s' & Hrun & H1 & _).
  - reflexivity.
  - lia.
  - apply not_elem_of_empty.
  - apply not_elem_of_empty.
  - intros j Hj. assert (j = 0) as -> by lia. split; [|reflexivity].
    cbn. rewrite dom_insert_L, dom_empty_L.
    apply not_elem_of_union. split; [|apply not_elem_of_empty].
    apply not_elem_of_singleton. discriminate.
  - left. cbn. rewrite dom_insert_L. apply elem_of_union_l, elem_of_singleton.
    reflexivity.
  - exists s'. split; [exact Hrun|exact H1].
Defined.

(** ** The reference count of a file-backed store *)

(** Closed facts, one conjunct at a time, by evaluation. *)
Ltac conjuncts := repeat match goal with |- _ /\ _ => split end.

(** What a computation leaves behind, whatever its outcome. *)
Definition final {A} (r : Shared.outcome A) (s0 : Shared.State) : Shared.State :=
  match r with
  | Shared.Ok _ s | Shared.Throw s | Shared.Blocks s => s
  | Shared.Undefined => s0
  end.

Definition start : Shared.State :=
  Shared.MkState Shared.new_object Shared.empty_world.

(** A contiguous 3 x 2 matrix of [int], not to be preserved, backed by
    the file [m.bin] in the directory [/tmp/]. *)
Definition in_tmp : Shared.State :=
  final (Shared.FileBackedBigMatrix_create Shared.no_faults "u" "m.bin" "/tmp/"
           3 2 4 false false start) start.

(** A second process attaches to it: its own object, the same world. *)
Definition in_tmp_twice : Shared.State * Shared.State :=
  let second :=
    final (Shared.FileBackedBigMatrix_connect Shared.no_faults "m.binu" "m.bin"
             "/tmp/" 3 2 4 false false
             (Shared.MkState Shared.new_object (Shared.world in_tmp))) start in
  (Shared.MkState (Shared.this in_tmp) (Shared.world second), second).

(** C1 (the code does not decrement): [FileBackedBigMatrix::destroy]
    never calls [_sharedCounter.reset()], the call its shared-memory
    sibling makes.  Whenever it returns, every reference counter reads
    what it read before, the object is still attached to its counter, and
    the locks are gone exactly when the counter read 1. *)
Theorem FileBackedBigMatrix_destroy_keeps_count s b s' :
  Shared.FileBackedBigMatrix_destroy s = Shared.Ok b s' ->
  Shared.counters (Shared.world s') = Shared.counters (Shared.world s) /\
  Shared._sharedCounter (Shared.this s') = Shared._sharedCounter (Shared.this s) /\
  (reading s = 1 ->
     (forall n, n ∈ Shared._mutexPtrs (Shared.this s) ->
                n ∉ Shared.rwlocks (Shared.world s')) /\
     (forall l, Shared._mutexLock (Shared.this s) = Some l ->
                l ∉ Shared.rwlocks (Shared.world s'))) /\
  (reading s <> 1 ->
     Shared.rwlocks (Shared.world s') = Shared.rwlocks (Shared.world s)).
Proof.
  intros H.
  destruct (decide (Shared.counter_mutex_name (Shared._sharedName (Shared.this s))
                    ∈ Shared.held (Shared.world s))) as [Hheld|Hfree].
  - destruct (FileBackedBigMatrix_destroy_blocks s Hheld) as [s1 Hs1].
    congruence.
  - destruct (FileBackedBigMatrix_destroy_spec s Hfree)
      as (s1 & Hs1 & Hc & Ha & _ & Hone & Hmore).
    rewrite Hs1 in H. injection H as <- <-. auto.
Qed.

Lemma FileBackedBigMatrix_destroy_keeps_count_witness :
  let r := Shared.FileBackedBigMatrix_destroy in_tmp in
  r = Shared.Ok true (final r start) /\
  Shared.counters (Shared.world in_tmp) !! "m.binu_counter" = Some 1 /\
  Shared.counters (Shared.world (final r start)) =
    Shared.counters (Shared.world in_tmp).
Proof.
  cbv zeta. split; [vm_compute; reflexivity|]. split; [vm_compute; reflexivity|].
  apply (FileBackedBigMatrix_destroy_keeps_count in_tmp true
           (final (Shared.FileBackedBigMatrix_destroy in_tmp)
              start)).
  vm_compute. reflexivity.
Defined.

(** With two holders the count stays at 2 through both [destroy] calls:
    the locks of the store are never removed. *)
Lemma two_holders_never_release :
  let first := in_tmp_twice.1 in
  let second := in_tmp_twice.2 in
  let after1 :=
    final (Shared.FileBackedBigMatrix_destroy first) start in
  let after2 :=
    final (Shared.FileBackedBigMatrix_destroy
             (Shared.MkState (Shared.this second) (Shared.world after1))) start in
  Shared.counters (Shared.world first) !! "m.binu_counter" = Some 2 /\
  Shared.counters (Shared.world after2) !! "m.binu_counter" = Some 2 /\
  Shared.rwlocks (Shared.world after2) = Shared.rwlocks (Shared.world first) /\
  "m.binu_mutex_lock" ∈ Shared.rwlocks (Shared.world after2).
Proof.
  cbv zeta. conjuncts; vm_compute; reflexivity.
Qed.

(** With the shared-memory store the same history ends at 0 and with the
    segment and the locks removed. *)
Lemma shared_memory_two_holders_release :
  let first :=
    final (Shared.SharedMemoryBigMatrix_create Shared.no_faults "u" 3 2 4 false
             start) start in
  let second :=
    final (Shared.SharedMemoryBigMatrix_connect Shared.no_faults "u" 3 2 4 false
             (Shared.MkState Shared.new_object (Shared.world first))) start in
  let after1 :=
    final (Shared.SharedMemoryBigMatrix_destroy
             (Shared.MkState (Shared.this first) (Shared.world second))) start in
  let after2 :=
    final (Shared.SharedMemoryBigMatrix_destroy
             (Shared.MkState (Shared.this second) (Shared.world after1))) start in
  Shared.counters (Shared.world first) !! "u_counter" = Some 1 /\
  Shared.counters (Shared.world second) !! "u_counter" = Some 2 /\
  Shared.counters (Shared.world after1) !! "u_counter" = Some 1 /\
  Shared.shm (Shared.world after1) = Shared.shm (Shared.world first) /\
  Shared.rwlocks (Shared.world after1) = Shared.rwlocks (Shared.world first) /\
  Shared.counters (Shared.world after2) !! "u_counter" = Some 0 /\
  Shared.shm (Shared.world after2) = ∅ /\
  Shared.rwlocks (Shared.world after2) = ∅.
Proof. cbv zeta. conjuncts; vm_compute; reflexivity. Qed.

(** ** The files of a file-backed store *)

(** C7 (the code unlinks the wrong path): the file was created as
    [filePath + fileName], here [/tmp/m.bin]; the object keeps [fileName]
    only, and [destroy] unlinks that.  The store is not to be preserved
    and [destroy] runs at a count of 1, yet the backing file is still on
    disk afterwards. *)
Theorem destroy_leaves_file_in_directory :
  let r := Shared.FileBackedBigMatrix_destroy in_tmp in
  Shared.backing_files "m.bin" "/tmp/" 2 false = ["/tmp/m.bin"] /\
  Shared.files (Shared.world in_tmp) !! "/tmp/m.bin" = Some 25 /\
  Shared._preserve (Shared.this in_tmp) = false /\
  reading in_tmp = 1 /\
  unlinked (Shared.this in_tmp) = ["m.bin"] /\
  r = Shared.Ok true (final r start) /\
  Shared.files (Shared.world (final r start)) !! "/tmp/m.bin" = Some 25.
Proof. cbv zeta. conjuncts; vm_compute; reflexivity. Qed.

(** What holds of C7 in general: a store to be preserved keeps all its
    files, and one not to be preserved loses, at a count of 1, the files
    named [fileName] (or [fileName_column_i]) without the directory. *)
Lemma FileBackedBigMatrix_destroy_files s b s' :
  Shared.FileBackedBigMatrix_destroy s = Shared.Ok b s' ->
  forall n,
    Shared.files (Shared.world s') !! n =
    if (reading s =? 1) && negb (Shared._preserve (Shared.this s)) &&
       bool_decide (n ∈ unlinked (Shared.this s))
    then None else Shared.files (Shared.world s) !! n.
Proof.
  intros H.
  destruct (decide (Shared.counter_mutex_name (Shared._sharedName (Shared.this s))
                    ∈ Shared.held (Shared.world s))) as [Hheld|Hfree].
  - destruct (FileBackedBigMatrix_destroy_blocks s Hheld) as [s1 Hs1].
    congruence.
  - destruct (FileBackedBigMatrix_destroy_spec s Hfree)
      as (s1 & Hs1 & _ & _ & Hfiles & _).
    rewrite Hs1 in H. injection H as <- <-. exact Hfiles.
Qed.

(** In the current directory ([filePath] empty) the file does go. *)
Lemma destroy_removes_file_in_cwd :
  let s := final (Shared.FileBackedBigMatrix_create Shared.no_faults "u" "m.bin" ""
                    3 2 4 false false start) start in
  let r := Shared.FileBackedBigMatrix_destroy s in
  Shared.files (Shared.world s) !! "m.bin" = Some 25 /\
  r = Shared.Ok true (final r start) /\
  Shared.files (Shared.world (final r start)) = ∅.
Proof. cbv zeta. conjuncts; vm_compute; reflexivity. Qed.

(** * More on the shared stores *)

Section Frames.
Import Shared.
Variable env : Env.

(** Whatever way the loop of [ConnectSharedSepMatrix] ends, the world is
    as it was: it only opens and maps. *)
Lemma ConnectSharedSepMatrix_loop_world uuid l : forall pMat s,
  match ConnectSharedSepMatrix_loop env uuid l pMat s with
  | Ok _ s' | Throw s' | Blocks s' => world s' = world s
  | Undefined => True
  end.
Proof.
  induction l as [|i l IH]; intros pMat s; cbn [ConnectSharedSepMatrix_loop].
  - by mred.
  - mred. rewrite shm_open_only_eq.
    destruct (_ && _); [|done]. mred. rewrite map_region_eq.
    destruct (fault_eqb _ _); [done|]. mrun. rewrite region_address_eq. wsimpl.
    destruct (_ !! _) as [[a|]|]; [|done..].
    match goal with |- context [ConnectSharedSepMatrix_loop _ _ _ ?p ?s1] =>
      specialize (IH p s1) end.
    by destruct (ConnectSharedSepMatrix_loop _ _ _ _ _).
Qed.


End Frames.

Section ConnectMore.
Import Shared.
Variable env : Env.

(** The state in which a [connect] that throws leaves the world. *)
Lemma SharedMemoryBigMatrix_connect_Throw_state uuid r c t sep s s' :
  SharedMemoryBigMatrix_connect env uuid r c t sep s = Throw s' ->
  counter_mutex_name uuid ∈ held (world s') /\
  counter_mutex_name uuid ∈ named_mutexes (world s') /\
  counters (world s') =
    <[counter_name uuid := count (world s) (counter_name uuid) + 1]>
      (counters (world s)) /\
  shm (world s') = shm (world s) /\
  rwlocks (world s') = rwlocks (world s).
Proof.
  unfold SharedMemoryBigMatrix_connect. mred.
  rewrite mutex_lock_eq. wsimpl. destruct (bool_decide _); [done|]. mrun.
  unfold assign_matrix.
  destruct sep; destruct (valid_type t); mrun.
  - unfold ConnectSharedSepMatrix. mred.
    match goal with |- context [ConnectSharedSepMatrix_loop _ _ _ ?p ?s1] =>
      pose proof (ConnectSharedSepMatrix_loop_world env uuid (upto c) p s1) as Hw;
      destruct (ConnectSharedSepMatrix_loop env uuid (upto c) p s1)
        as [pMat s2|s2|s2|] end; try done.
    + destruct s2 as [o2 w2]. wsimpl. subst w2. mrun.
      rewrite CreateMutexes_eq. by mrun.
    + intros [= <-]. rewrite Hw. wsimpl. repeat split; try done; set_solver.
  - rewrite CreateMutexes_eq. by mrun.
  - unfold ConnectSharedMatrix. mred. rewrite shm_open_only_eq. wsimpl.
    destruct (_ && _).
    + mred. rewrite map_region_eq. destruct (fault_eqb _ _).
      * intros [= <-]. wsimpl. repeat split; try done; set_solver.
      * mrun. rewrite region_address_eq. wsimpl.
        destruct (_ !! _) as [[a|]|]; [|done..]. mrun.
        rewrite CreateMutexes_eq. by mrun.
    + intros [= <-]. wsimpl. repeat split; try done; set_solver.
  - rewrite CreateMutexes_eq. by mrun.
Qed.

Lemma SharedMemoryBigMatrix_connect_Blocks uuid r c t sep s :
  counter_mutex_name uuid ∈ held (world s) ->
  exists s', SharedMemoryBigMatrix_connect env uuid r c t sep s = Blocks s'.
Proof.
  intros Hheld. unfold SharedMemoryBigMatrix_connect. mred.
  rewrite mutex_lock_eq. wsimpl. rewrite bool_decide_eq_true_2 by done. eauto.
Qed.

Lemma SharedMemoryBigMatrix_destroy_Blocks s :
  counter_mutex_name (_sharedName (this s)) ∈ held (world s) ->
  exists s', SharedMemoryBigMatrix_destroy s = Blocks s'.
Proof.
  intros Hheld. unfold SharedMemoryBigMatrix_destroy. mred.
  rewrite mutex_lock_eq. wsimpl. rewrite bool_decide_eq_true_2 by done. eauto.
Qed.

End ConnectMore.

Section CreateMore.
Import Shared.
Variable env : Env.






(** A contiguous [create] that fails removes the segment of that name,
    were it its own or somebody else's. *)
Lemma SharedMemoryBigMatrix_create_contiguous_fails u nrow ncol t s :
  valid_type t = true ->
  create_uuid_mutex ∉ held (world s) ->
  counter_mutex_name u ∉ held (world s) ->
  u ∈ dom (shm (world s)) \/ shm_fault env u <> NoFault ->
  exists s',
    SharedMemoryBigMatrix_create env u nrow ncol t false s = Ok false s' /\
    shm (world s') = delete u (shm (world s)) /\
    counters (world s') =
      <[counter_name u := count (world s) (counter_name u)]> (counters (world s)) /\
    rwlocks (world s') = rwlocks (world s) /\
    _matrix (this s') = None.
Proof.
  intros Ht Hfree1 Hfree2 Hfail.
  unfold SharedMemoryBigMatrix_create. mred.
  rewrite create_uuid_eq by done. mrun.
  rewrite mutex_lock_eq. wsimpl.
  rewrite bool_decide_eq_false_2 by set_solver. mrun.
  unfold assign_matrix. rewrite Ht. unfold CreateSharedMatrix. mrun.
  rewrite shm_create_only_eq. wsimpl.
  assert (forall v, <[counter_name u := v - 1]>
            (<[counter_name u := v]> (counters (world s)))
          = <[counter_name u := v - 1]> (counters (world s))) as Hins
    by (intros; apply insert_insert_eq).
  destruct (bool_decide_reflect (u ∈ dom (shm (world s)))) as [Hin|Hout];
    cbn [orb].
  { mrun. rewrite lookup_insert_eq. cbn [default]. eexists.
    split; [reflexivity|]. wsimpl. rewrite Hins.
    repeat split; try done. by rewrite Z.add_simpl_r. }
  destruct (shm_fault env u) eqn:Hf; cbn [fault_eqb].
  - destruct Hfail; done.
  - mrun. rewrite lookup_insert_eq. cbn [default]. eexists.
    split; [reflexivity|]. wsimpl. rewrite Hins.
    repeat split; try done. by rewrite Z.add_simpl_r.
  - mred. rewrite shm_truncate_eq, Hf. cbn [fault_eqb]. mrun.
    rewrite lookup_insert_eq. cbn [default]. eexists.
    split; [reflexivity|]. wsimpl. rewrite Hins, delete_insert_eq.
    repeat split; try done. by rewrite Z.add_simpl_r.
  - mred. rewrite shm_truncate_eq, Hf. cbn [fault_eqb]. mred.
    rewrite map_region_eq, Hf. cbn [fault_eqb]. mrun.
    rewrite lookup_insert_eq. cbn [default]. eexists.
    split; [reflexivity|]. wsimpl. rewrite Hins, !delete_insert_eq.
    repeat split; try done. by rewrite Z.add_simpl_r.
Qed.

End CreateMore.

Section FileBackedCreate.
Import Shared.
Variable env : Env.

Definition column_file (fileName filePath : string) (i : Z) : string :=
  filePath +:+ column_name fileName i.

Lemma column_file_inj fileName filePath i j :
  column_file fileName filePath i = column_file fileName filePath j -> i = j.
Proof.
  unfold column_file. intros H. apply String.app_inj in H.
  by apply column_name_inj in H.
Qed.

(** The loop of [CreateFileBackedSepMatrix] only ever writes files; it
    stops at the first one it cannot open. *)
Lemma CreateFileBackedSepMatrix_loop_frame sz fileName filePath nrow l : forall s,
  exists b f',
    CreateFileBackedSepMatrix_loop env sz fileName filePath nrow l s =
      Ok b (MkState (this s) (set_files (fun _ => f') (world s))) /\
    (b = true <-> forall i, i ∈ l -> file_fault env (column_file fileName filePath i) = false) /\
    (b = true ->
       (forall i, i ∈ l ->
          f' !! column_file fileName filePath i = Some (nrow * sz + 1)) /\
       (forall x, (forall i, i ∈ l -> x <> column_file fileName filePath i) ->
          f' !! x = files (world s) !! x)).
Proof.
  induction l as [|i l IH]; intros s; cbn [CreateFileBackedSepMatrix_loop].
  - mred. exists true, (files (world s)). split; [by destruct s as [? []]|].
    split; [split; [intros _ i Hi; by apply elem_of_nil in Hi|done]|].
    intros _. split; [intros i Hi; by apply elem_of_nil in Hi|done].
  - mred. rewrite make_file_eq. fold (column_file fileName filePath i).
    destruct (file_fault env (column_file fileName filePath i)) eqn:Hf.
    + mred. exists false, (files (world s)). split; [by destruct s as [? []]|].
      split; [|done]. split; [done|]. intros H.
      rewrite H in Hf by set_solver. done.
    + mred.
      match goal with |- context [CreateFileBackedSepMatrix_loop _ _ _ _ _ _ ?s1] =>
        destruct (IH s1) as (b & f' & -> & Hb & Hf') end.
      exists b, f'. split; [done|]. split.
      * rewrite Hb. split.
        -- intros H j [->|Hj]%elem_of_cons; auto.
        -- intros H j Hj. apply H. set_solver.
      * intros ->. destruct (Hf' eq_refl) as [H1 H2]. split.
        -- intros j [->|Hj]%elem_of_cons; [|by apply H1].
           destruct (decide (i ∈ l)) as [Hin|Hout]; [by apply H1|].
           rewrite H2; wsimpl; [by rewrite lookup_insert_eq|].
           intros k Hk ->%column_file_inj. done.
        -- intros x Hx. rewrite H2.
           ++ wsimpl. rewrite lookup_insert_ne; [done|].
              intros <-. eapply Hx; [|done]. set_solver.
           ++ intros k Hk. apply Hx. set_solver.
Qed.

(** The loop of [ConnectFileBackedSepMatrix] leaves the world alone and
    changes the regions of the object only. *)
Lemma ConnectFileBackedSepMatrix_loop_frame sharedName filePath l : forall pMat s,
  match ConnectFileBackedSepMatrix_loop env sharedName filePath l pMat s with
  | Ok _ s' | Throw s' | Blocks s' =>
      exists regs, s' = MkState (set_dataRegionPtrs (fun _ => regs) (this s)) (world s)
  | Undefined => True
  end.
Proof.
  induction l as [|i l IH]; intros pMat s;
    cbn [ConnectFileBackedSepMatrix_loop].
  - mred. exists (_dataRegionPtrs (this s)). by destruct s as [[] ?].
  - mred. rewrite file_mapping_eq.
    destruct (bool_decide _);
      [|exists (_dataRegionPtrs (this s)); by destruct s as [[] ?]].
    mred. rewrite map_region_eq.
    destruct (fault_eqb _ _);
      [exists (_dataRegionPtrs (this s)); by destruct s as [[] ?]|].
    mrun. rewrite assign_region_eq. wsimpl.
    destruct (_ && _); [|done]. mrun. rewrite region_address_eq. wsimpl.
    destruct (_ !! _) as [[a|]|]; [|done..].
    match goal with |- context [ConnectFileBackedSepMatrix_loop _ _ _ _ ?p ?s1] =>
      specialize (IH p s1) end.
    destruct (ConnectFileBackedSepMatrix_loop _ _ _ _ _) as [r s'|s'|s'|];
      try done; destruct IH as [regs ->]; by exists regs.
Qed.

(** A [create] that returns [false] has returned from the middle: the
    mutex it took is still locked and the counter it set up still counts
    it, while no lock of the store was made. *)
Lemma FileBackedBigMatrix_create_false u fileName filePath r c t sep p s s' :
  FileBackedBigMatrix_create env u fileName filePath r c t sep p s = Ok false s' ->
  counter_mutex_name (fileName +:+ u) ∈ held (world s') /\
  _sharedName (this s') = fileName +:+ u /\
  counters (world s') =
    <[counter_name (fileName +:+ u) :=
        count (world s) (counter_name (fileName +:+ u)) + 1]>
      (counters (world s)) /\
  rwlocks (world s') = rwlocks (world s).
Proof.
  unfold FileBackedBigMatrix_create. mred. unfold create_uuid. mred.
  rewrite mutex_lock_eq. wsimpl. destruct (bool_decide _); [done|]. mrun.
  rewrite mutex_lock_eq. wsimpl. destruct (bool_decide _); [done|]. mrun.
  unfold assign_matrix.
  destruct (valid_type t); destruct sep; mrun.
  - unfold CreateFileBackedSepMatrix. mred.
    match goal with |- context [CreateFileBackedSepMatrix_loop _ _ _ _ _ _ ?s1] =>
      destruct (CreateFileBackedSepMatrix_loop_frame t fileName filePath r (upto c) s1)
        as (b & f' & -> & _ & _) end.
    destruct b; mrun.
    + unfold ConnectFileBackedSepMatrix. mrun.
      match goal with |- context [ConnectFileBackedSepMatrix_loop _ _ _ _ ?q ?s1] =>
        pose proof (ConnectFileBackedSepMatrix_loop_frame fileName filePath (upto c) q s1) as Hfr;
        destruct (ConnectFileBackedSepMatrix_loop env fileName filePath (upto c) q s1)
          as [pm s2|s2|s2|] end; try done.
      destruct Hfr as [regs ->]. mrun. rewrite CreateMutexes_eq. by mrun.
    + intros [= <-]. wsimpl. repeat split; try done; set_solver.
  - unfold CreateFileBackedMatrix. mred. rewrite make_file_eq.
    destruct (file_fault env _); mrun.
    + intros [= <-]. wsimpl. repeat split; try done; set_solver.
    + unfold ConnectFileBackedMatrix. mred. rewrite file_mapping_eq. wsimpl.
      destruct (bool_decide _); [|done]. mred. rewrite map_region_eq.
      destruct (fault_eqb _ _); [done|]. mrun. rewrite region_address_eq. wsimpl.
      destruct (_ !! _) as [[a|]|]; [|done..]. mrun.
      rewrite CreateMutexes_eq. by mrun.
  - destruct (_matrix (this s)) eqn:Hm; mrun; rewrite ?Hm; mrun.
    + rewrite CreateMutexes_eq. by mrun.
    + intros [= <-]. wsimpl. repeat split; try done; set_solver.
  - destruct (_matrix (this s)) eqn:Hm; mrun; rewrite ?Hm; mrun.
    + rewrite CreateMutexes_eq. by mrun.
    + intros [= <-]. wsimpl. repeat split; try done; set_solver.
Qed.

End FileBackedCreate.

Section FileBackedSucceeds.
Import Shared.
Variable env : Env.





End FileBackedSucceeds.

(** * Further properties of the stores ([BigMatrix.cpp]) *)

(** X1: [SharedMemoryBigMatrix::destroy], called on an object attached to
    the counter [cn] while the counter mutex of its name is free, returns
    [true] and decrements that counter by exactly 1, touching no other
    counter and no file.  When the counter read 1 before the call, no
    data segment of the store and none of its locks exists afterwards;
    when it read anything else, segments and locks are all as they
    were. *)
Theorem shared_destroy_releases_with_last_holder s cn :
  Shared.counter_mutex_name (Shared._sharedName (Shared.this s))
    ∉ Shared.held (Shared.world s) ->
  Shared._sharedCounter (Shared.this s) = Some cn ->
  exists s',
    Shared.SharedMemoryBigMatrix_destroy s = Shared.Ok true s' /\
    Shared.count (Shared.world s') cn = Shared.count (Shared.world s) cn - 1 /\
    (forall n, n <> cn ->
       Shared.counters (Shared.world s') !! n = Shared.counters (Shared.world s) !! n) /\
    Shared.files (Shared.world s') = Shared.files (Shared.world s) /\
    (Shared.count (Shared.world s) cn = 1 ->
       (forall n, n ∈ Shared.segment_names (Shared._uuid (Shared.this s))
                        (Shared._ncol (Shared.this s))
                        (Shared._sepCols (Shared.this s)) ->
                  n ∉ dom (Shared.shm (Shared.world s'))) /\
       (forall n, n ∈ Shared._mutexPtrs (Shared.this s) ->
                  n ∉ Shared.rwlocks (Shared.world s')) /\
       (forall l, Shared._mutexLock (Shared.this s) = Some l ->
                  l ∉ Shared.rwlocks (Shared.world s'))) /\
    (Shared.count (Shared.world s) cn <> 1 ->
       Shared.shm (Shared.world s') = Shared.shm (Shared.world s) /\
       Shared.rwlocks (Shared.world s') = Shared.rwlocks (Shared.world s)).
Proof.
  intros Hfree Hcn.
  destruct (SharedMemoryBigMatrix_destroy_spec s cn Hfree Hcn)
    as (s' & Hrun & Hc & Hf & Hone & Hmore).
  exists s'. split; [done|]. split; [|split; [|split; [done|split; [|done]]]].
  - unfold Shared.count at 1. rewrite Hc, lookup_insert_eq. reflexivity.
  - intros n Hn. rewrite Hc. by apply lookup_insert_ne.
  - intros H1. destruct (Hone H1) as (Hs & Hl & Hm). split; [|done].
    intros n Hn. by apply not_elem_of_dom, Hs.
Qed.

Lemma shared_destroy_releases_with_last_holder_witness :
  exists s',
    Shared.SharedMemoryBigMatrix_destroy two_columns = Shared.Ok true s' /\
    Shared.count (Shared.world s') "u_counter" =
      Shared.count (Shared.world two_columns) "u_counter" - 1 /\
    Shared.count (Shared.world two_columns) "u_counter" = 1.
Proof.
  destruct (shared_destroy_releases_with_last_holder two_columns "u_counter")
    as (s' & Hrun & Hc & _).
  - apply not_elem_of_empty.
  - reflexivity.
  - exists s'. split; [exact Hrun|]. split; [exact Hc|reflexivity].
Defined.



(** X3: [SharedMemoryBigMatrix::connect] never returns [false]: whenever
    it returns, it returns [true], the reference counter of the identity
    reads one more than before (a counter that did not exist reads 1), no
    other counter has changed, and no data segment and no file has been
    created, resized or removed. *)
Theorem connect_returns_true_and_counts env uuid r c t sep s b s' :
  Shared.SharedMemoryBigMatrix_connect env uuid r c t sep s = Shared.Ok b s' ->
  b = true /\
  Shared.count (Shared.world s') (Shared.counter_name uuid) =
    Shared.count (Shared.world s) (Shared.counter_name uuid) + 1 /\
  (forall n, n <> Shared.counter_name uuid ->
     Shared.counters (Shared.world s') !! n = Shared.counters (Shared.world s) !! n) /\
  Shared.shm (Shared.world s') = Shared.shm (Shared.world s) /\
  Shared.files (Shared.world s') = Shared.files (Shared.world s).
Proof.
  intros H. apply SharedMemoryBigMatrix_connect_Ok in H
    as (-> & Hc & Hs & Hf & _).
  split; [done|]. split; [|split; [|done]].
  - unfold Shared.count at 1. rewrite Hc, lookup_insert_eq. reflexivity.
  - intros n Hn. rewrite Hc. by apply lookup_insert_ne.
Qed.

Lemma connect_returns_true_and_counts_witness :
  let s := Shared.MkState Shared.new_object (Shared.world two_columns) in
  let r := Shared.SharedMemoryBigMatrix_connect Shared.no_faults "u" 1 2 1 true s in
  Shared.count (Shared.world s) "u_counter" = 1 /\
  Shared.count (Shared.world (final r start)) (Shared.counter_name "u") =
    Shared.count (Shared.world s) (Shared.counter_name "u") + 1.
Proof.
  cbv zeta. split; [reflexivity|].
  pose (s := Shared.MkState Shared.new_object (Shared.world two_columns)).
  apply (connect_returns_true_and_counts Shared.no_faults "u" 1 2 1 true s true
           (final (Shared.SharedMemoryBigMatrix_connect Shared.no_faults
                     "u" 1 2 1 true s) start)).
  vm_compute. reflexivity.
Defined.

(** X4: a [connect] that fails with the exception of an open leaves
    through the exception: the counter mutex it locked stays locked and
    the counter it incremented stays incremented.  From then on every
    [connect] to that identity, and every [SharedMemoryBigMatrix::destroy]
    of an object of that name, waits on the mutex for ever, whatever the
    object it is called on. *)
Theorem failed_connect_keeps_the_mutex env uuid r c t sep s s' :
  Shared.SharedMemoryBigMatrix_connect env uuid r c t sep s = Shared.Throw s' ->
  Shared.counter_mutex_name uuid ∈ Shared.held (Shared.world s') /\
  Shared.count (Shared.world s') (Shared.counter_name uuid) =
    Shared.count (Shared.world s) (Shared.counter_name uuid) + 1 /\
  (forall env' o r' c' t' sep',
     exists s'',
       Shared.SharedMemoryBigMatrix_connect env' uuid r' c' t' sep'
         (Shared.MkState o (Shared.world s')) = Shared.Blocks s'') /\
  (forall o, Shared._sharedName o = uuid ->
     exists s'',
       Shared.SharedMemoryBigMatrix_destroy (Shared.MkState o (Shared.world s'))
       = Shared.Blocks s'').
Proof.
  intros H. apply SharedMemoryBigMatrix_connect_Throw_state in H
    as (Hheld & _ & Hc & _).
  split; [done|]. split; [|split].
  - unfold Shared.count at 1. rewrite Hc, lookup_insert_eq. reflexivity.
  - intros. by apply SharedMemoryBigMatrix_connect_Blocks.
  - intros o Ho. apply SharedMemoryBigMatrix_destroy_Blocks. cbn. by rewrite Ho.
Qed.

Lemma failed_connect_keeps_the_mutex_witness :
  let r := Shared.SharedMemoryBigMatrix_connect Shared.no_faults "u" 2 2 1 false
             start in
  r = Shared.Throw (final r start) /\
  Shared.counter_mutex_name "u" ∈ Shared.held (Shared.world (final r start)) /\
  exists s'',
    Shared.SharedMemoryBigMatrix_connect Shared.no_faults "u" 2 2 1 false
      (Shared.MkState Shared.new_object (Shared.world (final r start)))
    = Shared.Blocks s''.
Proof.
  cbv zeta.
  assert (Shared.SharedMemoryBigMatrix_connect Shared.no_faults "u" 2 2 1 false start
          = Shared.Throw
              (final (Shared.SharedMemoryBigMatrix_connect Shared.no_faults
                        "u" 2 2 1 false start) start)) as Hrun
    by (vm_compute; reflexivity).
  split; [exact Hrun|].
  destruct (failed_connect_keeps_the_mutex _ _ _ _ _ _ _ _ Hrun)
    as (Hheld & _ & Hblocks & _).
  split; [exact Hheld|]. apply Hblocks.
Defined.





(** X7: a contiguous [create] that cannot make its segment returns
    [false] and removes the segment of that name, also when the reason
    was that the name was taken: a segment that existed under the name
    before the call is gone after it.  The counter reads what it read
    before and no lock was made. *)
Theorem failed_contiguous_create_removes_the_name env u nrow ncol t s :
  valid_type t = true ->
  Shared.create_uuid_mutex ∉ Shared.held (Shared.world s) ->
  Shared.counter_mutex_name u ∉ Shared.held (Shared.world s) ->
  u ∈ dom (Shared.shm (Shared.world s)) \/ Shared.shm_fault env u <> Shared.NoFault ->
  exists s',
    Shared.SharedMemoryBigMatrix_create env u nrow ncol t false s
      = Shared.Ok false s' /\
    Shared.shm (Shared.world s') = delete u (Shared.shm (Shared.world s)) /\
    Shared.count (Shared.world s') (Shared.counter_name u) =
      Shared.count (Shared.world s) (Shared.counter_name u) /\
    Shared.rwlocks (Shared.world s') = Shared.rwlocks (Shared.world s).
Proof.
  intros Ht Hf1 Hf2 Hfail.
  destruct (SharedMemoryBigMatrix_create_contiguous_fails env u nrow ncol t s)
    as (s' & Hrun & Hs & Hc & Hl & _); try done.
  exists s'. split; [done|]. split; [done|]. split; [|done].
  unfold Shared.count at 1. rewrite Hc, lookup_insert_eq. reflexivity.
Qed.

Lemma failed_contiguous_create_removes_the_name_witness :
  let s := Shared.MkState Shared.new_object
             (Shared.set_shm <["u" := 4]> Shared.empty_world) in
  exists s',
    Shared.SharedMemoryBigMatrix_create Shared.no_faults "u" 2 2 1 false s
      = Shared.Ok false s' /\
    Shared.shm (Shared.world s) !! "u" = Some 4 /\
    Shared.shm (Shared.world s') = delete "u" (Shared.shm (Shared.world s)).
Proof.
  cbv zeta.
  destruct (failed_contiguous_create_removes_the_name Shared.no_faults "u" 2 2 1
              (Shared.MkState Shared.new_object
                 (Shared.set_shm <["u" := 4]> Shared.empty_world)))
    as (s' & Hrun & Hs & _).
  - reflexivity.
  - apply not_elem_of_empty.
  - apply not_elem_of_empty.
  - left. cbn. rewrite dom_insert_L. apply elem_of_union_l, elem_of_singleton.
    reflexivity.
  - exists s'. split; [exact Hrun|]. split; [reflexivity|exact Hs].
Defined.

(** X8: a [FileBackedBigMatrix::create] that returns [false] (a file it
    could not open, or a type that is none of the four) has left by an
    early [return]: the counter mutex it locked stays locked, the counter
    of the name counts it for good, and no lock of the store was made.
    A [destroy] of that object then waits on the mutex for ever. *)
Theorem failed_file_backed_create_keeps_the_mutex
    env u fileName filePath r c t sep p s s' :
  Shared.FileBackedBigMatrix_create env u fileName filePath r c t sep p s
    = Shared.Ok false s' ->
  Shared.counter_mutex_name (fileName +:+ u) ∈ Shared.held (Shared.world s') /\
  Shared.count (Shared.world s') (Shared.counter_name (fileName +:+ u)) =
    Shared.count (Shared.world s) (Shared.counter_name (fileName +:+ u)) + 1 /\
  Shared.rwlocks (Shared.world s') = Shared.rwlocks (Shared.world s) /\
  exists s'', Shared.FileBackedBigMatrix_destroy s' = Shared.Blocks s''.
Proof.
  intros H. apply FileBackedBigMatrix_create_false in H as (Hheld & Hname & Hc & Hl).
  split; [done|]. split; [|split; [done|]].
  - unfold Shared.count at 1. rewrite Hc, lookup_insert_eq. reflexivity.
  - apply FileBackedBigMatrix_destroy_blocks. by rewrite Hname.
Qed.

(** A platform on which no file can be opened for writing. *)
Definition read_only : Shared.Env :=
  Shared.MkEnv (fun _ => Shared.NoFault) (fun _ => true).

Lemma failed_file_backed_create_keeps_the_mutex_witness :
  let r := Shared.FileBackedBigMatrix_create read_only "u" "m.bin" "/ro/"
             3 2 4 false false start in
  r = Shared.Ok false (final r start) /\
  exists s'', Shared.FileBackedBigMatrix_destroy (final r start) = Shared.Blocks s''.
Proof.
  cbv zeta.
  assert (Shared.FileBackedBigMatrix_create read_only "u" "m.bin" "/ro/"
            3 2 4 false false start
          = Shared.Ok false
              (final (Shared.FileBackedBigMatrix_create read_only "u" "m.bin"
                        "/ro/" 3 2 4 false false start) start)) as Hrun
    by (vm_compute; reflexivity).
  split; [exact Hrun|].
  destruct (failed_file_backed_create_keeps_the_mutex _ _ _ _ _ _ _ _ _ _ _ Hrun)
    as (_ & _ & _ & Hblocks).
  exact Hblocks.
Defined.



(** * LocalBigMatrix::destroy *)

(** Every live block was handed out by [new]: its address is below the
    next one to be handed out. *)
Definition heap_wf (h : Local.Heap) : Prop :=
  forall p, is_Some (Local.live h !! p) -> (p < Local.next h)%nat.

Section LocalDestroy.
Import Local.

Lemma heap_wf_next h : heap_wf h -> live h !! next h = None.
Proof.
  intros Hwf. destruct (live h !! next h) eqn:E; [|done].
  specialize (Hwf (next h)). rewrite E in Hwf.
  assert (next h < next h)%nat by (apply Hwf; eauto). lia.
Qed.


(** What the allocation loop leaves when it succeeds: [n] new blocks at
    consecutive addresses, their addresses appended to the slots of the
    pointer array, and everything else as before. *)
Lemma new_array_inv n sz h p h' :
  new_array n sz h = Some (p, h') ->
  p = next h /\
  h' = MkHeap (<[next h := Block (n * sz) []]> (live h)) (S (next h))
              (avail h - n * sz).
Proof.
  unfold new_array. destruct (fits n sz h); [|discriminate].
  by intros [= <- <-].
Qed.

Lemma alloc_columns_Some n : forall pMat nrow sz h h' bs l,
  alloc_columns n pMat nrow sz h = (Some tt, h') ->
  live h !! pMat = Some (Block bs l) ->
  (pMat < next h)%nat ->
  next h' = (next h + n)%nat /\
  avail h' = avail h - Z.of_nat n * (nrow * sz) /\
  live h' !! pMat = Some (Block bs (l ++ seq (next h) n)) /\
  (forall k, (k < n)%nat ->
     live h' !! (next h + k)%nat = Some (Block (nrow * sz) [])) /\
  (forall q, q <> pMat -> (q < next h \/ next h + n <= q)%nat ->
     live h' !! q = live h !! q).
Proof.
  induction n as [|n IH]; intros pMat nrow sz h h' bs l E Hp Hlt.
  - simpl in E. injection E as <-. rewrite Nat.add_0_r, app_nil_r.
    repeat split; try done; try lia.
  - cbn [alloc_columns] in E.
    destruct (new_array nrow sz h) as [[p h1]|] eqn:En; [|discriminate].
    apply new_array_inv in En as [-> ->].
    set (h2 := store_slot _ _ _) in E.
    assert (live h2 !! pMat = Some (Block bs (l ++ [next h]))) as Hp2.
    { subst h2. unfold store_slot. cbn.
      rewrite lookup_alter_eq, lookup_insert_ne by lia. by rewrite Hp. }
    destruct (IH pMat nrow sz h2 h' bs (l ++ [next h]) E Hp2)
      as (Hn & Ha & Hs & Hk & Hq).
    { subst h2. cbn. lia. }
    subst h2. cbn in Hn, Ha, Hs, Hk, Hq.
    split; [lia|]. split; [lia|]. split; [|split].
    + rewrite Hs, <- app_assoc. reflexivity.
    + intros k Hlt'. destruct k as [|k].
      * rewrite Nat.add_0_r, Hq by lia.
        rewrite lookup_alter_ne, lookup_insert_eq by lia. reflexivity.
      * replace (next h + S k)%nat with (S (next h + k)) by lia.
        apply Hk. lia.
    + intros q Hne Hr. rewrite Hq by lia.
      rewrite lookup_alter_ne, lookup_insert_ne by lia. reflexivity.
Qed.



End LocalDestroy.



(** X11: a matrix with no rows or no columns is never given back.
    [create] allocates for it all the same (an empty block, or the
    pointer array and one empty block for each column) and stores the
    pointer; [destroy] then finds a zero dimension and returns without
    freeing or clearing anything.  For a separated matrix of [ncol]
    columns and no rows, the [8 * ncol] bytes of the pointer array stay
    taken. *)
Theorem local_destroy_skips_empty_matrix this nrow ncol t sep h this1 h1 :
  heap_wf h ->
  valid_type t = true ->
  nrow = 0 \/ ncol = 0 ->
  Local.create this nrow ncol t sep h = (true, this1, h1) ->
  Local.destroy this1 h1 = Some (this1, h1) /\
  Local._matrix this1 = Some (Local.next h) /\
  (Local.next h ∉ dom (Local.live h)) /\
  Local.next h ∈ dom (Local.live h1) /\
  dom (Local.live h) ⊆ dom (Local.live h1) /\
  (sep = true -> 0 <= ncol -> Local.avail h1 = Local.avail h - 8 * ncol).
Proof.
  intros Hwf Ht Hz. unfold Local.create, Local.create_body. rewrite Ht.
  assert (Local.next h ∉ dom (Local.live h)) as Hfresh
    by (apply not_elem_of_dom; by apply heap_wf_next).
  assert ((negb (ncol =? 0) && negb (nrow =? 0)) = false) as Hguard by lia.
  destruct sep.
  - unfold Local.CreateLocalSepColMatrix.
    destruct (Local.new_array ncol 8 h) as [[pMat h0]|] eqn:En; [|discriminate].
    apply new_array_inv in En as [-> ->].
    set (h0 := Local.MkHeap _ _ _).
    destruct (Local.alloc_columns _ _ _ _ h0) as [[[]|] h'] eqn:Ea;
      [|discriminate].
    intros [= <- <-]. unfold Local.destroy. cbn. rewrite Hguard.
    pose proof (alloc_columns_keeps _ _ _ _ _ _ _ Ea) as Hkeep.
    destruct (alloc_columns_Some _ _ _ _ _ _ (ncol * 8) [] Ea)
      as (_ & Ha & _).
    { subst h0. cbn. by rewrite lookup_insert_eq. }
    { subst h0. cbn. lia. }
    subst h0. cbn in Hkeep, Ha. rewrite dom_insert_L in Hkeep.
    repeat split; try done; try set_solver.
    intros _ Hc. rewrite Ha. nia.
  - destruct (Local.new_array (nrow * ncol) t h) as [[p h0]|] eqn:En;
      [|discriminate].
    apply new_array_inv in En as [-> ->].
    intros [= <- <-]. unfold Local.destroy. cbn. rewrite Hguard.
    rewrite dom_insert_L. repeat split; try done; set_solver.
Qed.

Lemma local_destroy_skips_empty_matrix_witness :
  let r := Local.create Local.fresh 0 3 4 true (Local.heap_of 100) in
  r.1.1 = true /\
  Local.destroy r.1.2 r.2 = Some (r.1.2, r.2) /\
  Local.avail r.2 = 100 - 8 * 3.
Proof.
  cbv zeta.
  destruct (local_destroy_skips_empty_matrix Local.fresh 0 3 4 true
              (Local.heap_of 100)
              (Local.create Local.fresh 0 3 4 true (Local.heap_of 100)).1.2
              (Local.create Local.fresh 0 3 4 true (Local.heap_of 100)).2)
    as (Hd & _ & _ & _ & _ & Ha).
  - intros p [b Hb]. cbn in Hb. by rewrite lookup_empty in Hb.
  - reflexivity.
  - by left.
  - vm_compute. reflexivity.
  - split; [reflexivity|]. split; [exact Hd|]. apply Ha; [reflexivity|lia].
Defined.

(** X12: after a [create] that returned [false], [destroy] releases
    nothing: the object's pointer is still the null pointer it was, so
    [destroy] returns at once.  For a separated matrix whose pointer
    array had been granted, that array is therefore still allocated
    after [destroy]. *)
Theorem local_destroy_after_failed_create this nrow ncol t sep h this' h' :
  Local._matrix this = None ->
  Local.create this nrow ncol t sep h = (false, this', h') ->
  Local.destroy this' h' = Some (this', h') /\
  (sep = true -> Local.fits ncol 8 h = true ->
   Local.next h ∈ dom (Local.live h')).
Proof.
  intros Hnull Hc. split.
  - revert Hc. unfold Local.create.
    destruct (Local.create_body nrow ncol t sep h) as [[[p|]|] h1];
      try discriminate.
    intros [= <- <-]. unfold Local.destroy. cbn. by rewrite Hnull.
  - intros -> Hf.
    assert (valid_type t = true) as Ht.
    { destruct (valid_type t) eqn:E; [done|].
      unfold Local.create, Local.create_body in Hc. rewrite E in Hc.
      discriminate. }
    by destruct (create_sep_failure_leaks _ _ _ _ _ _ _ Ht Hf Hc) as [? _].
Qed.

Lemma local_destroy_after_failed_create_witness :
  let r := Local.create Local.fresh 1 2 1 true (Local.heap_of 17) in
  r.1.1 = false /\
  Local.destroy r.1.2 r.2 = Some (r.1.2, r.2) /\
  Local.next (Local.heap_of 17) ∈ dom (Local.live r.2).
Proof.
  cbv zeta.
  destruct (local_destroy_after_failed_create Local.fresh 1 2 1 true
              (Local.heap_of 17)
              (Local.create Local.fresh 1 2 1 true (Local.heap_of 17)).1.2
              (Local.create Local.fresh 1 2 1 true (Local.heap_of 17)).2)
    as [Hd Hl].
  - reflexivity.
  - vm_compute. reflexivity.
  - split; [reflexivity|]. split; [exact Hd|]. apply Hl; reflexivity.
Defined.

(** * Numbers and loops *)

Section Numbers.
Import Elements.

Lemma dlt_of_Z a b : dlt (double_of_Z a) (double_of_Z b) = (a <? b).
Proof.
  unfold dlt, double_of_Z, Qltb, Qle_bool. cbn.
  rewrite !Z.mul_1_r. destruct (Z.ltb_spec a b), (Z.leb_spec b a); try done; lia.
Qed.

Lemma deq_of_Z a b : deq (double_of_Z a) (double_of_Z b) = (a =? b).
Proof.
  unfold deq, double_of_Z, Qeq_bool. cbn. by rewrite !Z.mul_1_r.
Qed.

Lemma int_of_double_of_Z w v :
  int_of_double w (double_of_Z v) = if in_int w v then Some v else None.
Proof. unfold int_of_double, double_of_Z. cbn. by rewrite Z.quot_1_r. Qed.

Lemma index_of_double_of_Z v :
  in_int 64 v = true -> index_of_double (double_of_Z v) = Some v.
Proof. intros H. unfold index_of_double. by rewrite int_of_double_of_Z, H. Qed.

Lemma in_int_64 v : - 2 ^ 63 <= v <= 2 ^ 63 - 1 -> in_int 64 v = true.
Proof. unfold in_int, int_min, int_max. cbn. lia. Qed.

Lemma isna_of_Z v : isna (double_of_Z v) = false.
Proof. reflexivity. Qed.

Lemma wrap_id w v : 0 < w -> in_int w v = true -> wrap w v = v.
Proof.
  intros Hw. unfold in_int, int_min, int_max, wrap. intros H.
  assert (2 ^ w = 2 * 2 ^ (w - 1)) as E.
  { rewrite <- Z.pow_succ_r by lia. f_equal. lia. }
  assert (0 < 2 ^ (w - 1)) by (apply Z.pow_pos_nonneg; lia).
  rewrite Z.mod_small by lia. lia.
Qed.

(** A loop whose body fails at some element fails, when the body succeeds
    on the elements before it. *)
Lemma loop_app {S A} (body : S -> A -> option S) l1 l2 s :
  loop body (l1 ++ l2) s = s' ← loop body l1 s; loop body l2 s'.
Proof.
  revert s. induction l1 as [|a l1 IH]; intros s; cbn; [done|].
  destruct (body s a); cbn; [apply IH|done].
Qed.

End Numbers.

(** * CCleanIndices and EqAtIndex *)

Section CleanIndices.
Import Elements Indexing.

#[local] Arguments double_of_Z : simpl never.
#[local] Arguments dlt : simpl never.
#[local] Arguments index_of_double : simpl never.

(** R indices that are whole numbers, as the doubles R passes. *)
Definition whole (vs : list Z) : list double := double_of_Z <$> vs.

Lemma length_whole vs : length (whole vs) = length vs.
Proof. unfold whole. by rewrite length_fmap. Qed.

Definition count_if {A} (P : A -> bool) (vs : list A) : Z :=
  Z.of_nat (length (filter (fun v => P v = true) vs)).

Lemma count_if_nil {A} (P : A -> bool) : count_if P [] = 0.
Proof. reflexivity. Qed.

Lemma count_if_cons {A} (P : A -> bool) v vs :
  count_if P (v :: vs) = (if P v then 1 else 0) + count_if P vs.
Proof.
  unfold count_if. rewrite filter_cons. destruct (P v) eqn:E.
  - rewrite decide_True by done. cbn [length]. lia.
  - rewrite decide_False by discriminate. lia.
Qed.

Lemma count_if_nonneg {A} (P : A -> bool) vs : 0 <= count_if P vs.
Proof. unfold count_if. lia. Qed.

Lemma count_if_pos {A} (P : A -> bool) vs :
  0 < count_if P vs <-> exists v, v ∈ vs /\ P v = true.
Proof.
  induction vs as [|v vs IH].
  - rewrite count_if_nil. split; [lia|].
    intros (v & Hv & _). by apply elem_of_nil in Hv.
  - rewrite count_if_cons. pose proof (count_if_nonneg P vs). split.
    + intros Hpos. destruct (P v) eqn:E.
      * exists v. split; [left|done].
      * destruct (proj1 IH) as (x & Hx & HP); [lia|].
        exists x. split; [by right|done].
    + intros (x & Hx & HP). apply elem_of_cons in Hx as [->|Hx].
      * rewrite HP. lia.
      * assert (0 < count_if P vs) by (apply IH; eauto).
        destruct (P v); lia.
Qed.

Lemma count_if_zero {A} (P : A -> bool) vs :
  count_if P vs = 0 <-> forall v, v ∈ vs -> P v = false.
Proof.
  pose proof (count_if_pos P vs) as Hp. pose proof (count_if_nonneg P vs).
  split.
  - intros Hz v Hv. destruct (P v) eqn:E; [|done].
    assert (0 < count_if P vs) by (apply Hp; eauto). lia.
  - intros Hall. destruct (Z.eq_dec (count_if P vs) 0) as [|Hne]; [done|].
    destruct (proj1 Hp) as (v & Hv & HP); [lia|].
    rewrite (Hall v Hv) in HP. done.
Qed.

Lemma count_if_le {A} (P : A -> bool) vs : count_if P vs <= Z.of_nat (length vs).
Proof.
  induction vs as [|v vs IH]; [rewrite count_if_nil; cbn; lia|].
  rewrite count_if_cons. cbn [length]. destruct (P v); lia.
Qed.

(** Indices within [-n .. n]. *)
Definition within (n : Z) (vs : list Z) : Prop :=
  forall v, v ∈ vs -> - n <= v <= n.

(** The first loop, when no index is beyond [n]: the three counts. *)
Lemma count_indices_within n vs t :
  n <= 2 ^ 63 - 1 -> within n vs ->
  count_indices (double_of_Z n) (whole vs) t =
  Some (Some (MkTally (zeroIndexCount t + count_if (fun v => v =? 0) vs)
                      (negIndexCount t + count_if (fun v => v <? 0) vs)
                      (posIndexCount t + count_if (fun v => 0 <? v) vs))).
Proof.
  intros Hn. revert t. induction vs as [|v vs IH]; intros t Hw.
  - cbn. rewrite !count_if_nil. destruct t. cbn. do 3 f_equal; lia.
  - assert (- n <= v <= n) as Hv by (apply Hw; left).
    cbn [whole fmap list_fmap count_indices].
    rewrite index_of_double_of_Z by (apply in_int_64; lia). cbn.
    unfold labs. destruct (Z.eqb_spec v (int_min 64)) as [E|_].
    { unfold int_min in E. cbn in E. lia. }
    cbn. rewrite dlt_of_Z. destruct (Z.ltb_spec n (Z.abs v)) as [?|_]; [lia|].
    fold (whole vs). rewrite IH by (intros x Hx; apply Hw; by right).
    rewrite !count_if_cons. cbn. do 3 f_equal; lia.
Qed.

Lemma count_indices_start n vs :
  n <= 2 ^ 63 - 1 -> within n vs ->
  count_indices (double_of_Z n) (whole vs) (MkTally 0 0 0) =
  Some (Some (MkTally (count_if (fun v => v =? 0) vs)
                      (count_if (fun v => v <? 0) vs)
                      (count_if (fun v => 0 <? v) vs))).
Proof. intros Hn Hw. by rewrite count_indices_within. Qed.

(** The first loop, when some index is beyond [n]: it returns at the
    first such index. *)
Lemma count_indices_beyond n vs t :
  (forall v, v ∈ vs -> - 2 ^ 63 < v <= 2 ^ 63 - 1) ->
  (exists v, v ∈ vs /\ n < Z.abs v) ->
  count_indices (double_of_Z n) (whole vs) t = Some None.
Proof.
  revert t. induction vs as [|v vs IH]; intros t Hr (x & Hx & Hb).
  - by apply elem_of_nil in Hx.
  - assert (- 2 ^ 63 < v <= 2 ^ 63 - 1) as Hv by (apply Hr; left).
    cbn [whole fmap list_fmap count_indices].
    rewrite index_of_double_of_Z by (apply in_int_64; lia). cbn.
    unfold labs. destruct (Z.eqb_spec v (int_min 64)) as [E|_].
    { unfold int_min in E. cbn in E. lia. }
    cbn. rewrite dlt_of_Z. destruct (Z.ltb_spec n (Z.abs v)) as [?|Hle]; [done|].
    fold (whole vs). apply IH.
    + intros y Hy. apply Hr. by right.
    + apply elem_of_cons in Hx as [->|Hx]; [lia|eauto].
Qed.

(** The indices that are not zero, in their order. *)
Definition nonzeros (vs : list Z) : list Z := filter (fun v => v <> 0) vs.

Lemma nonzeros_cons v vs :
  nonzeros (v :: vs) = if decide (v = 0) then nonzeros vs else v :: nonzeros vs.
Proof.
  unfold nonzeros. rewrite filter_cons.
  destruct (decide (v = 0)) as [->|Hne].
  - by rewrite decide_False by lia.
  - by rewrite decide_True by done.
Qed.

#[local] Arguments nonzeros : simpl never.

Lemma put_next {A} (l t : list (option A)) x :
  Template.put (l ++ None :: t) (Z.of_nat (length l)) x = Some (l ++ Some x :: t).
Proof.
  unfold Template.put. rewrite length_app. cbn [length].
  assert ((0 <=? Z.of_nat (length l)) &&
          (Z.of_nat (length l) <? Z.of_nat (length l + S (length t))) = true)
    as -> by (apply andb_true_intro; split; [apply Z.leb_le|apply Z.ltb_lt]; lia).
  rewrite Nat2Z.id, insert_app_r_alt, Nat.sub_diag by lia. done.
Qed.

Lemma put_nil {A} j (x : A) : Template.put [] j x = None.
Proof.
  unfold Template.put. cbn [length].
  destruct (Z.leb_spec 0 j), (Z.ltb_spec j (Z.of_nat 0)); try done. lia.
Qed.

(** The loop that drops the zeros, on a vector with room for [r] more
    cells after the [kept] ones. *)
Lemma drop_zeros_loop vs : forall (kept : list Z) (r : nat),
  (forall v, v ∈ vs -> - 2 ^ 63 <= v <= 2 ^ 63 - 1) ->
  (length (nonzeros vs) <= r)%nat ->
  loop (fun '(newPIndices, j) x =>
          v ← index_of_double x;
          if v =? 0 then Some (newPIndices, j)
          else
            newPIndices' ← Template.put newPIndices j x;
            Some (newPIndices', j + 1))
       (whole vs)
       ((Some <$> whole kept) ++ replicate r None,
        Z.of_nat (length (Some <$> whole kept)))
  = Some ((Some <$> whole (kept ++ nonzeros vs)) ++
            replicate (r - length (nonzeros vs)) None,
          Z.of_nat (length kept + length (nonzeros vs))).
Proof.
  induction vs as [|v vs IH]; intros kept r Hr Hlen.
  - cbn. unfold whole.
    rewrite app_nil_r, Nat.sub_0_r, Nat.add_0_r, !length_fmap. done.
  - assert (- 2 ^ 63 <= v <= 2 ^ 63 - 1) as Hv by (apply Hr; left).
    assert (forall x, x ∈ vs -> - 2 ^ 63 <= x <= 2 ^ 63 - 1) as Hr'
      by (intros x Hx; apply Hr; by right).
    cbn [whole fmap list_fmap loop].
    rewrite index_of_double_of_Z by (by apply in_int_64). cbn.
    rewrite nonzeros_cons in *. fold (whole vs).
    destruct (Z.eqb_spec v 0) as [->|Hne].
    + rewrite decide_True in * by lia. by apply IH.
    + rewrite decide_False in * by done. cbn [length] in Hlen.
      destruct r as [|r]; [lia|].
      cbn [replicate]. rewrite put_next. cbn.
      replace ((Some <$> whole kept) ++ Some (double_of_Z v) :: replicate r None)
        with ((Some <$> whole (kept ++ [v])) ++ replicate r None)
        by (unfold whole; rewrite !fmap_app, <- app_assoc; done).
      replace (Z.of_nat (length (Some <$> whole kept)) + 1)
        with (Z.of_nat (length (Some <$> whole (kept ++ [v]))))
        by (unfold whole; rewrite !length_fmap, length_app; cbn; lia).
      rewrite IH by (try done; lia).
      rewrite <- app_assoc, length_app. cbn [length app].
      do 2 f_equal. lia.
Qed.

Lemma drop_zeros_exact vs :
  (forall v, v ∈ vs -> - 2 ^ 63 <= v <= 2 ^ 63 - 1) ->
  drop_zeros (whole vs) (Z.of_nat (length (nonzeros vs)))
  = Some (Some <$> whole (nonzeros vs)).
Proof.
  intros Hr. unfold drop_zeros. rewrite Nat2Z.id.
  pose proof (drop_zeros_loop vs [] (length (nonzeros vs)) Hr (le_n _)) as H.
  change ((Some <$> whole []) ++ replicate (length (nonzeros vs)) None)
    with (replicate (length (nonzeros vs)) (@None double)) in H.
  change (Z.of_nat (length (Some <$> whole []))) with 0 in H.
  rewrite H. cbn. rewrite Nat.sub_diag, app_nil_r. done.
Qed.

(** With no room at all, the first index that is not zero is written
    past the end. *)
Lemma drop_zeros_overflow vs j :
  (forall v, v ∈ vs -> - 2 ^ 63 <= v <= 2 ^ 63 - 1) ->
  (exists v, v ∈ vs /\ v <> 0) ->
  loop (fun '(newPIndices, j) x =>
          v ← index_of_double x;
          if v =? 0 then Some (newPIndices, j)
          else
            newPIndices' ← Template.put newPIndices j x;
            Some (newPIndices', j + 1))
       (whole vs) ([], j) = None.
Proof.
  induction vs as [|v vs IH]; intros Hr (x & Hx & Hne).
  - by apply elem_of_nil in Hx.
  - assert (- 2 ^ 63 <= v <= 2 ^ 63 - 1) as Hv by (apply Hr; left).
    cbn [whole fmap list_fmap loop].
    rewrite index_of_double_of_Z by (by apply in_int_64). cbn.
    fold (whole vs). destruct (Z.eqb_spec v 0) as [->|Hv0].
    + apply IH; [intros y Hy; apply Hr; by right|].
      apply elem_of_cons in Hx as [->|Hx]; [done|eauto].
    + by rewrite put_nil.
Qed.

(** ** The complement of negative indices *)

Lemma filter_all {A} (P : A -> Prop) `{!forall x, Decision (P x)} (l : list A) :
  Forall P l -> filter P l = l.
Proof.
  induction 1 as [|x l Hx Hl IH]; [done|].
  by rewrite filter_cons_True, IH.
Qed.

(** In strictly ascending order. *)
Fixpoint ascending (L : list Z) : Prop :=
  match L with
  | [] => True
  | e :: L' => Forall (Z.lt e) L' /\ ascending L'
  end.

Lemma lower_bound_sorted L k :
  ascending L ->
  match L !! lower_bound L k with
  | Some e =>
      if e =? k then delete (lower_bound L k) L = filter (fun e => e <> k) L
      else filter (fun e => e <> k) L = L
  | None => filter (fun e => e <> k) L = L
  end.
Proof.
  induction L as [|e L IH]; [done|]. intros [Hall Hs].
  specialize (IH Hs).
  cbn [lower_bound]. destruct (Z.ltb_spec e k) as [Hlt|Hge].
  - change ((e :: L) !! S (lower_bound L k)) with (L !! lower_bound L k).
    rewrite filter_cons, decide_True by lia.
    destruct (L !! lower_bound L k) as [x|]; [destruct (x =? k)|].
    + change (delete (S (lower_bound L k)) (e :: L))
        with (e :: delete (lower_bound L k) L). by rewrite IH.
    + by rewrite IH.
    + by rewrite IH.
  - change ((e :: L) !! 0%nat) with (Some e).
    assert (filter (fun x => x <> k) L = L) as Hid.
    { apply filter_all. eapply Forall_impl; [exact Hall|].
      cbn. intros x Hx. lia. }
    rewrite filter_cons. destruct (Z.eqb_spec e k) as [->|Hne].
    + rewrite decide_False by lia. by rewrite Hid.
    + rewrite decide_True by done. by rewrite Hid.
Qed.

Lemma ascending_filter (P : Z -> Prop) `{!forall x, Decision (P x)} L :
  ascending L -> ascending (filter P L).
Proof.
  induction L as [|e L IH]; [done|]. intros [Hall Hs].
  rewrite filter_cons. destruct (decide (P e)); [|by apply IH].
  split; [|by apply IH].
  apply Forall_forall. intros x Hx. apply list_elem_of_filter in Hx as [_ Hx].
  by apply (proj1 (Forall_forall _ _) Hall).
Qed.

Lemma ascending_seqZ m n : ascending (seqZ m n).
Proof.
  remember (Z.to_nat n) as k eqn:Hk. revert m n Hk.
  induction k as [|k IH]; intros m n Hk.
  - by rewrite seqZ_nil by lia.
  - rewrite seqZ_cons by lia. split.
    + apply Forall_forall. intros x Hx. apply elem_of_seqZ in Hx. lia.
    + apply IH. lia.
Qed.

Lemma erase_index_sorted ind v :
  ascending ind ->
  - 2 ^ 63 < v <= 2 ^ 63 - 1 ->
  erase_index ind (double_of_Z v) = Some (filter (fun e => e <> - v) ind).
Proof.
  intros Hs Hv. unfold erase_index.
  replace (dneg (double_of_Z v)) with (double_of_Z (- v)) by reflexivity.
  rewrite !index_of_double_of_Z by (apply in_int_64; lia). cbn.
  pose proof (lower_bound_sorted ind (- v) Hs) as H.
  destruct (ind !! lower_bound ind (- v)) as [e|]; [|by rewrite H].
  destruct (Z.eqb_spec v (int_min 64)) as [E|_].
  { unfold int_min in E. cbn in E. lia. }
  replace (-1 * v) with (- v) by lia.
  destruct (e =? - v); by rewrite H.
Qed.

Lemma erase_loop vs : forall ind,
  ascending ind ->
  (forall v, v ∈ vs -> - 2 ^ 63 < v <= 2 ^ 63 - 1) ->
  loop erase_index (whole vs) ind = Some (filter (fun e => - e ∉ vs) ind).
Proof.
  induction vs as [|v vs IH]; intros ind Hs Hr.
  - cbn. f_equal. symmetry. apply filter_all.
    apply Forall_forall. intros x _. apply not_elem_of_nil.
  - cbn [whole fmap list_fmap loop]. fold (whole vs).
    rewrite erase_index_sorted by (try done; apply Hr; left). cbn.
    rewrite IH; [|by apply ascending_filter|intros x Hx; apply Hr; by right].
    f_equal. rewrite list_filter_filter. apply list_filter_iff.
    intros x. rewrite not_elem_of_cons. split; [intros [? ?]|intros [? ?]];
      split; try done; lia.
Qed.


(** X13: which index vectors [CCleanIndices] turns down and which it
    lets through, for whole-number indices and a bound [n].  An index
    beyond the bound in either direction gives [NULL, NULL], whatever
    else the vector holds.  So does a vector within the bound that has
    both a positive and a negative index.  A vector of positive indices
    within the bound, the empty one included, gives [FALSE, NULL]: it is
    to be used as it is. *)
Theorem clean_indices_accepts_and_rejects can_reserve n vs :
  n <= 2 ^ 63 - 1 ->
  (forall v, v ∈ vs -> - 2 ^ 63 < v <= 2 ^ 63 - 1) ->
  ((exists v, v ∈ vs /\ n < Z.abs v) ->
   Indexing.CCleanIndices can_reserve (whole vs) (Elements.double_of_Z n)
   = Some Indexing.Rejected) /\
  (within n vs -> (exists v, v ∈ vs /\ 0 < v) -> (exists v, v ∈ vs /\ v < 0) ->
   Indexing.CCleanIndices can_reserve (whole vs) (Elements.double_of_Z n)
   = Some Indexing.Rejected) /\
  ((forall v, v ∈ vs -> 1 <= v <= n) ->
   Indexing.CCleanIndices can_reserve (whole vs) (Elements.double_of_Z n)
   = Some Indexing.Unchanged).
Proof.
  intros Hn Hr. unfold Indexing.CCleanIndices. split; [|split].
  - intros Hb. by rewrite count_indices_beyond.
  - intros Hw Hp Hm. rewrite count_indices_start by done. cbn.
    assert (0 < count_if (fun v => 0 <? v) vs) as Hp'.
    { apply count_if_pos. destruct Hp as (v & Hv & Hpos). exists v.
      split; [done|lia]. }
    assert (0 < count_if (fun v => v <? 0) vs) as Hm'.
    { apply count_if_pos. destruct Hm as (v & Hv & Hneg). exists v.
      split; [done|lia]. }
    rewrite !length_whole.
    assert (count_if (fun v => v =? 0) vs <> Z.of_nat (length vs)) as Hne.
    { intros E.
      assert (forall l, count_if (fun v => 0 <? v) l + count_if (fun v => v =? 0) l
                        <= Z.of_nat (length l)) as Hsum.
      { induction l as [|x l IH]; [rewrite !count_if_nil; cbn; lia|].
        rewrite !count_if_cons. cbn [length].
        destruct (Z.ltb_spec 0 x), (Z.eqb_spec x 0); lia. }
      specialize (Hsum vs). lia. }
    destruct (Z.eqb_spec (count_if (fun v => v =? 0) vs)
                         (Z.of_nat (length vs))) as [?|_]; [done|].
    cbn.
    destruct (Z.ltb_spec 0 (count_if (fun v => 0 <? v) vs)) as [_|?]; [|lia].
    destruct (Z.ltb_spec 0 (count_if (fun v => v <? 0) vs)) as [_|?]; [|lia].
    done.
  - intros Hall.
    assert (within n vs) as Hw by (intros v Hv; specialize (Hall v Hv); lia).
    rewrite count_indices_start by done. cbn.
    assert (count_if (fun v => v =? 0) vs = 0) as ->
      by (apply count_if_zero; intros v Hv; specialize (Hall v Hv); lia).
    assert (count_if (fun v => v <? 0) vs = 0) as ->
      by (apply count_if_zero; intros v Hv; specialize (Hall v Hv); lia).
    rewrite !length_whole.
    destruct vs as [|v vs]; [done|]. cbn [length].
    destruct (Z.eqb_spec 0 (Z.of_nat (S (length vs)))) as [?|_]; [lia|].
    cbn. by rewrite andb_false_r.
Qed.

Lemma clean_indices_accepts_and_rejects_witness :
  Indexing.CCleanIndices (fun _ => true) (whole [1; 7]) (Elements.double_of_Z 5)
    = Some Indexing.Rejected /\
  Indexing.CCleanIndices (fun _ => true) (whole [2; -3]) (Elements.double_of_Z 5)
    = Some Indexing.Rejected /\
  Indexing.CCleanIndices (fun _ => true) (whole [4; 1; 4]) (Elements.double_of_Z 5)
    = Some Indexing.Unchanged.
Proof.
  assert (forall vs : list Z, Forall (fun v => -5 <= v <= 7) vs ->
            forall v, v ∈ vs -> - 2 ^ 63 < v <= 2 ^ 63 - 1) as Hr.
  { intros vs Hall v Hv. apply (proj1 (Forall_forall _ _) Hall) in Hv. lia. }
  split; [|split].
  - destruct (clean_indices_accepts_and_rejects (fun _ => true) 5 [1; 7])
      as (H & _ & _); [lia|apply Hr; repeat constructor; lia|].
    apply H. exists 7. split; [set_solver|lia].
  - destruct (clean_indices_accepts_and_rejects (fun _ => true) 5 [2; -3])
      as (_ & H & _); [lia|apply Hr; repeat constructor; lia|].
    apply H.
    + intros v Hv. apply (proj1 (Forall_forall (fun v => -5 <= v <= 5) _)) in Hv;
        [done|repeat constructor; lia].
    + exists 2. split; [set_solver|lia].
    + exists (-3). split; [set_solver|lia].
  - destruct (clean_indices_accepts_and_rejects (fun _ => true) 5 [4; 1; 4])
      as (_ & _ & H); [lia|apply Hr; repeat constructor; lia|].
    apply H. intros v Hv.
    apply (proj1 (Forall_forall (fun v => 1 <= v <= 5) _)) in Hv;
      [done|repeat constructor; lia].
Defined.

(** X14: zeros are dropped.  For indices from [0] to [n] of which at
    least one is zero, [CCleanIndices] returns [TRUE] and a new vector
    holding the indices that are not zero, in their order and each cell
    assigned; when all are zero the new vector is empty. *)
Theorem clean_indices_drops_zeros can_reserve n vs :
  n <= 2 ^ 63 - 1 ->
  (forall v, v ∈ vs -> 0 <= v <= n) ->
  0 ∈ vs ->
  Indexing.CCleanIndices can_reserve (whole vs) (Elements.double_of_Z n)
  = Some (Indexing.Replaced (Some <$> whole (nonzeros vs))).
Proof.
  intros Hn Hall Hz. unfold Indexing.CCleanIndices.
  assert (within n vs) as Hw by (intros v Hv; specialize (Hall v Hv); lia).
  rewrite count_indices_start by done. cbn.
  assert (count_if (fun v => v <? 0) vs = 0) as ->
    by (apply count_if_zero; intros v Hv; specialize (Hall v Hv); lia).
  assert (0 < count_if (fun v => v =? 0) vs) as Hzpos
    by (apply count_if_pos; exists 0; done).
  assert (count_if (fun v => 0 <? v) vs = Z.of_nat (length (nonzeros vs))) as Hpos.
  { clear -Hall. induction vs as [|v vs IH]; [done|].
    rewrite count_if_cons, nonzeros_cons.
    assert (0 <= v <= n) by (apply Hall; left).
    rewrite IH by (intros x Hx; apply Hall; by right).
    destruct (decide (v = 0)) as [->|Hne]; [done|].
    destruct (Z.ltb_spec 0 v); cbn [length]; lia. }
  rewrite !length_whole.
  destruct (Z.eqb_spec (count_if (fun v => v =? 0) vs) (Z.of_nat (length vs)))
    as [Eall|Hsome].
  - pose proof (count_if_le (fun v => v =? 0) vs) as Hle.
    destruct (Z.ltb_spec 0 (Z.of_nat (length vs))) as [_|?]; [|lia].
    cbn. assert (nonzeros vs = []) as ->; [|done].
    assert (forall l, count_if (fun v => v =? 0) l = Z.of_nat (length l) ->
                      nonzeros l = []) as Hnil; [|by apply Hnil].
    induction l as [|x l IH]; [done|].
    rewrite count_if_cons, nonzeros_cons. cbn [length].
    pose proof (count_if_le (fun v => v =? 0) l).
    destruct (Z.eqb_spec x 0) as [->|?]; [|lia].
    intros E. rewrite decide_True by done. apply IH. lia.
  - cbn. rewrite andb_false_r.
    destruct (Z.ltb_spec 0 (count_if (fun v => v =? 0) vs)) as [_|?]; [|lia].
    rewrite Hpos, drop_zeros_exact; [done|].
    intros v Hv. specialize (Hall v Hv). lia.
Qed.

Lemma clean_indices_drops_zeros_witness :
  Indexing.CCleanIndices (fun _ => true) (whole [3; 0; 1; 0]) (Elements.double_of_Z 5)
  = Some (Indexing.Replaced (Some <$> whole [3; 1])).
Proof.
  apply (clean_indices_drops_zeros (fun _ => true) 5 [3; 0; 1; 0]).
  - lia.
  - intros v Hv. revert v Hv. apply Forall_forall. repeat constructor; lia.
  - set_solver.
Defined.

(** X15: a zero together with a negative index.  The branch that drops
    zeros allocates a vector of [posIndexCount] cells, here none, and
    then stores every index that is not zero, here the negative ones:
    the first of them is written past the end of the vector, and the
    behaviour of [CCleanIndices] is undefined. *)
Theorem clean_indices_zero_and_negative_overflows can_reserve n vs :
  n <= 2 ^ 63 - 1 ->
  (forall v, v ∈ vs -> - n <= v <= 0) ->
  0 ∈ vs ->
  (exists v, v ∈ vs /\ v < 0) ->
  Indexing.CCleanIndices can_reserve (whole vs) (Elements.double_of_Z n) = None.
Proof.
  intros Hn Hall Hz Hneg. unfold Indexing.CCleanIndices.
  assert (within n vs) as Hw by (intros v Hv; specialize (Hall v Hv); lia).
  rewrite count_indices_start by done. cbn.
  assert (count_if (fun v => 0 <? v) vs = 0) as ->
    by (apply count_if_zero; intros v Hv; specialize (Hall v Hv); lia).
  assert (0 < count_if (fun v => v =? 0) vs) as Hzpos
    by (apply count_if_pos; exists 0; done).
  assert (count_if (fun v => v =? 0) vs <> Z.of_nat (length vs)) as Hne.
  { assert (forall l, count_if (fun v => v <? 0) l + count_if (fun v => v =? 0) l
                      <= Z.of_nat (length l)) as Hsum.
    { induction l as [|x l IH]; [rewrite !count_if_nil; cbn; lia|].
      rewrite !count_if_cons. cbn [length].
      destruct (Z.ltb_spec x 0), (Z.eqb_spec x 0); lia. }
    specialize (Hsum vs).
    assert (0 < count_if (fun v => v <? 0) vs) as Hn0.
    { apply count_if_pos. destruct Hneg as (v & Hv & Hlt). exists v.
      split; [done|lia]. }
    lia. }
  rewrite !length_whole.
  destruct (Z.eqb_spec (count_if (fun v => v =? 0) vs) (Z.of_nat (length vs)))
    as [?|_]; [done|].
  cbn.
  destruct (Z.ltb_spec 0 (count_if (fun v => v =? 0) vs)) as [_|?]; [|lia].
  unfold Indexing.drop_zeros. cbn.
  rewrite drop_zeros_overflow; [done| |].
  - intros v Hv. specialize (Hall v Hv). lia.
  - destruct Hneg as (v & Hv & Hlt). exists v. split; [done|lia].
Qed.

Lemma clean_indices_zero_and_negative_overflows_witness :
  Indexing.CCleanIndices (fun _ => true) (whole [0; -1]) (Elements.double_of_Z 5)
  = None.
Proof.
  apply (clean_indices_zero_and_negative_overflows (fun _ => true) 5 [0; -1]).
  - lia.
  - intros v Hv. revert v Hv. apply Forall_forall. repeat constructor; lia.
  - set_solver.
  - exists (-1). split; [set_solver|lia].
Defined.

(** X16: negative indices select the complement.  For a non-empty vector
    of indices from [-n] to [-1], with [n] small enough for an R vector
    and the memory for [n] numbers granted, [CCleanIndices] returns
    [TRUE] and the numbers of [1 .. n] whose negative is not among the
    indices, in ascending order, each once.  The order of the indices and
    their repetitions make no difference. *)
Theorem clean_indices_negative_is_complement can_reserve n vs :
  vs <> [] ->
  (forall v, v ∈ vs -> - n <= v <= -1) ->
  n <= 2 ^ 31 - 1 ->
  can_reserve n = true ->
  Indexing.CCleanIndices can_reserve (whole vs) (Elements.double_of_Z n)
  = Some (Indexing.Replaced
            ((fun i => Some (Elements.double_of_Z i)) <$>
               filter (fun i => - i ∉ vs) (seqZ 1 n))).
Proof.
  intros Hne Hall Hn Hres. unfold Indexing.CCleanIndices.
  assert (within n vs) as Hw by (intros v Hv; specialize (Hall v Hv); lia).
  rewrite count_indices_start by (try done; lia). cbn.
  assert (count_if (fun v => 0 <? v) vs = 0) as ->
    by (apply count_if_zero; intros v Hv; specialize (Hall v Hv); lia).
  assert (count_if (fun v => v =? 0) vs = 0) as ->
    by (apply count_if_zero; intros v Hv; specialize (Hall v Hv); lia).
  assert (0 < count_if (fun v => v <? 0) vs) as Hneg.
  { destruct vs as [|v vs]; [done|]. apply count_if_pos. exists v.
    split; [left|]. assert (- n <= v <= -1) by (apply Hall; left). lia. }
  assert (1 <= n).
  { destruct vs as [|v vs]; [done|].
    assert (- n <= v <= -1) by (apply Hall; left). lia. }
  rewrite !length_whole.
  assert (length vs <> 0%nat) as Hlen0 by (by destruct vs).
  destruct (Z.eqb_spec 0 (Z.of_nat (length vs))) as [E|_]; [lia|].
  cbn.
  destruct (Z.ltb_spec 0 (count_if (fun v => v <? 0) vs)) as [_|?]; [|lia].
  unfold Indexing.complement.
  rewrite index_of_double_of_Z by (apply in_int_64; lia). cbn.
  destruct (Z.ltb_spec n 0) as [?|_]; [lia|]. rewrite Hres. cbn.
  rewrite erase_loop; [|apply ascending_seqZ|].
  2:{ intros v Hv. specialize (Hall v Hv). lia. }
  cbn. unfold TooManyRIndices.
  assert (length (filter (fun e => - e ∉ vs) (seqZ 1 n)) <= Z.to_nat n)%nat as Hlen.
  { rewrite <- (length_seqZ 1 n). apply length_filter. }
  destruct (Z.ltb_spec (2 ^ 31 - 1)
              (Z.of_nat (length (filter (fun e => - e ∉ vs) (seqZ 1 n)))))
    as [?|_]; [lia|].
  done.
Qed.

Lemma clean_indices_negative_is_complement_witness :
  Indexing.CCleanIndices (fun _ => true) (whole [-4; -2; -4])
    (Elements.double_of_Z 5)
  = Some (Indexing.Replaced
            ((fun i => Some (Elements.double_of_Z i)) <$> [1; 3; 5])).
Proof.
  apply (clean_indices_negative_is_complement (fun _ => true) 5 [-4; -2; -4]).
  - done.
  - intros v Hv. revert v Hv. apply Forall_forall. repeat constructor; lia.
  - lia.
  - reflexivity.
Defined.

(** X17: [EqAtIndex] is a search for the first match.  It returns [-1]
    exactly when no element of the vector equals the value under [==];
    otherwise it returns a position inside the vector whose element
    equals the value, and no element before that position does. *)
Theorem EqAtIndex_finds_first {T} (eqb : T -> T -> bool) val vec :
  let r := Indexing.EqAtIndex eqb val vec in
  (r = -1 <-> forall x, x ∈ vec -> eqb val x = false) /\
  (r <> -1 ->
   0 <= r < Z.of_nat (length vec) /\
   (exists x, vec !! Z.to_nat r = Some x /\ eqb val x = true) /\
   forall j x, (j < Z.to_nat r)%nat -> vec !! j = Some x -> eqb val x = false).
Proof.
  cbv zeta. unfold Indexing.EqAtIndex.
  assert (forall i, 0 <= i ->
    let r := Indexing.EqAtIndex_from eqb val vec i in
    (r = -1 <-> forall x, x ∈ vec -> eqb val x = false) /\
    (r <> -1 ->
     i <= r < i + Z.of_nat (length vec) /\
     (exists x, vec !! Z.to_nat (r - i) = Some x /\ eqb val x = true) /\
     forall j x, (j < Z.to_nat (r - i))%nat -> vec !! j = Some x ->
                 eqb val x = false)) as H.
  { induction vec as [|y vec IH]; intros i Hi; cbv zeta.
    - cbn. split; [split; [intros _ x Hx; by apply elem_of_nil in Hx|done]|done].
    - cbn [Indexing.EqAtIndex_from]. destruct (eqb val y) eqn:E.
      + split.
        * split; [lia|]. intros Hall. rewrite Hall in E by left. done.
        * intros _. rewrite Z.sub_diag. cbn [length]. split; [lia|].
          split; [exists y; done|]. intros j x Hj. cbn in Hj. lia.
      + destruct (IH (i + 1) ltac:(lia)) as [Hiff Hfound]. split.
        * rewrite Hiff. split.
          -- intros Hall x Hx. apply elem_of_cons in Hx as [->|Hx]; eauto.
          -- intros Hall x Hx. apply Hall. by right.
        * intros Hr. destruct (Hfound Hr) as (Hrange & (x & Hx & Hm) & Hbefore).
          cbn [length]. split; [lia|].
          replace (Z.to_nat (Indexing.EqAtIndex_from eqb val vec (i + 1) - i))
            with (S (Z.to_nat (Indexing.EqAtIndex_from eqb val vec (i + 1)
                               - (i + 1)))) by lia.
          split; [exists x; done|].
          intros [|j] z Hj Hz; [by injection Hz as <-|].
          apply (Hbefore j); [lia|done]. }
  specialize (H 0 ltac:(lia)). cbv zeta in H. rewrite Z.add_0_l in H.
  rewrite Z.sub_0_r in H. exact H.
Qed.

End CleanIndices.

Lemma EqAtIndex_finds_first_witness :
  Indexing.EqAtIndex Z.eqb 7 [4; 7; 9; 7] = 1 /\
  (exists x, [4; 7; 9; 7] !! Z.to_nat 1 = Some x /\ (7 =? x) = true) /\
  Indexing.EqAtIndex Z.eqb 5 [4; 7; 9; 7] = -1.
Proof.
  pose proof (EqAtIndex_finds_first Z.eqb 7 [4; 7; 9; 7]) as H.
  cbv zeta in H. destruct H as [_ H].
  assert (Indexing.EqAtIndex Z.eqb 7 [4; 7; 9; 7] = 1) as E by reflexivity.
  rewrite E in H.
  assert (1 <> -1) as Hne by lia.
  destruct (H Hne) as (_ & Hx & _).
  split; [reflexivity|]. split; [exact Hx|].
  apply (EqAtIndex_finds_first Z.eqb 5 [4; 7; 9; 7]).
  intros x Hx'. repeat (apply elem_of_cons in Hx' as [->|Hx']; [reflexivity|]).
  by apply elem_of_nil in Hx'.
Defined.

(** * Column scans: ColCountNA and MatrixHashRanges *)

(** The column [c] of [m], as the accessor reaches it, holds the values
    [xs], one for each row. *)
Definition column_holds {T} (accessor : Elements.Accessor) (m : Elements.Mat T)
    (c : Z) (xs : list T) : Prop :=
  Z.of_nat (length xs) = Elements.num_rows m /\
  exists p, accessor T m c = Some p /\
    forall i x, xs !! i = Some x ->
      Elements.load (Elements.cells m) p (Z.of_nat i) = Some x.

Section Scanning.
Import Elements Scans.

#[local] Arguments double_of_Z : simpl never.
#[local] Arguments index_of_double : simpl never.
#[local] Arguments load : simpl never.

Lemma seqZ_succ k n :
  seqZ k (Z.of_nat (S n)) = k :: seqZ (k + 1) (Z.of_nat n).
Proof.
  rewrite seqZ_cons by lia. f_equal. f_equal; lia.
Qed.

Lemma ColCountNA_loop {T} (accessor : Accessor) (eq_int : T -> Z -> bool)
    (to_double : T -> double) NA (m : Mat T) c p :
  accessor T m c = Some p ->
  forall xs k counter,
    (forall i x, xs !! i = Some x ->
       load (cells m) p (k + Z.of_nat i) = Some x) ->
    loop (fun counter i =>
            pColumn ← accessor T m c;
            x ← load (cells m) pColumn i;
            Some (if eq_int x NA || isna (to_double x)
                  then counter + 1 else counter))
         (seqZ k (Z.of_nat (length xs))) counter
    = Some (counter + count_if (fun x => eq_int x NA || isna (to_double x)) xs).
Proof.
  intros Hp xs. set (body := fun (counter i : Z) => _).
  induction xs as [|x xs IH]; intros k counter Hxs.
  - cbn. rewrite count_if_nil. f_equal. lia.
  - cbn [length]. rewrite seqZ_succ. cbn [loop].
    pose proof (Hxs 0%nat x eq_refl) as H0. rewrite Z.add_0_r in H0.
    assert (body counter k =
            Some (if eq_int x NA || isna (to_double x)
                  then counter + 1 else counter)) as ->
      by (unfold body; rewrite Hp; cbn; by rewrite H0).
    cbn [mbind option_bind]. rewrite IH.
    + rewrite count_if_cons.
      destruct (eq_int x NA || isna (to_double x)); f_equal; lia.
    + intros i y Hy. replace (k + 1 + Z.of_nat i) with (k + Z.of_nat (S i)) by lia.
      by apply Hxs.
Qed.

(** What the template computes: the number of cells of the column that
    equal [NA_INTEGER] or are NaN when converted to [double]. *)
Lemma ColCountNA_counts {T} (accessor : Accessor) (eq_int : T -> Z -> bool)
    (to_double : T -> double) NA (m : Mat T) c xs :
  in_int 64 c = true ->
  column_holds accessor m (c - 1) xs ->
  ColCountNA accessor eq_int to_double NA m (double_of_Z c)
  = Some (count_if (fun x => eq_int x NA || isna (to_double x)) xs).
Proof.
  intros Hc (Hlen & p & Hp & Hxs). unfold ColCountNA.
  rewrite index_of_double_of_Z by done. cbn.
  unfold below. rewrite <- Hlen.
  rewrite (ColCountNA_loop accessor eq_int to_double NA m (c - 1) p Hp xs 0 0).
  - f_equal.
  - intros i x Hx. rewrite Z.add_0_l. by apply Hxs.
Qed.

(** X18: on a matrix of [char] or of [short], [ColCountNA] returns 0
    whatever the column holds.  Every instance of the template compares
    the cell with [NA_INTEGER], the missing-value marker of [int], which
    no [char] and no [short] can equal, and a cell converted to [double]
    is never NaN: a column full of the marker of its own type is counted
    as having no missing value. *)
Theorem ColCountNA_is_zero_for_char_and_short NA_INTEGER pMat m c xs :
  matrix_type pMat = 1 \/ matrix_type pMat = 2 ->
  ints_of pMat = Some m ->
  in_int 64 c = true ->
  column_holds (accessor_of pMat) m (c - 1) xs ->
  (forall x, x ∈ xs -> in_int 16 x = true) ->
  in_int 16 NA_INTEGER = false ->
  ColCountNA_entry NA_INTEGER pMat (double_of_Z c) = Some (Some 0).
Proof.
  intros Ht Hm Hc Hcol Hxs Hna. unfold ColCountNA_entry.
  assert (ColCountNA (accessor_of pMat) Z.eqb double_of_Z NA_INTEGER m
            (double_of_Z c) = Some 0) as Hzero.
  { rewrite (ColCountNA_counts _ _ _ _ _ _ xs) by done. f_equal.
    apply count_if_zero. intros x Hx. specialize (Hxs x Hx).
    rewrite isna_of_Z, orb_false_r. apply Z.eqb_neq. intros ->. congruence. }
  destruct Ht as [-> | ->]; rewrite Hm; cbn; by rewrite Hzero.
Qed.

Lemma ColCountNA_is_zero_for_char_and_short_witness :
  ColCountNA_entry (-2147483648)
    (MkBigMatrix 2 2 1 false (Ints [[1; 2; -128; -128]])) (double_of_Z 2)
  = Some (Some 0).
Proof.
  apply (ColCountNA_is_zero_for_char_and_short (-2147483648)
           (MkBigMatrix 2 2 1 false (Ints [[1; 2; -128; -128]]))
           (MkMat 2 2 [[1; 2; -128; -128]]) 2 [-128; -128]).
  - by left.
  - reflexivity.
  - reflexivity.
  - split; [reflexivity|]. exists (0%nat, 2). split; [reflexivity|].
    intros [|[|i]] x Hx; try discriminate; by injection Hx as <-.
  - intros x Hx. revert x Hx. apply Forall_forall. by repeat constructor.
  - reflexivity.
Defined.

(** X19: on a matrix of [int], [ColCountNA] returns the number of cells
    of the column that hold [NA_INTEGER].  On a matrix of [double] it
    returns the number of cells that are NaN or equal [NA_INTEGER] as a
    number: there a cell holding that number is counted as missing
    although it is an ordinary value of the type. *)
Theorem ColCountNA_counts_int_and_double NA_INTEGER pMat c :
  in_int 64 c = true ->
  (forall m xs,
     matrix_type pMat = 4 -> ints_of pMat = Some m ->
     column_holds (accessor_of pMat) m (c - 1) xs ->
     ColCountNA_entry NA_INTEGER pMat (double_of_Z c)
     = Some (Some (count_if (fun x => x =? NA_INTEGER) xs))) /\
  (forall m ds,
     matrix_type pMat = 8 -> doubles_of pMat = Some m ->
     column_holds (accessor_of pMat) m (c - 1) ds ->
     ColCountNA_entry NA_INTEGER pMat (double_of_Z c)
     = Some (Some (count_if (fun x => deq x (double_of_Z NA_INTEGER) || isna x)
                            ds))).
Proof.
  intros Hc. split.
  - intros m xs Ht Hm Hcol. unfold ColCountNA_entry. rewrite Ht, Hm. cbn.
    rewrite (ColCountNA_counts _ _ _ _ _ _ xs) by done. cbn. do 2 f_equal.
    clear. induction xs as [|x xs IH]; [done|].
    rewrite !count_if_cons, IH, isna_of_Z, orb_false_r. done.
  - intros m ds Ht Hm Hcol. unfold ColCountNA_entry. rewrite Ht, Hm. cbn.
    by rewrite (ColCountNA_counts _ _ _ _ _ _ ds) by done.
Qed.

Lemma ColCountNA_counts_int_and_double_witness :
  ColCountNA_entry (-2147483648)
    (MkBigMatrix 3 1 4 true (Ints [[7; -2147483648; 7]])) (double_of_Z 1)
  = Some (Some 1) /\
  ColCountNA_entry (-2147483648)
    (MkBigMatrix 3 1 8 false
       (Doubles [[DNaN; double_of_Z (-2147483648); double_of_Z 5]]))
    (double_of_Z 1)
  = Some (Some 2).
Proof.
  destruct (ColCountNA_counts_int_and_double (-2147483648)
              (MkBigMatrix 3 1 4 true (Ints [[7; -2147483648; 7]])) 1 eq_refl)
    as [Hint _].
  destruct (ColCountNA_counts_int_and_double (-2147483648)
              (MkBigMatrix 3 1 8 false
                 (Doubles [[DNaN; double_of_Z (-2147483648); double_of_Z 5]]))
              1 eq_refl)
    as [_ Hdouble].
  split.
  - rewrite (Hint (MkMat 3 1 [[7; -2147483648; 7]]) [7; -2147483648; 7]);
      [reflexivity|reflexivity|reflexivity|].
    split; [reflexivity|]. exists (0%nat, 0). split; [reflexivity|].
    intros [|[|[|i]]] x Hx; try discriminate; by injection Hx as <-.
  - rewrite (Hdouble
               (MkMat 3 1 [[DNaN; double_of_Z (-2147483648); double_of_Z 5]])
               [DNaN; double_of_Z (-2147483648); double_of_Z 5]);
      [reflexivity|reflexivity|reflexivity|].
    split; [reflexivity|]. exists (0%nat, 0). split; [reflexivity|].
    intros [|[|[|i]]] x Hx; try discriminate; by injection Hx as <-.
Defined.

(** ** MatrixHashRanges *)

(** The rows, counted from 1, that end a run of equal cells before the
    last row: row [i] is one when the cell below it differs from it. *)
Definition changes (xs : list Z) : list Z :=
  filter (fun i => xs !! Z.to_nat i <> xs !! Z.to_nat (i - 1))
         (seqZ 1 (Z.of_nat (length xs) - 1)).

(** The runs of equal cells of a column as pairs of first and last row,
    counted from 1, one after the other. *)
Definition run_ranges (xs : list Z) : list Z :=
  [1] ++ flat_map (fun i => [i; i + 1]) (changes xs) ++ [Z.of_nat (length xs)].

(** The same rows, found by going down the column from row [k] with the
    cell above in hand. *)
Fixpoint chg (prev : Z) (k : Z) (ys : list Z) : list Z :=
  match ys with
  | [] => []
  | y :: r => (if decide (y = prev) then [] else [k]) ++ chg y (k + 1) r
  end.

Lemma filter_ext_elem {A} (P Q : A -> Prop) `{!forall x, Decision (P x)}
    `{!forall x, Decision (Q x)} (l : list A) :
  (forall x, x ∈ l -> P x <-> Q x) -> filter P l = filter Q l.
Proof.
  induction l as [|x l IH]; intros Hext; [done|].
  rewrite !filter_cons. rewrite IH by (intros y Hy; apply Hext; by right).
  destruct (decide (P x)) as [HP|HP], (decide (Q x)) as [HQ|HQ]; try done.
  - exfalso. apply HQ, Hext; [left|done].
  - exfalso. apply HP, Hext; [left|done].
Qed.

Lemma chg_filter ys : forall prev k,
  chg prev k ys =
  filter (fun i => (prev :: ys) !! Z.to_nat (i - k + 1)
                   <> (prev :: ys) !! Z.to_nat (i - k))
         (seqZ k (Z.of_nat (length ys))).
Proof.
  induction ys as [|y r IH]; intros prev k; [done|].
  cbn [chg length]. rewrite seqZ_succ, filter_cons.
  replace (k - k + 1) with 1 by lia. replace (k - k) with 0 by lia.
  change ((prev :: y :: r) !! Z.to_nat 1) with (Some y).
  change ((prev :: y :: r) !! Z.to_nat 0) with (Some prev).
  rewrite IH.
  rewrite (filter_ext_elem
             (fun i => (prev :: y :: r) !! Z.to_nat (i - k + 1)
                       <> (prev :: y :: r) !! Z.to_nat (i - k))
             (fun i => (y :: r) !! Z.to_nat (i - (k + 1) + 1)
                       <> (y :: r) !! Z.to_nat (i - (k + 1)))).
  - destruct (decide (y = prev)) as [->|Hne].
    + by rewrite decide_False by (intros Hx; by apply Hx).
    + rewrite decide_True by congruence. done.
  - intros i Hi. apply elem_of_seqZ in Hi.
    replace (Z.to_nat (i - k + 1)) with (S (Z.to_nat (i - (k + 1) + 1))) by lia.
    replace (Z.to_nat (i - k)) with (S (Z.to_nat (i - (k + 1)))) by lia.
    done.
Qed.

Lemma chg_changes x ys : chg x 1 ys = changes (x :: ys).
Proof.
  rewrite chg_filter. unfold changes. cbn [length].
  replace (Z.of_nat (S (length ys)) - 1) with (Z.of_nat (length ys)) by lia.
  apply filter_ext_elem. intros i Hi.
  by replace (i - 1 + 1) with i by lia.
Qed.

Lemma length_chg ys : forall prev k, (length (chg prev k ys) <= length ys)%nat.
Proof.
  induction ys as [|y r IH]; intros prev k; [done|].
  cbn [chg length]. rewrite length_app. specialize (IH y (k + 1)).
  destruct (decide (y = prev)); cbn [length]; lia.
Qed.

Lemma last_cons {A} (r : list A) : forall y prev,
  List.last (y :: r) prev = List.last r y.
Proof.
  induction r as [|z r IH]; intros y prev; [done|].
  change (List.last (y :: z :: r) prev) with (List.last (z :: r) prev).
  by rewrite !IH.
Qed.

Lemma int_add_in a b :
  - 2 ^ 31 <= a + b <= 2 ^ 31 - 1 -> int_add a b = Some (a + b).
Proof.
  intros H. unfold int_add.
  assert (in_int 32 (a + b) = true) as ->; [|done].
  unfold in_int, int_min, int_max. cbn. lia.
Qed.

Lemma int_mul_in a b :
  - 2 ^ 31 <= a * b <= 2 ^ 31 - 1 -> int_mul a b = Some (a * b).
Proof.
  intros H. unfold int_mul.
  assert (in_int 32 (a * b) = true) as ->; [|done].
  unfold in_int, int_min, int_max. cbn. lia.
Qed.

Lemma wrap_32 v : - 2 ^ 31 <= v <= 2 ^ 31 - 1 -> wrap 32 v = v.
Proof.
  intros H. apply wrap_id; [lia|].
  unfold in_int, int_min, int_max. cbn. lia.
Qed.

Section Ranges.
Variable accessor : Accessor.
Variable m : Mat Z.
Variable sc : Z.
Variable p : ptr.
Hypothesis Hp : accessor Z m sc = Some p.

Let neq (a b : Z) : bool := negb (a =? b).

(** The counting loop. *)
Lemma hash_count_loop ys : forall prev k cnt,
  (forall i y, ys !! i = Some y ->
     load (cells m) p (k + Z.of_nat i) = Some y) ->
  0 <= cnt -> cnt + Z.of_nat (length ys) <= 2 ^ 31 - 1 ->
  loop (fun '(lastVal, uniqueValCount) i =>
          pColumn ← accessor Z m sc;
          val ← load (cells m) pColumn i;
          if neq val lastVal then
            n ← int_add uniqueValCount 1;
            Some (val, n)
          else Some (lastVal, uniqueValCount))
       (seqZ k (Z.of_nat (length ys))) (prev, cnt)
  = Some (List.last ys prev, cnt + Z.of_nat (length (chg prev k ys))).
Proof.
  match goal with |- context [loop ?b _ _] => set (body := b) end.
  induction ys as [|y r IH]; intros prev k cnt Hys Hc Hb.
  - cbn. do 2 f_equal. lia.
  - cbn [length] in *. rewrite seqZ_succ. cbn [loop].
    pose proof (Hys 0%nat y eq_refl) as H0. rewrite Z.add_0_r in H0.
    pose proof (length_chg r y (k + 1)) as Hle.
    assert (body (prev, cnt) k =
            Some (y, cnt + (if decide (y = prev) then 0 else 1))) as ->.
    { unfold body. rewrite Hp. cbn [mbind option_bind]. rewrite H0.
      cbn [mbind option_bind]. unfold neq.
      destruct (Z.eqb_spec y prev) as [->|Hne]; cbn [negb].
      - rewrite decide_True by done. do 2 f_equal. lia.
      - rewrite decide_False by done. rewrite int_add_in by lia. done. }
    cbn [mbind option_bind]. rewrite IH.
    + f_equal. f_equal.
      * by rewrite last_cons.
      * cbn [chg]. rewrite length_app.
        destruct (decide (y = prev)); cbn [length]; lia.
    + intros i z Hz. replace (k + 1 + Z.of_nat i) with (k + Z.of_nat (S i)) by lia.
      by apply Hys.
    + destruct (decide (y = prev)); lia.
    + destruct (decide (y = prev)); lia.
Qed.

(** The writing loop, on a vector with room for [r] more cells after the
    [written] ones. *)
Lemma hash_write_loop ys : forall prev k (written : list Z) (r : nat),
  (forall i y, ys !! i = Some y ->
     load (cells m) p (k + Z.of_nat i) = Some y) ->
  0 <= k -> k + Z.of_nat (length ys) <= 2 ^ 31 - 1 ->
  Z.of_nat (length written) + 2 * Z.of_nat (length ys) <= 2 ^ 31 - 1 ->
  (2 * length (chg prev k ys) <= r)%nat ->
  loop (fun '(pRet, j, lastVal) i =>
          pColumn ← accessor Z m sc;
          val ← load (cells m) pColumn i;
          if neq val lastVal then
            pRet ← Template.put pRet j (wrap 32 i);
            j1 ← int_add j 1;
            pRet ← Template.put pRet j1 (wrap 32 (i + 1));
            j2 ← int_add j1 1;
            Some (pRet, j2, val)
          else Some (pRet, j, lastVal))
       (seqZ k (Z.of_nat (length ys)))
       ((Some <$> written) ++ replicate r None,
        Z.of_nat (length written), prev)
  = Some ((Some <$> (written ++ flat_map (fun i => [i; i + 1]) (chg prev k ys)))
            ++ replicate (r - 2 * length (chg prev k ys)) None,
          Z.of_nat (length (written ++
                              flat_map (fun i => [i; i + 1]) (chg prev k ys))),
          List.last ys prev).
Proof.
  match goal with |- context [loop ?b _ _] => set (body := b) end.
  induction ys as [|y ys IH]; intros prev k written r Hys Hk Hb Hj Hr.
  - cbn. rewrite app_nil_r, Nat.sub_0_r. done.
  - cbn [length] in *. rewrite seqZ_succ. cbn [loop].
    pose proof (Hys 0%nat y eq_refl) as H0. rewrite Z.add_0_r in H0.
    pose proof (length_chg ys y (k + 1)) as Hle.
    assert (forall i z, ys !! i = Some z ->
              load (cells m) p (k + 1 + Z.of_nat i) = Some z) as Hys'.
    { intros i z Hz. replace (k + 1 + Z.of_nat i) with (k + Z.of_nat (S i)) by lia.
      by apply Hys. }
    cbn [chg] in *. destruct (decide (y = prev)) as [->|Hne].
    + assert (body ((Some <$> written) ++ replicate r None,
                    Z.of_nat (length written), prev) k
              = Some ((Some <$> written) ++ replicate r None,
                      Z.of_nat (length written), prev)) as ->.
      { unfold body. rewrite Hp. cbn [mbind option_bind]. rewrite H0.
        cbn [mbind option_bind]. unfold neq. by rewrite Z.eqb_refl. }
      cbn [mbind option_bind app] in *. rewrite IH by (try done; lia).
      by rewrite last_cons.
    + cbn [app length] in Hr.
      destruct r as [|[|r]]; [lia|lia|].
      assert (body ((Some <$> written) ++ replicate (S (S r)) None,
                    Z.of_nat (length written), prev) k
              = Some ((Some <$> (written ++ [k; k + 1])) ++ replicate r None,
                      Z.of_nat (length (written ++ [k; k + 1])), y)) as ->.
      { unfold body. rewrite Hp. cbn [mbind option_bind]. rewrite H0.
        cbn [mbind option_bind]. unfold neq.
        destruct (Z.eqb_spec y prev) as [?|_]; [done|]. cbn [negb].
        cbn [replicate].
        replace (Z.of_nat (length written))
          with (Z.of_nat (length (Some <$> written)))
          by (by rewrite length_fmap).
        rewrite put_next. cbn [mbind option_bind].
        rewrite int_add_in by (rewrite length_fmap; lia).
        cbn [mbind option_bind].
        replace ((Some <$> written) ++ Some (wrap 32 k) :: None :: replicate r None)
          with (((Some <$> written) ++ [Some (wrap 32 k)]) ++
                None :: replicate r None)
          by (by rewrite <- app_assoc).
        replace (Z.of_nat (length (Some <$> written)) + 1)
          with (Z.of_nat (length ((Some <$> written) ++ [Some (wrap 32 k)])))
          by (rewrite length_app; cbn [length]; lia).
        rewrite put_next. cbn [mbind option_bind].
        rewrite int_add_in
          by (rewrite length_app, length_fmap; cbn [length]; lia).
        cbn [mbind option_bind].
        rewrite !wrap_32 by lia. rewrite fmap_app, <- !app_assoc. cbn [fmap list_fmap app].
        do 3 f_equal. rewrite !length_app, length_fmap. cbn [length]. lia. }
      cbn [mbind option_bind].
      rewrite IH; [|done|lia|lia|rewrite length_app; cbn [length]; lia|lia].
      cbn [flat_map app length]. rewrite <- !app_assoc. cbn [app].
      replace (S (S r) - 2 * S (length (chg y (k + 1) ys)))%nat
        with (r - 2 * length (chg y (k + 1) ys))%nat by lia.
      by rewrite last_cons.
Qed.

End Ranges.

Lemma length_pairs (l : list Z) :
  length (flat_map (fun i => [i; i + 1]) l) = (2 * length l)%nat.
Proof. induction l as [|i l IH]; [done|]. cbn [flat_map app length]. lia. Qed.

(** The template on a column of integers [x :: ys]. *)
Lemma MatrixHashRanges_runs (accessor : Accessor) (m : Mat Z) c x ys :
  in_int 64 c = true ->
  column_holds accessor m (c - 1) (x :: ys) ->
  Z.of_nat (length (x :: ys)) <= 2 ^ 30 - 1 ->
  MatrixHashRanges accessor (fun a b => negb (a =? b)) m (double_of_Z c)
  = Some (Some (Some <$> run_ranges (x :: ys))).
Proof.
  intros Hc (Hlen & p & Hp & Hxs) Hsmall. unfold MatrixHashRanges.
  rewrite index_of_double_of_Z by done. cbn [mbind option_bind].
  rewrite <- Hlen. cbn [length] in *.
  destruct (Z.eqb_spec (Z.of_nat (S (length ys))) 0) as [?|_]; [lia|].
  pose proof (Hxs 0%nat x eq_refl) as H0. change (Z.of_nat 0) with 0 in H0.
  replace (Z.of_nat (S (length ys)) - 1) with (Z.of_nat (length ys)) by lia.
  assert (forall i y, ys !! i = Some y ->
            load (cells m) p (1 + Z.of_nat i) = Some y) as Hys.
  { intros i y Hy. replace (1 + Z.of_nat i) with (Z.of_nat (S i)) by lia.
    by apply Hxs. }
  pose proof (length_chg ys x 1) as Hle.
  pose proof (hash_count_loop accessor m (c - 1) p Hp ys x 1 1 Hys) as L1.
  pose proof (hash_write_loop accessor m (c - 1) p Hp ys x 1 [1]
                (S (2 * length (chg x 1 ys))) Hys) as L2.
  rewrite Hp in *. cbn [mbind option_bind] in L1, L2 |- *. rewrite H0.
  cbn [mbind option_bind].
  rewrite L1 by lia. clear L1.
  cbn [mbind option_bind snd fst].
  rewrite int_mul_in by lia. cbn [mbind option_bind].
  replace (Z.to_nat ((1 + Z.of_nat (length (chg x 1 ys))) * 2))
    with (S (S (2 * length (chg x 1 ys)))) by lia.
  change (replicate (S (S (2 * length (chg x 1 ys)))) None)
    with (@nil (option Z) ++ None :: replicate (S (2 * length (chg x 1 ys))) None).
  change 0 with (Z.of_nat (length (@nil (option Z)))) at 1.
  rewrite put_next. cbn [mbind option_bind app].
  change (Some 1 :: replicate (S (2 * length (chg x 1 ys))) None)
    with ((Some <$> [1]) ++ replicate (S (2 * length (chg x 1 ys))) None).
  change (Z.of_nat (length [1])) with 1 in L2.
  rewrite L2 by (cbn [length]; lia). clear L2.
  cbn [mbind option_bind snd fst].
  replace (S (2 * length (chg x 1 ys)) - 2 * length (chg x 1 ys))%nat
    with 1%nat by lia.
  cbn [replicate].
  replace ((1 + Z.of_nat (length (chg x 1 ys))) * 2 - 1)
    with (Z.of_nat (length (Some <$> [1] ++
                              flat_map (fun i => [i; i + 1]) (chg x 1 ys)))).
  2:{ rewrite length_fmap, length_app, length_pairs. cbn [length]. lia. }
  rewrite put_next. cbn [mbind option_bind].
  rewrite wrap_32 by lia.
  unfold run_ranges. rewrite <- chg_changes. cbn [length].
  rewrite !fmap_app. cbn [fmap list_fmap app]. by rewrite <- ?app_assoc.
Qed.

(** X20: [MatrixHashRanges] on a column of an integer matrix.  For a
    column of at least one and fewer than [2^30] rows it returns the runs
    of equal consecutive cells as pairs of first and last row, counted
    from 1: it starts with 1, has the rows [i] and [i + 1] for every row
    [i] whose cell differs from the one below it, and ends with the
    number of rows.  The first pass counts exactly the cells the second
    pass writes, so every cell of the result is assigned and none is
    written outside it. *)
Theorem MatrixHashRanges_lists_runs pMat m c x ys :
  matrix_type pMat = 1 \/ matrix_type pMat = 2 \/ matrix_type pMat = 4 ->
  ints_of pMat = Some m ->
  in_int 64 c = true ->
  column_holds (accessor_of pMat) m (c - 1) (x :: ys) ->
  Z.of_nat (length (x :: ys)) <= 2 ^ 30 - 1 ->
  MatrixHashRanges_entry pMat (double_of_Z c)
  = Some (Some (Some <$> run_ranges (x :: ys))).
Proof.
  intros Ht Hm Hc Hcol Hsmall. unfold MatrixHashRanges_entry.
  pose proof (MatrixHashRanges_runs _ _ _ _ _ Hc Hcol Hsmall) as Hruns.
  destruct Ht as [-> | [-> | ->]]; rewrite Hm; cbn [mbind option_bind];
    exact Hruns.
Qed.

Lemma MatrixHashRanges_lists_runs_witness :
  MatrixHashRanges_entry
    (MkBigMatrix 5 1 4 false (Ints [[3; 3; 8; 8; 3]])) (double_of_Z 1)
  = Some (Some (Some <$> [1; 2; 3; 4; 5; 5])).
Proof.
  apply (MatrixHashRanges_lists_runs
           (MkBigMatrix 5 1 4 false (Ints [[3; 3; 8; 8; 3]]))
           (MkMat 5 1 [[3; 3; 8; 8; 3]]) 1 3 [3; 8; 8; 3]).
  - right. by right.
  - reflexivity.
  - reflexivity.
  - split; [reflexivity|]. exists (0%nat, 0). split; [reflexivity|].
    intros [|[|[|[|[|i]]]]] y Hy; try discriminate; by injection Hy as <-.
  - cbn. lia.
Defined.

End Scanning.

(** * The lock entry points *)

Section LockEntryPoints.
Import Shared Elements Locks.

#[local] Arguments double_of_Z : simpl never.
#[local] Arguments index_of_double : simpl never.

Lemma indexes_whole ks :
  (forall k, k ∈ ks -> - 2 ^ 63 <= k <= 2 ^ 63 - 1) ->
  indexes (whole ks) = Some ((fun k => k - 1) <$> ks).
Proof.
  unfold indexes. induction ks as [|k ks IH]; intros Hr; [done|].
  cbn [whole fmap list_fmap mapM]. fold (whole ks).
  rewrite index_of_double_of_Z by (apply in_int_64, Hr; left).
  cbn [mbind option_bind]. rewrite IH by (intros x Hx; apply Hr; by right).
  done.
Qed.

(** A column index outside the lock table stops the loop over the
    columns: the behaviour is undefined from there. *)
Lemma column_calls_outside s cols op :
  (exists c, c ∈ cols /\
     (c < 0 \/ Z.of_nat (length (_mutexPtrs (this s))) <= c)) ->
  for_each cols (fun c => m ← mutex_at c; BigMemoryMutex_call m op) s
  = Undefined.
Proof.
  revert s. induction cols as [|c cols IH]; intros s (x & Hx & Hout).
  - by apply elem_of_nil in Hx.
  - cbn [for_each]. rewrite bind_eq, bind_eq, mutex_at_eq.
    destruct (Z.ltb_spec c 0) as [?|Hc]; [done|].
    destruct (_mutexPtrs (this s) !! Z.to_nat c) as [n|] eqn:En; [|done].
    rewrite BigMemoryMutex_call_eq. apply IH.
    apply lookup_lt_Some in En.
    apply elem_of_cons in Hx as [->|Hx]; [lia|]. exists x. split; [done|].
    exact Hout.
Qed.

Lemma selects_created u ncol o ks :
  _mutexPtrs o = column_mutex_name u <$> upto ncol ->
  (forall k, k ∈ ks -> 1 <= k <= ncol) ->
  selects o ((fun k => k - 1) <$> ks)
          ((fun k => column_mutex_name u (k - 1)) <$> ks).
Proof.
  intros Hp Hks. unfold selects. apply Forall2_fmap, Forall_Forall2_diag.
  apply Forall_forall. intros k Hk. specialize (Hks k Hk). split; [lia|].
  rewrite Hp, list_lookup_fmap. unfold upto.
  rewrite lookup_seqZ_lt by lia. cbn. do 2 f_equal. lia.
Qed.

(** X21: the lock entry points count columns from 1.  On an object whose
    lock table is the one [create] or [connect] made for [ncol] columns
    of [u], [BigMatrixRLock] with the R columns [ks], all from 1 to
    [ncol], takes the structural lock, read-locks the lock of column
    [k - 1] for each [k] in the order given, and releases the structural
    lock; [BigMatrixRWLock] does the same with write locks;
    [BigMatrixRelease] unlocks the same column locks and leaves the
    structural lock alone.  With a column below 1 or above [ncol] the
    three index the lock table outside its bounds: nothing checks the
    column, and the behaviour is undefined. *)
Theorem lock_entry_points_count_from_one u ncol s ks :
  _mutexPtrs (this s) = column_mutex_name u <$> upto ncol ->
  _mutexLock (this s) = Some (mutex_lock_name u) ->
  (forall k, k ∈ ks -> - 2 ^ 63 <= k <= 2 ^ 63 - 1) ->
  let names := (fun k => column_mutex_name u (k - 1)) <$> ks in
  ((forall k, k ∈ ks -> 1 <= k <= ncol) ->
   BigMatrixRLock (whole ks) s
     = Ok tt (log (batched_calls (mutex_lock_name u) names op_read_lock) s) /\
   BigMatrixRWLock (whole ks) s
     = Ok tt (log (batched_calls (mutex_lock_name u) names op_read_write_lock) s) /\
   BigMatrixRelease (whole ks) s
     = Ok tt (log ((fun n => (n, op_unlock)) <$> names) s)) /\
  ((exists k, k ∈ ks /\ (k < 1 \/ ncol < k)) ->
   BigMatrixRLock (whole ks) s = Undefined /\
   BigMatrixRWLock (whole ks) s = Undefined /\
   BigMatrixRelease (whole ks) s = Undefined).
Proof.
  intros Hp Hl Hr names.
  unfold BigMatrixRLock, BigMatrixRWLock, BigMatrixRelease, with_indexes.
  rewrite indexes_whole by done. split.
  - intros Hks. pose proof (selects_created u ncol (this s) ks Hp Hks) as Hsel.
    unfold bind.
    rewrite (read_lock_calls s _ _ _ Hl Hsel),
            (read_write_lock_calls s _ _ _ Hl Hsel),
            (unlock_calls s _ _ Hsel).
    done.
  - intros (k & Hk & Hout).
    assert (exists c, c ∈ (fun k => k - 1) <$> ks /\
              (c < 0 \/ Z.of_nat (length (_mutexPtrs (this s))) <= c)) as Hbad.
    { exists (k - 1). split; [apply list_elem_of_fmap; by exists k|].
      rewrite Hp, length_fmap. unfold upto. rewrite length_seqZ. lia. }
    unfold bind, read_lock, read_write_lock, unlock, structural_lock.
    rewrite !bind_eq, get_this_eq, Hl. cbn.
    rewrite !bind_eq, !BigMemoryMutex_call_eq.
    rewrite !bind_eq.
    rewrite (column_calls_outside s _ _ Hbad).
    rewrite !(column_calls_outside (log _ s)) by exact Hbad.
    done.
Qed.

Lemma lock_entry_points_count_from_one_witness :
  BigMatrixRLock (whole [2; 1]) two_columns
    = Ok tt (log (batched_calls "u_mutex_lock"
                    ["u_column_1mutex"; "u_column_0mutex"] op_read_lock)
               two_columns) /\
  BigMatrixRelease (whole [3]) two_columns = Undefined.
Proof.
  destruct (lock_entry_points_count_from_one "u" 2 two_columns [2; 1])
    as [Hin _]; [reflexivity|reflexivity| |].
  { apply Forall_forall. repeat constructor; lia. }
  destruct (lock_entry_points_count_from_one "u" 2 two_columns [3])
    as [_ Hout]; [reflexivity|reflexivity| |].
  { apply Forall_forall. repeat constructor; lia. }
  split.
  - apply Hin. apply Forall_forall. repeat constructor; lia.
  - apply Hout. exists 3. split; [apply list_elem_of_singleton; reflexivity|lia].
Defined.

End LockEntryPoints.

(** * Reading and writing cells *)

(** The cell of column [i] and row [j], both counted from 0, as the
    accessor reaches it. *)
Definition cell {T} (accessor : Elements.Accessor) (m : Elements.Mat T)
    (i j : Z) : option T :=
  p ← accessor T m i; Elements.load (Elements.cells m) p j.

(** The buffer and the place in it that [pColumn[j]] names. *)
Definition slot (p : Elements.ptr) (j : Z) : nat * Z := (p.1, p.2 + j).

(** An accessor is regular on a matrix when every column has its [nrow]
    cells, no cell belongs to two columns or two rows, and the columns
    stay where they are when cells are assigned. *)
Definition regular {T} (accessor : Elements.Accessor) (m : Elements.Mat T)
  : Prop :=
  (forall i, 0 <= i < Elements.num_columns m ->
     exists p, accessor T m i = Some p /\
       forall j, 0 <= j < Elements.num_rows m ->
         is_Some (Elements.load (Elements.cells m) p j)) /\
  (forall i i' p p' j j',
     0 <= i < Elements.num_columns m -> 0 <= i' < Elements.num_columns m ->
     0 <= j < Elements.num_rows m -> 0 <= j' < Elements.num_rows m ->
     accessor T m i = Some p -> accessor T m i' = Some p' ->
     slot p j = slot p' j' -> i = i' /\ j = j') /\
  (forall bufs i,
     length bufs = length (Elements.cells m) ->
     accessor T (Elements.MkMat (Elements.num_rows m) (Elements.num_columns m) bufs) i
     = accessor T m i).

Section Cells.
Import Elements.
Context {T : Type}.

Lemma load_slot (bufs : list (list T)) p j :
  load bufs p j = load bufs (slot p j) 0.
Proof. unfold load, slot. cbn. by rewrite Z.add_0_r. Qed.

Lemma store_slot' (bufs : list (list T)) p j v :
  store bufs p j v = store bufs (slot p j) 0 v.
Proof. unfold store, slot. cbn. by rewrite Z.add_0_r. Qed.

Lemma store_Some (bufs : list (list T)) p j v :
  is_Some (load bufs p j) -> is_Some (store bufs p j v).
Proof.
  unfold load, store. destruct (Z.leb_spec 0 (p.2 + j)) as [Hle|?]; [|by intros [? ?]].
  destruct (bufs !! p.1) as [b|]; cbn; [|by intros [? ?]].
  intros [x Hx]. apply lookup_lt_Some in Hx.
  destruct (Z.ltb_spec (p.2 + j) (Z.of_nat (length b))) as [?|?]; [|lia].
  cbn. eauto.
Qed.

Lemma store_length (bufs bufs' : list (list T)) p j v :
  store bufs p j v = Some bufs' -> length bufs' = length bufs.
Proof.
  unfold store. destruct (bufs !! p.1) as [b|]; cbn; [|done].
  destruct (_ && _); [|done]. intros [= <-]. by rewrite length_insert.
Qed.

Lemma load_store_same (bufs bufs' : list (list T)) p j v :
  store bufs p j v = Some bufs' -> load bufs' p j = Some v.
Proof.
  unfold store, load. destruct (bufs !! p.1) as [b|] eqn:Eb; cbn; [|done].
  destruct (Z.leb_spec 0 (p.2 + j)) as [Hle|?]; [|done].
  destruct (Z.ltb_spec (p.2 + j) (Z.of_nat (length b))) as [Hlt|?]; [|done].
  cbn. intros [= <-]. apply lookup_lt_Some in Eb.
  rewrite list_lookup_insert_eq by done. cbn.
  apply list_lookup_insert_eq. lia.
Qed.

Lemma load_store_other (bufs bufs' : list (list T)) p j v q j' :
  store bufs p j v = Some bufs' -> slot q j' <> slot p j ->
  load bufs' q j' = load bufs q j'.
Proof.
  unfold store, load, slot. destruct (bufs !! p.1) as [b|] eqn:Eb; cbn; [|done].
  destruct (Z.leb_spec 0 (p.2 + j)) as [Hle|?]; [|done].
  destruct (Z.ltb_spec (p.2 + j) (Z.of_nat (length b))) as [Hlt|?]; [|done].
  cbn. intros [= <-] Hne.
  destruct (Z.leb_spec 0 (q.2 + j')) as [Hle'|?]; [|done].
  destruct (decide (q.1 = p.1)) as [E|Hn].
  - rewrite E, list_lookup_insert_eq by (by apply lookup_lt_Some in Eb).
    rewrite Eb. cbn. apply list_lookup_insert_ne. intros Heq.
    apply Hne. f_equal; [done|lia].
  - by rewrite list_lookup_insert_ne.
Qed.

Lemma load_store_valid (bufs bufs' : list (list T)) p j v q j' :
  store bufs p j v = Some bufs' ->
  is_Some (load bufs q j') -> is_Some (load bufs' q j').
Proof.
  intros Hs Hq. destruct (decide (slot q j' = slot p j)) as [E|Hne].
  - rewrite load_slot, E, <- load_slot. rewrite (load_store_same _ _ _ _ _ Hs). eauto.
  - by rewrite (load_store_other _ _ _ _ _ _ _ Hs Hne).
Qed.

End Cells.

Section Loops.
Import Elements.

Lemma put_at {A} (l : list (option A)) x t v :
  Template.put (l ++ x :: t) (Z.of_nat (length l)) v = Some (l ++ Some v :: t).
Proof.
  unfold Template.put. rewrite length_app. cbn [length].
  assert ((0 <=? Z.of_nat (length l)) &&
          (Z.of_nat (length l) <? Z.of_nat (length l + S (length t))) = true)
    as -> by (apply andb_true_intro; split; [apply Z.leb_le|apply Z.ltb_lt]; lia).
  rewrite Nat2Z.id, insert_app_r_alt, Nat.sub_diag by lia. done.
Qed.

Lemma loop_fmap {S A B} (body : S -> B -> option S) (f : A -> B) l s :
  loop body (f <$> l) s = loop (fun s a => body s (f a)) l s.
Proof.
  revert s. induction l as [|a l IH]; intros s; [done|].
  cbn. destruct (body s (f a)); cbn; [apply IH|done].
Qed.

Lemma loop_ext {S A} (body1 body2 : S -> A -> option S) l s :
  (forall s a, a ∈ l -> body1 s a = body2 s a) ->
  loop body1 l s = loop body2 l s.
Proof.
  revert s. induction l as [|a l IH]; intros s H; [done|].
  cbn. rewrite H by left. destruct (body2 s a); cbn; [|done].
  apply IH. intros s' x Hx. apply H. by right.
Qed.

Lemma whole_seqZ n :
  whole (seqZ 1 n) = (fun i => double_of_Z (i + 1)) <$> seqZ 0 n.
Proof.
  unfold whole. change (seqZ 1 n) with (seqZ (1 + 0) n).
  rewrite <- (fmap_add_seqZ 1 0 n), <- list_fmap_compose.
  apply list_fmap_ext. intros _ i _. cbn. f_equal. lia.
Qed.

End Loops.

(** ** The two accessors on matrices of the shape [create] makes *)

Section Shapes.
Import Elements.
Context {T : Type}.

#[local] Arguments load : simpl never.

(** One buffer with room for all the cells. *)
Lemma regular_contiguous (m : Mat T) b :
  0 <= num_rows m ->
  cells m !! 0%nat = Some b ->
  num_rows m * num_columns m <= Z.of_nat (length b) ->
  regular BigMatrixAccessor m.
Proof.
  intros Hr Hb Hlen. split; [|split].
  - intros i Hi. exists (0%nat, i * num_rows m). split; [done|].
    intros j Hj. unfold load. cbn [fst snd].
    assert (0 <= i * num_rows m + j < num_rows m * num_columns m) by nia.
    destruct (Z.leb_spec 0 (i * num_rows m + j)); [|lia].
    rewrite Hb. cbn. apply lookup_lt_is_Some. lia.
  - intros i i' p p' j j' Hi Hi' Hj Hj' [= <-] [= <-]. unfold slot. cbn.
    intros [= E].
    assert (i = i') as ->.
    { destruct (Z.lt_trichotomy i i') as [H|[H|H]]; [exfalso|done|exfalso].
      - assert (num_rows m <= (i' - i) * num_rows m) by nia. lia.
      - assert (num_rows m <= (i - i') * num_rows m) by nia. lia. }
    split; [done|lia].
  - done.
Qed.


End Shapes.

(** ** The range check and the sentinel at the integer types *)

Section Sentinels.
Import Elements.

#[local] Arguments double_of_Z : simpl never.

Lemma sentinel_ok_inv w na lo hi :
  sentinel_ok w na lo hi = true ->
  in_int w na = true /\ in_int w lo = true /\ in_int w hi = true /\
  lo <= hi /\ (na < lo \/ hi < na).
Proof. unfold sentinel_ok, in_int. intros H. repeat split; lia. Qed.

Lemma in_int_between w lo hi v :
  in_int w lo = true -> in_int w hi = true -> lo <= v <= hi -> in_int w v = true.
Proof. unfold in_int. lia. Qed.

(** What the writers store for one value of the vector. *)
Definition checked (na lo hi v : Z) : Z :=
  if (v <? lo) || (hi <? v) then na else v.

Lemma range_checked_int w na lo hi v :
  0 < w -> sentinel_ok w na lo hi = true ->
  Template.range_checked (int_conv w) (double_of_Z na) (double_of_Z lo)
    (double_of_Z hi) v
  = Some (checked na lo hi v).
Proof.
  intros Hw Hs. apply sentinel_ok_inv in Hs as (Hna & Hlo & Hhi & Hle & _).
  unfold Template.range_checked, checked. cbn [r_double c_of_double c_of_r int_conv].
  rewrite !dlt_of_Z.
  destruct ((v <? lo) || (hi <? v)) eqn:E.
  - by rewrite int_of_double_of_Z, Hna.
  - f_equal. apply wrap_id; [done|].
    apply (in_int_between w lo hi); [done|done|lia].
Qed.

(** What the readers return for one cell. *)
Definition shown (na NA_R x : Z) : Z := if x =? na then NA_R else x.

Lemma element_int w na NA_R (bufs : list (list Z)) p j x :
  in_int w na = true -> in_int 32 NA_R = true ->
  load bufs p j = Some x ->
  Template.element (int_conv w) bufs p j (double_of_Z na) (double_of_Z NA_R)
  = Some (shown na NA_R x).
Proof.
  intros Hna HR Hx. unfold Template.element, shown. rewrite Hx.
  cbn [mbind option_bind c_of_double c_eqb r_of_double r_of_c int_conv].
  rewrite (int_of_double_of_Z w na), Hna. cbn [mbind option_bind].
  destruct (x =? na); [|done]. by rewrite (int_of_double_of_Z 32 NA_R), HR.
Qed.

End Sentinels.

(** * The writers and the readers *)

Section Writers.
Import Elements.
Context {CType RType : Type}.
Variable conv : Conv CType RType.
Variable accessor : Accessor.

#[local] Arguments double_of_Z : simpl never.
#[local] Arguments index_of_double : simpl never.
#[local] Arguments load : simpl never.
#[local] Arguments store : simpl never.

Lemma column_at_whole (pMat : Mat CType) i :
  - 2 ^ 63 <= i + 1 <= 2 ^ 63 - 1 ->
  Template.column_at accessor pMat (double_of_Z (i + 1)) = accessor CType pMat i.
Proof.
  intros Hi. unfold Template.column_at.
  rewrite index_of_double_of_Z by (by apply in_int_64). cbn.
  by replace (i + 1 - 1) with i by lia.
Qed.

(** The three bulk writers are [SetMatrixElements] on full index ranges. *)
Lemma bulk_writers_full_ranges (pMat : Mat CType)
    (col row : list double) (values : list RType) NA_C C_MIN C_MAX NA_R :
  num_rows pMat <= 2 ^ 63 - 1 ->
  num_columns pMat <= 2 ^ 63 - 1 ->
  Template.SetMatrixAll conv accessor pMat values NA_C C_MIN C_MAX NA_R
  = Template.SetMatrixElements conv accessor pMat
      (whole (seqZ 1 (num_columns pMat))) (whole (seqZ 1 (num_rows pMat)))
      values NA_C C_MIN C_MAX NA_R /\
  Template.SetMatrixCols conv accessor pMat col values NA_C C_MIN C_MAX NA_R
  = Template.SetMatrixElements conv accessor pMat
      col (whole (seqZ 1 (num_rows pMat))) values NA_C C_MIN C_MAX NA_R /\
  Template.SetMatrixRows conv accessor pMat row values NA_C C_MIN C_MAX NA_R
  = Template.SetMatrixElements conv accessor pMat
      (whole (seqZ 1 (num_columns pMat))) row values NA_C C_MIN C_MAX NA_R.
Proof.
  intros Hr Hc.
  assert (forall (pColumn : ptr) (s : list (list CType) * Z),
    loop (fun '(bufs, k) rj =>
            v ← Template.next_value conv values NA_C C_MIN C_MAX k;
            j ← index_of_double rj;
            bufs' ← store bufs pColumn (j - 1) v;
            Some (bufs', k + 1))
         (whole (seqZ 1 (num_rows pMat))) s
    = loop (fun '(bufs, k) j =>
              v ← Template.next_value conv values NA_C C_MIN C_MAX k;
              bufs' ← store bufs pColumn j v;
              Some (bufs', k + 1))
           (below (num_rows pMat)) s) as Hrows.
  { intros pColumn s. rewrite whole_seqZ, loop_fmap. apply loop_ext.
    intros [bufs k] j Hj. apply elem_of_seqZ in Hj.
    destruct (Template.next_value conv values NA_C C_MIN C_MAX k); [|done].
    cbn [mbind option_bind].
    rewrite index_of_double_of_Z by (apply in_int_64; lia).
    cbn [mbind option_bind]. by replace (j + 1 - 1) with j by lia. }
  unfold Template.SetMatrixAll, Template.SetMatrixCols, Template.SetMatrixRows,
    Template.SetMatrixElements.
  split; [|split].
  - f_equal. rewrite (whole_seqZ (num_columns pMat)), loop_fmap.
    symmetry. apply loop_ext.
    intros [bufs k] i Hi. apply elem_of_seqZ in Hi.
    rewrite column_at_whole by lia.
    destruct (accessor CType pMat i); [|done]. cbn [mbind option_bind].
    apply Hrows.
  - f_equal. symmetry. apply loop_ext. intros [bufs k] ci _.
    destruct (Template.column_at accessor pMat ci); [|done].
    cbn [mbind option_bind]. apply Hrows.
  - f_equal. rewrite (whole_seqZ (num_columns pMat)), loop_fmap.
    symmetry. apply loop_ext.
    intros [bufs k] i Hi. apply elem_of_seqZ in Hi.
    rewrite column_at_whole by lia. done.
Qed.

(** X22: the three bulk writers are [SetMatrixElements] on full index
    ranges.  [SetMatrixAll] writes what [SetMatrixElements] writes for the
    columns [1 .. ncol] and the rows [1 .. nrow]; [SetMatrixCols] for the
    given columns and the rows [1 .. nrow]; [SetMatrixRows] for the
    columns [1 .. ncol] and the given rows: the same cells, the same
    values in the same order, and undefined in the same cases. *)
Theorem bulk_writers_are_SetMatrixElements (pMat : Mat CType)
    (col row : list double) (values : list RType) NA_C C_MIN C_MAX NA_R :
  num_rows pMat <= 2 ^ 63 - 1 ->
  num_columns pMat <= 2 ^ 63 - 1 ->
  Template.SetMatrixAll conv accessor pMat values NA_C C_MIN C_MAX NA_R
  = Template.SetMatrixElements conv accessor pMat
      (whole (seqZ 1 (num_columns pMat))) (whole (seqZ 1 (num_rows pMat)))
      values NA_C C_MIN C_MAX NA_R /\
  Template.SetMatrixCols conv accessor pMat col values NA_C C_MIN C_MAX NA_R
  = Template.SetMatrixElements conv accessor pMat
      col (whole (seqZ 1 (num_rows pMat))) values NA_C C_MIN C_MAX NA_R /\
  Template.SetMatrixRows conv accessor pMat row values NA_C C_MIN C_MAX NA_R
  = Template.SetMatrixElements conv accessor pMat
      (whole (seqZ 1 (num_columns pMat))) row values NA_C C_MIN C_MAX NA_R.
Proof. apply bulk_writers_full_ranges. Qed.


(** ** What [SetMatrixElements] leaves in the cells *)

Section Recycling.
Variable pMat : Mat CType.
Variable values : list RType.
Variables NA_C C_MIN C_MAX : double.
Variable f : RType -> CType.
Hypothesis Hvalues : values <> [].
Hypothesis Hf : forall v, v ∈ values ->
  Template.range_checked conv NA_C C_MIN C_MAX v = Some (f v).

(** The value the [k]-th assignment takes from the vector. *)
Lemma next_value_recycles k :
  0 <= k ->
  exists v,
    values !! Z.to_nat (k mod Z.of_nat (length values)) = Some v /\
    Template.next_value conv values NA_C C_MIN C_MAX k = Some (f v).
Proof.
  intros Hk. unfold Template.next_value, modulo.
  assert (0 < Z.of_nat (length values)) as Hlen by (destruct values; [done|cbn; lia]).
  destruct (Z.eqb_spec (Z.of_nat (length values)) 0) as [?|_]; [lia|].
  cbn [mbind option_bind]. rewrite Z.rem_mod_nonneg by lia.
  pose proof (Z.mod_pos_bound k (Z.of_nat (length values)) Hlen) as Hb.
  destruct (values !! Z.to_nat (k mod Z.of_nat (length values))) as [v|] eqn:Ev.
  - exists v. split; [done|]. cbn [mbind option_bind]. apply Hf.
    by apply list_elem_of_lookup_2 in Ev.
  - apply lookup_ge_None in Ev. lia.
Qed.

Lemma write_rows (p : ptr) rs : forall bufs k,
  0 <= k -> NoDup rs ->
  (forall r, r ∈ rs -> - 2 ^ 63 <= r <= 2 ^ 63 - 1) ->
  (forall r, r ∈ rs -> is_Some (load bufs p (r - 1))) ->
  exists bufs',
    loop (fun '(bufs, k) rj =>
            v ← Template.next_value conv values NA_C C_MIN C_MAX k;
            j ← index_of_double rj;
            bufs' ← store bufs p (j - 1) v;
            Some (bufs', k + 1))
         (whole rs) (bufs, k)
    = Some (bufs', k + Z.of_nat (length rs)) /\
    length bufs' = length bufs /\
    (forall b r, rs !! b = Some r ->
       exists v,
         values !! Z.to_nat ((k + Z.of_nat b) mod Z.of_nat (length values))
           = Some v /\
         load bufs' p (r - 1) = Some (f v)) /\
    (forall q j, (forall r, r ∈ rs -> slot q j <> slot p (r - 1)) ->
       load bufs' q j = load bufs q j) /\
    (forall q j, is_Some (load bufs q j) -> is_Some (load bufs' q j)).
Proof.
  match goal with |- context [loop ?b _ _] => set (body := b) end.
  induction rs as [|r rs IH]; intros bufs k Hk Hnd Hr Hvalid.
  - exists bufs. cbn. rewrite Z.add_0_r. repeat split; try done.
  - apply NoDup_cons in Hnd as [Hnotin Hnd].
    destruct (next_value_recycles k Hk) as (v0 & Hv0 & Hnext).
    destruct (store_Some bufs p (r - 1) (f v0)) as [bufs1 Hst];
      [apply Hvalid; left|].
    assert (body (bufs, k) (double_of_Z r) = Some (bufs1, k + 1)) as Hstep.
    { unfold body. rewrite Hnext. cbn [mbind option_bind].
      rewrite index_of_double_of_Z by (apply in_int_64, Hr; left).
      cbn [mbind option_bind]. by rewrite Hst. }
    destruct (IH bufs1 (k + 1)) as (bufs' & Hrun & Hlen & Hw & Hother & Hval);
      [lia|done|intros x Hx; apply Hr; by right| |].
    { intros x Hx. eapply load_store_valid; [exact Hst|].
      apply Hvalid. by right. }
    exists bufs'. cbn [whole fmap list_fmap loop]. fold (whole rs).
    rewrite Hstep. cbn [mbind option_bind]. rewrite Hrun.
    split; [do 2 f_equal; cbn [length]; lia|].
    split; [rewrite Hlen; by eapply store_length|].
    split; [|split].
    + intros [|b] x Hb.
      * injection Hb as <-. exists v0. rewrite Z.add_0_r. split; [done|].
        rewrite Hother.
        -- by eapply load_store_same.
        -- intros x Hx E. unfold slot in E. injection E as E.
           assert (x = r) as -> by lia. done.
      * destruct (Hw b x Hb) as (v & Hv & Hl). exists v. split; [|done].
        by replace (k + Z.of_nat (S b)) with (k + 1 + Z.of_nat b) by lia.
    + intros q j Hq. rewrite Hother by (intros x Hx; apply Hq; by right).
      eapply load_store_other; [exact Hst|]. apply Hq. left.
    + intros q j Hq. apply Hval. by eapply load_store_valid.
Qed.

Lemma write_cols rs :
  NoDup rs ->
  (forall r, r ∈ rs -> 1 <= r <= num_rows pMat) ->
  num_rows pMat <= 2 ^ 63 - 1 -> num_columns pMat <= 2 ^ 63 - 1 ->
  regular accessor pMat ->
  forall cs bufs k,
  0 <= k -> NoDup cs ->
  (forall c, c ∈ cs -> 1 <= c <= num_columns pMat) ->
  (forall i j p, 0 <= i < num_columns pMat -> 0 <= j < num_rows pMat ->
     accessor CType pMat i = Some p -> is_Some (load bufs p j)) ->
  exists bufs',
    loop (fun '(bufs, k) ci =>
            pColumn ← Template.column_at accessor pMat ci;
            loop (fun '(bufs, k) rj =>
                    v ← Template.next_value conv values NA_C C_MIN C_MAX k;
                    j ← index_of_double rj;
                    bufs' ← store bufs pColumn (j - 1) v;
                    Some (bufs', k + 1))
                 (whole rs) (bufs, k))
         (whole cs) (bufs, k)
    = Some (bufs', k + Z.of_nat (length cs) * Z.of_nat (length rs)) /\
    length bufs' = length bufs /\
    (forall a b c r, cs !! a = Some c -> rs !! b = Some r ->
       exists v p,
         values !! Z.to_nat ((k + Z.of_nat a * Z.of_nat (length rs) + Z.of_nat b)
                             mod Z.of_nat (length values)) = Some v /\
         accessor CType pMat (c - 1) = Some p /\
         load bufs' p (r - 1) = Some (f v)) /\
    (forall q j,
       (forall c r p, c ∈ cs -> r ∈ rs -> accessor CType pMat (c - 1) = Some p ->
          slot q j <> slot p (r - 1)) ->
       load bufs' q j = load bufs q j) /\
    (forall q j, is_Some (load bufs q j) -> is_Some (load bufs' q j)).
Proof.
  intros Hndr Hrs Hnr Hnc (Hcols & Hinj & _).
  match goal with |- context [loop ?b (whole _) (_, _)] => set (body := b) end.
  induction cs as [|c cs IH]; intros bufs k Hk Hnd Hcs Hvalid.
  - exists bufs. cbn. rewrite Z.add_0_r. repeat split; try done.
  - apply NoDup_cons in Hnd as [Hnotin Hnd].
    assert (1 <= c <= num_columns pMat) as Hc by (apply Hcs; left).
    destruct (Hcols (c - 1)) as (p & Hp & _); [lia|].
    destruct (write_rows p rs bufs k Hk Hndr)
      as (bufs1 & Hrun1 & Hlen1 & Hw1 & Hother1 & Hval1).
    { intros r Hr. specialize (Hrs r Hr). lia. }
    { intros r Hr. specialize (Hrs r Hr). apply (Hvalid (c - 1)); [lia|lia|done]. }
    assert (body (bufs, k) (double_of_Z c)
            = Some (bufs1, k + Z.of_nat (length rs))) as Hstep.
    { unfold body. replace c with (c - 1 + 1) at 1 by lia.
      rewrite column_at_whole by lia. rewrite Hp. cbn [mbind option_bind].
      exact Hrun1. }
    destruct (IH bufs1 (k + Z.of_nat (length rs)))
      as (bufs' & Hrun & Hlen & Hw & Hother & Hval);
      [lia|done|intros x Hx; apply Hcs; by right| |].
    { intros i j q Hi Hj Hq. apply Hval1. by eapply Hvalid. }
    exists bufs'. cbn [whole fmap list_fmap loop]. fold (whole cs).
    rewrite Hstep. cbn [mbind option_bind]. rewrite Hrun.
    split; [do 2 f_equal; cbn [length]; lia|].
    split; [congruence|]. split; [|split].
    + intros [|a] b x r Ha Hb.
      * injection Ha as <-. destruct (Hw1 b r Hb) as (v & Hv & Hl).
        exists v, p. split; [|split; [done|]].
        { by replace (k + Z.of_nat 0 * Z.of_nat (length rs) + Z.of_nat b)
            with (k + Z.of_nat b) by lia. }
        rewrite Hother; [done|].
        intros c' r' p' Hc' Hr' Hp' E.
        assert (1 <= c' <= num_columns pMat) by (apply Hcs; by right).
        pose proof (Hrs r (list_elem_of_lookup_2 _ _ _ Hb)).
        pose proof (Hrs r' Hr').
        destruct (Hinj (c - 1) (c' - 1) p p' (r - 1) (r' - 1)) as [E1 _];
          try done; try lia.
        assert (c = c') as -> by lia. done.
      * destruct (Hw a b x r Ha Hb) as (v & q & Hv & Hq & Hl).
        exists v, q. split; [|done].
        by replace (k + Z.of_nat (S a) * Z.of_nat (length rs) + Z.of_nat b)
          with (k + Z.of_nat (length rs) + Z.of_nat a * Z.of_nat (length rs)
                + Z.of_nat b) by lia.
    + intros q j Hq. rewrite Hother.
      * apply Hother1. intros r Hr. apply (Hq c r p); [left|done|done].
      * intros c' r' p' Hc' Hr' Hp'. apply (Hq c' r' p'); [by right|done|done].
    + intros q j Hq. by apply Hval, Hval1.
Qed.

(** What [SetMatrixElements] leaves in the matrix. *)
Lemma SetMatrixElements_cells cs rs NA_R :
  regular accessor pMat ->
  num_rows pMat <= 2 ^ 63 - 1 -> num_columns pMat <= 2 ^ 63 - 1 ->
  NoDup cs -> NoDup rs ->
  (forall c, c ∈ cs -> 1 <= c <= num_columns pMat) ->
  (forall r, r ∈ rs -> 1 <= r <= num_rows pMat) ->
  exists m',
    Template.SetMatrixElements conv accessor pMat (whole cs) (whole rs) values
      NA_C C_MIN C_MAX NA_R = Some m' /\
    num_rows m' = num_rows pMat /\ num_columns m' = num_columns pMat /\
    (forall a b c r, cs !! a = Some c -> rs !! b = Some r ->
       exists v,
         values !! Z.to_nat ((Z.of_nat a * Z.of_nat (length rs) + Z.of_nat b)
                             mod Z.of_nat (length values)) = Some v /\
         cell accessor m' (c - 1) (r - 1) = Some (f v)) /\
    (forall i j, 0 <= i < num_columns pMat -> 0 <= j < num_rows pMat ->
       i + 1 ∉ cs \/ j + 1 ∉ rs ->
       cell accessor m' i j = cell accessor pMat i j) /\
    length (cells m') = length (cells pMat).
Proof.
  intros Hreg Hnr Hnc Hndc Hndr Hcs Hrs.
  destruct (write_cols rs Hndr Hrs Hnr Hnc Hreg cs (cells pMat) 0)
    as (bufs' & Hrun & Hlen & Hw & Hother & _); [lia|done|done| |].
  { destruct Hreg as (Hcols & _ & _). intros i j p Hi Hj Hp.
    destruct (Hcols i Hi) as (p' & Hp' & Hall). rewrite Hp in Hp'.
    injection Hp' as <-. by apply Hall. }
  destruct Hreg as (Hcols & Hinj & Hsame).
  exists (MkMat (num_rows pMat) (num_columns pMat) bufs').
  unfold Template.SetMatrixElements. rewrite Hrun. cbn [mbind option_bind fst].
  split; [done|]. split; [done|]. split; [done|]. split; [|split; [|done]].
  - intros a b c r Ha Hb. destruct (Hw a b c r Ha Hb) as (v & p & Hv & Hp & Hl).
    exists v. split; [by rewrite Z.add_0_l in Hv|].
    unfold cell. rewrite Hsame by done. rewrite Hp. exact Hl.
  - intros i j Hi Hj Hout. unfold cell. rewrite Hsame by done.
    destruct (Hcols i Hi) as (p & Hp & _). rewrite Hp. cbn [mbind option_bind cells].
    apply Hother. intros c r p' Hc Hr Hp' E.
    pose proof (Hcs c Hc). pose proof (Hrs r Hr).
    destruct (Hinj i (c - 1) p p' j (r - 1)) as [E1 E2]; try done; try lia.
    destruct Hout as [Hout|Hout]; apply Hout.
    + by replace (i + 1) with c by lia.
    + by replace (j + 1) with r by lia.
Qed.

(** X23: what [SetMatrixElements] leaves in the matrix, for columns
    [cs] and rows [rs] counted from 1, each without repetition and within
    the matrix, and a vector of values that is not empty.  The cell of
    the [a]-th column given and the [b]-th row given holds the value
    number [(a * numRows + b) mod valLength] of the vector, after the
    range check: the vector is used column by column and starts again
    from its first value when it runs out.  Every other cell of the
    matrix is as it was, and the matrix has the buffers it had. *)
Theorem SetMatrixElements_recycles_values cs rs NA_R :
  regular accessor pMat ->
  num_rows pMat <= 2 ^ 63 - 1 -> num_columns pMat <= 2 ^ 63 - 1 ->
  NoDup cs -> NoDup rs ->
  (forall c, c ∈ cs -> 1 <= c <= num_columns pMat) ->
  (forall r, r ∈ rs -> 1 <= r <= num_rows pMat) ->
  exists m',
    Template.SetMatrixElements conv accessor pMat (whole cs) (whole rs) values
      NA_C C_MIN C_MAX NA_R = Some m' /\
    num_rows m' = num_rows pMat /\ num_columns m' = num_columns pMat /\
    (forall a b c r, cs !! a = Some c -> rs !! b = Some r ->
       exists v,
         values !! Z.to_nat ((Z.of_nat a * Z.of_nat (length rs) + Z.of_nat b)
                             mod Z.of_nat (length values)) = Some v /\
         cell accessor m' (c - 1) (r - 1) = Some (f v)) /\
    (forall i j, 0 <= i < num_columns pMat -> 0 <= j < num_rows pMat ->
       i + 1 ∉ cs \/ j + 1 ∉ rs ->
       cell accessor m' i j = cell accessor pMat i j) /\
    length (cells m') = length (cells pMat).
Proof. apply SetMatrixElements_cells. Qed.


End Recycling.

End Writers.

Lemma bulk_writers_are_SetMatrixElements_witness :
  let m := Elements.MkMat 2 2 [[0; 0; 0; 0]] in
  let d := Elements.double_of_Z in
  Elements.Template.SetMatrixAll Elements.char_int Elements.BigMatrixAccessor m
    [5; 300; 7] (d (-128)) (d (-127)) (d 127) (d (-2147483648))
  = Elements.Template.SetMatrixElements Elements.char_int
      Elements.BigMatrixAccessor m (whole [1; 2]) (whole [1; 2])
      [5; 300; 7] (d (-128)) (d (-127)) (d 127) (d (-2147483648)).
Proof.
  cbv zeta.
  destruct (bulk_writers_are_SetMatrixElements Elements.char_int
              Elements.BigMatrixAccessor (Elements.MkMat 2 2 [[0; 0; 0; 0]])
              [] [] [5; 300; 7]
              (Elements.double_of_Z (-128)) (Elements.double_of_Z (-127))
              (Elements.double_of_Z 127) (Elements.double_of_Z (-2147483648)))
    as (H & _ & _).
  - cbn. lia.
  - cbn. lia.
  - exact H.
Defined.

Lemma SetMatrixElements_recycles_values_witness :
  let m := Elements.MkMat 2 2 [[0; 0; 0; 0]] in
  let d := Elements.double_of_Z in
  exists m',
    Elements.Template.SetMatrixElements Elements.char_int
      Elements.BigMatrixAccessor m (whole [2; 1]) (whole [1; 2])
      [5; 300; 7] (d (-128)) (d (-127)) (d 127) (d (-2147483648)) = Some m' /\
    cell Elements.BigMatrixAccessor m' 1 0 = Some 5 /\
    cell Elements.BigMatrixAccessor m' 1 1 = Some (-128) /\
    cell Elements.BigMatrixAccessor m' 0 0 = Some 7 /\
    cell Elements.BigMatrixAccessor m' 0 1 = Some 5.
Proof.
  cbv zeta.
  destruct (SetMatrixElements_recycles_values Elements.char_int
              Elements.BigMatrixAccessor (Elements.MkMat 2 2 [[0; 0; 0; 0]])
              [5; 300; 7]
              (Elements.double_of_Z (-128)) (Elements.double_of_Z (-127))
              (Elements.double_of_Z 127) (checked (-128) (-127) 127)
              ltac:(done)
              (fun v _ => range_checked_int 8 (-128) (-127) 127 v
                            ltac:(lia) eq_refl)
              [2; 1] [1; 2] (Elements.double_of_Z (-2147483648)))
    as (m' & Hrun & _ & _ & Hw & _).
  - apply (regular_contiguous _ [0; 0; 0; 0]); [cbn; lia|done|cbn; lia].
  - cbn. lia.
  - cbn. lia.
  - repeat constructor; set_solver.
  - repeat constructor; set_solver.
  - apply Forall_forall. repeat constructor; cbn; lia.
  - apply Forall_forall. repeat constructor; cbn; lia.
  - exists m'. split; [exact Hrun|].
    destruct (Hw 0%nat 0%nat 2 1 eq_refl eq_refl) as (v1 & E1 & C1).
    destruct (Hw 0%nat 1%nat 2 2 eq_refl eq_refl) as (v2 & E2 & C2).
    destruct (Hw 1%nat 0%nat 1 1 eq_refl eq_refl) as (v3 & E3 & C3).
    destruct (Hw 1%nat 1%nat 1 2 eq_refl eq_refl) as (v4 & E4 & C4).
    injection E1 as <-. injection E2 as <-. injection E3 as <-.
    injection E4 as <-.
    repeat split; assumption.
Defined.

(** * The readers *)

(** An R index that may be missing, as the double R passes. *)
Definition index_double (o : option Z) : Elements.double :=
  match o with
  | Some v => Elements.double_of_Z v
  | None => Elements.DNaN
  end.

Section Readers.
Import Elements.
Context {CType RType : Type}.
Variable conv : Conv CType RType.
Variable accessor : Accessor.
Variable pMat : Mat CType.
Variables NA_C NA_R : double.

(** [na] is the missing value the reader returns, [g] what it returns for
    a cell, and [content] the cells of the matrix. *)
Variable na : RType.
Variable g : CType -> RType.
Variable content : Z -> Z -> CType.
Hypothesis Hna : r_of_double conv NA_R = Some na.
Hypothesis Hg : forall p j x,
  load (cells pMat) p j = Some x ->
  Template.element conv (cells pMat) p j NA_C NA_R = Some (g x).
Hypothesis Hcontent : forall i j,
  0 <= i < num_columns pMat -> 0 <= j < num_rows pMat ->
  cell accessor pMat i j = Some (content i j).
Hypothesis Haccess : forall i,
  0 <= i < num_columns pMat -> is_Some (accessor CType pMat i).
Hypothesis Hnr : num_rows pMat <= 2 ^ 63 - 1.
Hypothesis Hnc : num_columns pMat <= 2 ^ 63 - 1.

#[local] Arguments double_of_Z : simpl never.
#[local] Arguments index_of_double : simpl never.
#[local] Arguments load : simpl never.

(** What the reader returns for the row [r] of the column [c], both
    counted from 1; a missing row gives the missing value. *)
Definition row_value (c : Z) (r : option Z) : RType :=
  match r with
  | Some r => g (content (c - 1) (r - 1))
  | None => na
  end.

Definition rows_within (rows : list (option Z)) : Prop :=
  forall r, Some r ∈ rows -> 1 <= r <= num_rows pMat.

Lemma read_rows c p rows :
  1 <= c <= num_columns pMat ->
  accessor CType pMat (c - 1) = Some p ->
  rows_within rows ->
  forall (W : list RType) (R : list (option RType)),
  (length rows <= length R)%nat ->
  loop (fun '(pRet, k) rj =>
          pRet' ← (if isna rj then
                     na ← r_of_double conv NA_R;
                     Template.put pRet k na
                   else
                     j ← index_of_double rj;
                     v ← Template.element conv (cells pMat) p (j - 1) NA_C NA_R;
                     Template.put pRet k v);
          Some (pRet', k + 1))
       (index_double <$> rows)
       ((Some <$> W) ++ R, Z.of_nat (length (Some <$> W)))
  = Some ((Some <$> (W ++ (row_value c <$> rows))) ++ drop (length rows) R,
          Z.of_nat (length (Some <$> (W ++ (row_value c <$> rows))))).
Proof.
  intros Hc Hp.
  match goal with |- context [loop ?b _ _] => set (body := b) end.
  induction rows as [|r rows IH]; intros Hrows W R Hlen.
  - cbn. by rewrite !app_nil_r.
  - destruct R as [|x R]; [cbn in Hlen; lia|]. cbn [length] in Hlen.
    assert (body ((Some <$> W) ++ x :: R, Z.of_nat (length (Some <$> W)))
                 (index_double r)
            = Some ((Some <$> (W ++ [row_value c r])) ++ R,
                    Z.of_nat (length (Some <$> (W ++ [row_value c r])))))
      as Hstep.
    { unfold body. destruct r as [r|]; cbn [index_double row_value].
      - rewrite isna_of_Z.
        assert (1 <= r <= num_rows pMat) as Hr by (apply Hrows; left).
        rewrite index_of_double_of_Z by (apply in_int_64; lia).
        cbn [mbind option_bind].
        pose proof (Hcontent (c - 1) (r - 1) ltac:(lia) ltac:(lia)) as Hcell.
        unfold cell in Hcell. rewrite Hp in Hcell. cbn [mbind option_bind] in Hcell.
        rewrite (Hg _ _ _ Hcell). cbn [mbind option_bind].
        rewrite put_at. cbn [mbind option_bind].
        rewrite fmap_app, <- app_assoc. cbn [fmap list_fmap app].
        do 3 f_equal. rewrite !length_app, !length_fmap. cbn [length]. lia.
      - cbn [isna]. rewrite Hna. cbn [mbind option_bind].
        rewrite put_at. cbn [mbind option_bind].
        rewrite fmap_app, <- app_assoc. cbn [fmap list_fmap app].
        do 3 f_equal. rewrite !length_app, !length_fmap. cbn [length]. lia. }
    cbn [fmap list_fmap loop]. rewrite Hstep. cbn [mbind option_bind].
    rewrite IH; [|intros y Hy; apply Hrows; by right|lia].
    cbn [drop length fmap list_fmap]. rewrite <- !app_assoc. done.
Qed.

(** The loop of a missing column: with at least one row, the cell at [k]
    receives the missing value, and [k] stays. *)
Lemma read_missing_column (rows : list double) (W : list RType) x R :
  rows <> [] ->
  loop (fun '(pRet, k) _ =>
          na ← r_of_double conv NA_R;
          pRet' ← Template.put pRet k na;
          Some (pRet', k))
       rows ((Some <$> W) ++ x :: R, Z.of_nat (length (Some <$> W)))
  = Some ((Some <$> W) ++ Some na :: R, Z.of_nat (length (Some <$> W))).
Proof.
  match goal with |- context [loop ?b _ _] => set (body := b) end.
  assert (forall y, body ((Some <$> W) ++ y :: R, Z.of_nat (length (Some <$> W)))
                    = fun _ => Some ((Some <$> W) ++ Some na :: R,
                                     Z.of_nat (length (Some <$> W)))) as Hstep.
  { intros y. unfold body. rewrite Hna. cbn [mbind option_bind].
    by rewrite put_at. }
  intros Hne. destruct rows as [|r rows]; [done|]. clear Hne.
  cbn [loop]. rewrite Hstep. cbn [mbind option_bind].
  induction rows as [|r' rows IH]; [done|].
  cbn [loop]. rewrite Hstep. cbn [mbind option_bind]. exact IH.
Qed.

(** The cells not yet assigned by a valid column: all unassigned, or the
    first of them holding the missing value a missing column left. *)
Definition pending (marked : bool) (n : nat) : list (option RType) :=
  if marked then Some na :: replicate (n - 1) None else replicate n None.

Definition valid_columns (cols : list (option Z)) : list Z :=
  omap id cols.

Definition last_is_missing (marked : bool) (cols : list (option Z)) : bool :=
  match last cols with
  | Some None => true
  | Some (Some _) => false
  | None => marked
  end.

Definition columns_within (cols : list (option Z)) : Prop :=
  forall c, Some c ∈ cols -> 1 <= c <= num_columns pMat.

Lemma read_columns rows :
  rows <> [] -> rows_within rows ->
  forall cols (W : list RType) marked n,
  columns_within cols ->
  (length rows * length cols <= n)%nat ->
  (marked = true -> (1 <= n)%nat) ->
  loop (fun '(pRet, k) ci =>
          if isna ci then
            loop (fun '(pRet, k) _ =>
                    na ← r_of_double conv NA_R;
                    pRet' ← Template.put pRet k na;
                    Some (pRet', k))
                 (index_double <$> rows) (pRet, k)
          else
            pColumn ← Template.column_at accessor pMat ci;
            loop (fun '(pRet, k) rj =>
                    pRet' ← (if isna rj then
                               na ← r_of_double conv NA_R;
                               Template.put pRet k na
                             else
                               j ← index_of_double rj;
                               v ← Template.element conv (cells pMat) pColumn
                                     (j - 1) NA_C NA_R;
                               Template.put pRet k v);
                    Some (pRet', k + 1))
                 (index_double <$> rows) (pRet, k))
       (index_double <$> cols)
       ((Some <$> W) ++ pending marked n, Z.of_nat (length (Some <$> W)))
  = let data := flat_map (fun c => row_value c <$> rows) (valid_columns cols) in
    Some ((Some <$> (W ++ data)) ++
            pending (last_is_missing marked cols)
                    (n - length rows * length (valid_columns cols)),
          Z.of_nat (length (Some <$> (W ++ data)))).
Proof.
  intros Hne Hrows.
  assert (1 <= length rows)%nat as HL by (destruct rows; [done|cbn; lia]).
  match goal with |- context [loop ?b (index_double <$> _) (_ ++ pending _ _, _)] =>
    set (body := b) end.
  induction cols as [|c cols IH]; intros W marked n Hcols Hn Hm; cbv zeta.
  - cbn [fmap list_fmap loop valid_columns omap flat_map length].
    rewrite !app_nil_r, Nat.mul_0_r, Nat.sub_0_r. done.
  - cbn [length] in Hn.
    assert (forall m0, last_is_missing m0 (c :: cols)
                       = last_is_missing (match c with None => true | _ => false end)
                                         cols) as Hlast.
    { intros m0. unfold last_is_missing.
      destruct cols as [|c' cols']; [by destruct c|].
      rewrite last_cons_cons.
      destruct (last (c' :: cols')) as [[?|]|] eqn:E; try done.
      by apply last_None in E. }
    rewrite Hlast.
    assert (columns_within cols) as Hcols'
      by (intros y Hy; apply Hcols; by right).
    cbn [fmap list_fmap loop]. destruct c as [c|].
    + assert (1 <= c <= num_columns pMat) as Hc by (apply Hcols; left).
      destruct (Haccess (c - 1)) as [p Hp]; [lia|].
      assert (body ((Some <$> W) ++ pending marked n,
                    Z.of_nat (length (Some <$> W))) (index_double (Some c))
              = Some ((Some <$> (W ++ (row_value c <$> rows))) ++
                        pending false (n - length rows),
                      Z.of_nat (length (Some <$> (W ++ (row_value c <$> rows))))))
        as Hstep.
      { unfold body. cbn [index_double]. rewrite isna_of_Z.
        replace c with (c - 1 + 1) at 1 by lia.
        unfold Template.column_at.
        rewrite index_of_double_of_Z by (apply in_int_64; lia).
        cbn [mbind option_bind]. replace (c - 1 + 1 - 1) with (c - 1) by lia.
        rewrite Hp. cbn [mbind option_bind].
        rewrite (read_rows c p rows Hc Hp Hrows W (pending marked n)).
        - do 2 f_equal. unfold pending. destruct marked.
          + destruct n as [|n]; [lia|]. destruct rows as [|r0 rows0]; [done|].
            cbn [length drop]. rewrite drop_replicate.
            by replace (S n - 1 - length rows0)%nat
              with (S n - S (length rows0))%nat by lia.
          + by rewrite drop_replicate.
        - unfold pending. destruct marked; cbn [length];
            rewrite length_replicate; lia. }
      rewrite Hstep. cbn [mbind option_bind].
      rewrite (IH (W ++ (row_value c <$> rows)) false (n - length rows)%nat)
        by (try done; lia).
      cbv zeta. cbn [valid_columns omap flat_map length].
      fold (valid_columns cols). cbn [id].
      rewrite <- !app_assoc.
      replace (n - length rows - length rows * length (valid_columns cols))%nat
        with (n - length rows * S (length (valid_columns cols)))%nat by lia.
      done.
    + assert (body ((Some <$> W) ++ pending marked n,
                    Z.of_nat (length (Some <$> W))) (index_double None)
              = Some ((Some <$> W) ++ pending true n,
                      Z.of_nat (length (Some <$> W)))) as Hstep.
      { unfold body. cbn [index_double isna].
        assert (pending marked n = hd None (pending marked n) :: replicate (n - 1) None)
          as ->.
        { unfold pending. destruct marked; [done|].
          destruct n as [|n]; [lia|]. cbn. by rewrite Nat.sub_0_r. }
        rewrite read_missing_column; [done|]. by destruct rows. }
      rewrite Hstep. cbn [mbind option_bind].
      rewrite (IH W true n) by (try done; lia).
      cbv zeta. cbn [valid_columns omap]. fold (valid_columns cols). done.
Qed.

Lemma valid_columns_cons o cols :
  valid_columns (o :: cols) =
  match o with
  | Some c => c :: valid_columns cols
  | None => valid_columns cols
  end.
Proof. by destruct o. Qed.

Lemma length_valid_columns cols :
  (length (valid_columns cols) <= length cols)%nat.
Proof.
  induction cols as [|o cols IH]; [done|].
  rewrite valid_columns_cons. destruct o; cbn [length]; lia.
Qed.

(** What [GetMatrixElements] returns, missing columns and rows included,
    when at least one row is asked for. *)
Lemma GetMatrixElements_result cols rows :
  rows <> [] -> rows_within rows -> columns_within cols ->
  Z.of_nat (length cols) * Z.of_nat (length rows) <= 2 ^ 31 - 1 ->
  Template.GetMatrixElements conv accessor pMat NA_C NA_R
    (index_double <$> cols) (index_double <$> rows)
  = Some (Template.RetMat (Z.of_nat (length rows)) (Z.of_nat (length cols))
            ((Some <$> flat_map (fun c => row_value c <$> rows)
                                (valid_columns cols)) ++
             pending (last_is_missing false cols)
                     (length rows * (length cols - length (valid_columns cols))))).
Proof.
  intros Hne Hrows Hcols Hsmall. unfold Template.GetMatrixElements.
  rewrite !length_fmap. unfold TooManyRIndices.
  destruct (Z.ltb_spec (2 ^ 31 - 1)
              (Z.of_nat (length cols) * Z.of_nat (length rows))) as [?|_]; [lia|].
  unfold Template.allocMatrix.
  replace (Z.to_nat (Z.of_nat (length rows) * Z.of_nat (length cols)))
    with (length rows * length cols)%nat by lia.
  pose proof (read_columns rows Hne Hrows cols [] false
                (length rows * length cols) Hcols (le_n _)) as Hloop.
  cbv zeta in Hloop. cbn [fmap list_fmap app length pending] in Hloop.
  change (Z.of_nat 0) with 0 in Hloop.
  rewrite Hloop by done. cbn [mbind option_bind fst].
  pose proof (length_valid_columns cols).
  do 4 f_equal. nia.
Qed.

(** With no row asked for, nothing is read and the result has no cell. *)
Lemma GetMatrixElements_no_rows cs :
  (forall c, c ∈ cs -> 1 <= c <= num_columns pMat) ->
  Template.GetMatrixElements conv accessor pMat NA_C NA_R (whole cs) []
  = Some (Template.RetMat 0 (Z.of_nat (length cs)) []).
Proof.
  intros Hcs. unfold Template.GetMatrixElements.
  rewrite length_whole. cbn [length]. rewrite Z.mul_0_r. cbn [TooManyRIndices].
  unfold TooManyRIndices. destruct (Z.ltb_spec (2 ^ 31 - 1) 0) as [?|_]; [lia|].
  unfold Template.allocMatrix. rewrite Z.mul_0_l. cbn [Z.to_nat replicate].
  match goal with |- context [loop ?b _ _] => set (body := b) end.
  change (replicate (Z.to_nat 0) None) with (@nil (option RType)).
  assert (loop body (whole cs) ([], 0) = Some ([], 0)) as ->; [|done].
  induction cs as [|c cs IH]; [done|].
  cbn [whole fmap list_fmap loop]. fold (whole cs).
  assert (1 <= c <= num_columns pMat) as Hc by (apply Hcs; left).
  destruct (Haccess (c - 1)) as [p Hp]; [lia|].
  assert (body ([], 0) (double_of_Z c) = Some ([], 0)) as ->.
  { unfold body. rewrite isna_of_Z. replace c with (c - 1 + 1) at 1 by lia.
    unfold Template.column_at.
    rewrite index_of_double_of_Z by (apply in_int_64; lia).
    cbn [mbind option_bind]. replace (c - 1 + 1 - 1) with (c - 1) by lia.
    by rewrite Hp. }
  cbn [mbind option_bind]. apply IH. intros x Hx. apply Hcs. by right.
Qed.

Lemma valid_columns_Some cs : valid_columns (Some <$> cs) = cs.
Proof.
  induction cs as [|c cs IH]; [done|].
  cbn [fmap list_fmap]. by rewrite valid_columns_cons, IH.
Qed.

Lemma last_is_missing_Some cs : last_is_missing false (Some <$> cs) = false.
Proof.
  unfold last_is_missing. rewrite fmap_last. by destruct (last cs).
Qed.

Lemma index_double_Some cs : index_double <$> (Some <$> cs) = whole cs.
Proof. unfold whole. rewrite <- list_fmap_compose. done. Qed.

(** The reader when no column is missing. *)
Lemma GetMatrixElements_column_major cs rows :
  (forall c, c ∈ cs -> 1 <= c <= num_columns pMat) ->
  rows_within rows ->
  Z.of_nat (length cs) * Z.of_nat (length rows) <= 2 ^ 31 - 1 ->
  Template.GetMatrixElements conv accessor pMat NA_C NA_R
    (whole cs) (index_double <$> rows)
  = Some (Template.RetMat (Z.of_nat (length rows)) (Z.of_nat (length cs))
            (Some <$> flat_map (fun c => row_value c <$> rows) cs)).
Proof.
  intros Hcs Hrows Hsmall. destruct rows as [|r rows].
  - rewrite GetMatrixElements_no_rows by done. cbn [length fmap list_fmap].
    do 2 f_equal. clear. induction cs as [|c cs IH]; [done|]. cbn. exact IH.
  - rewrite <- index_double_Some.
    rewrite GetMatrixElements_result; try done.
    + rewrite !length_fmap, valid_columns_Some, last_is_missing_Some.
      rewrite Nat.sub_diag, Nat.mul_0_r. cbn [pending replicate].
      by rewrite app_nil_r.
    + intros c Hc. apply list_elem_of_fmap in Hc as (x & [= ->] & Hx).
      by apply Hcs.
    + by rewrite length_fmap.
Qed.

(** X24: [GetMatrixElements] with no missing column returns the cells
    in column-major order.  For the columns [cs] and the rows [rows],
    counted from 1 and within the matrix, repetitions allowed, the result
    is a matrix of [length rows] by [length cs] cells, every cell
    assigned: column after column in the order given, and within a column
    row after row, the cell converted by the reader ([g]), or the missing
    value for a missing row. *)
Theorem GetMatrixElements_reads_column_major cs rows :
  (forall c, c ∈ cs -> 1 <= c <= num_columns pMat) ->
  rows_within rows ->
  Z.of_nat (length cs) * Z.of_nat (length rows) <= 2 ^ 31 - 1 ->
  Template.GetMatrixElements conv accessor pMat NA_C NA_R
    (whole cs) (index_double <$> rows)
  = Some (Template.RetMat (Z.of_nat (length rows)) (Z.of_nat (length cs))
            (Some <$> flat_map (fun c => row_value c <$> rows) cs)).
Proof. apply GetMatrixElements_column_major. Qed.

(** X25: a missing column shifts what follows it.  The branch of
    [GetMatrixElements] for a missing column stores the missing value at
    [pRet[k]] once for each row and never advances [k].  So with at least
    one row, the result holds the cells of the columns that are not
    missing, one after the other from its start, where R expects them
    column by column with the missing ones between; what is left over,
    the room of one column for each missing column, is never assigned,
    except that its first cell holds the missing value when the last
    column given is a missing one. *)
Theorem GetMatrixElements_missing_column_shifts cols rows :
  rows <> [] -> rows_within rows -> columns_within cols ->
  Z.of_nat (length cols) * Z.of_nat (length rows) <= 2 ^ 31 - 1 ->
  Template.GetMatrixElements conv accessor pMat NA_C NA_R
    (index_double <$> cols) (index_double <$> rows)
  = Some (Template.RetMat (Z.of_nat (length rows)) (Z.of_nat (length cols))
            ((Some <$> flat_map (fun c => row_value c <$> rows)
                                (valid_columns cols)) ++
             pending (last_is_missing false cols)
                     (length rows * (length cols - length (valid_columns cols))))).
Proof. apply GetMatrixElements_result. Qed.

End Readers.

(** A 2 x 2 matrix of [char], contiguous, holding 1 and the sentinel in
    its first column and 3 and 4 in its second. *)
Definition sample : Elements.Mat Z := Elements.MkMat 2 2 [[1; -128; 3; 4]].

Definition sample_content (i j : Z) : Z :=
  default 0 ([1; -128; 3; 4] !! Z.to_nat (i * 2 + j)).

Lemma sample_cells i j :
  0 <= i < 2 -> 0 <= j < 2 ->
  cell Elements.BigMatrixAccessor sample i j = Some (sample_content i j).
Proof.
  intros Hi Hj.
  assert (i = 0 \/ i = 1) as [-> | ->] by lia;
    (assert (j = 0 \/ j = 1) as [-> | ->] by lia); reflexivity.
Qed.

Lemma GetMatrixElements_reads_column_major_witness :
  Elements.Template.GetMatrixElements Elements.char_int
    Elements.BigMatrixAccessor sample
    (Elements.double_of_Z (-128)) (Elements.double_of_Z (-2147483648))
    (whole [2; 1]) (index_double <$> [Some 2; None; Some 1])
  = Some (Elements.Template.RetMat 3 2
            (Some <$> [4; -2147483648; 3; -2147483648; -2147483648; 1])).
Proof.
  apply (GetMatrixElements_reads_column_major Elements.char_int
           Elements.BigMatrixAccessor sample
           (Elements.double_of_Z (-128)) (Elements.double_of_Z (-2147483648))
           (-2147483648) (shown (-128) (-2147483648)) sample_content
           eq_refl
           (fun p j x => element_int 8 (-128) (-2147483648) _ p j x eq_refl eq_refl)
           sample_cells
           (fun i _ => ltac:(eexists; reflexivity))
           ltac:(cbn; lia) ltac:(cbn; lia)
           [2; 1] [Some 2; None; Some 1]).
  - apply Forall_forall. repeat constructor; cbn; lia.
  - intros r Hr. cbn. set_solver by lia.
  - cbn. lia.
Defined.

Lemma GetMatrixElements_missing_column_shifts_witness :
  Elements.Template.GetMatrixElements Elements.char_int
    Elements.BigMatrixAccessor sample
    (Elements.double_of_Z (-128)) (Elements.double_of_Z (-2147483648))
    (index_double <$> [None; Some 2]) (index_double <$> [Some 1; Some 2])
  = Some (Elements.Template.RetMat 2 2 [Some 3; Some 4; None; None]).
Proof.
  apply (GetMatrixElements_missing_column_shifts Elements.char_int
           Elements.BigMatrixAccessor sample
           (Elements.double_of_Z (-128)) (Elements.double_of_Z (-2147483648))
           (-2147483648) (shown (-128) (-2147483648)) sample_content
           eq_refl
           (fun p j x => element_int 8 (-128) (-2147483648) _ p j x eq_refl eq_refl)
           sample_cells
           (fun i _ => ltac:(eexists; reflexivity))
           ltac:(cbn; lia) ltac:(cbn; lia)
           [None; Some 2] [Some 1; Some 2]).
  - done.
  - intros r Hr. cbn. set_solver by lia.
  - intros c Hc. cbn. set_solver by lia.
  - cbn. lia.
Defined.

Section BulkReaders.
Import Elements.
Context {CType RType : Type}.
Variable conv : Conv CType RType.
Variable accessor : Accessor.

#[local] Arguments double_of_Z : simpl never.
#[local] Arguments index_of_double : simpl never.
#[local] Arguments load : simpl never.

Lemma isna_whole_row (pMat : Mat CType) (p : ptr) NA_C NA_R
    (s : list (option RType) * Z) :
  num_rows pMat <= 2 ^ 63 - 1 ->
  loop (fun '(pRet, k) rj =>
          pRet' ← (if isna rj then
                     na ← r_of_double conv NA_R;
                     Template.put pRet k na
                   else
                     j ← index_of_double rj;
                     v ← Template.element conv (cells pMat) p (j - 1) NA_C NA_R;
                     Template.put pRet k v);
          Some (pRet', k + 1))
       (whole (seqZ 1 (num_rows pMat))) s
  = loop (fun '(pRet, k) j =>
            v ← Template.element conv (cells pMat) p j NA_C NA_R;
            pRet' ← Template.put pRet k v;
            Some (pRet', k + 1))
         (below (num_rows pMat)) s.
Proof.
  intros Hr. rewrite whole_seqZ, loop_fmap. apply loop_ext.
  intros [pRet k] j Hj. apply elem_of_seqZ in Hj.
  rewrite isna_of_Z, index_of_double_of_Z by (apply in_int_64; lia).
  cbn [mbind option_bind]. replace (j + 1 - 1) with j by lia.
  by destruct (Template.element conv (cells pMat) p j NA_C NA_R).
Qed.

(** The three bulk readers are [GetMatrixElements] on full index
    ranges. *)
Lemma bulk_readers_full_ranges (pMat : Mat CType) (col row : list double)
    NA_C NA_R :
  0 <= num_rows pMat <= 2 ^ 63 - 1 ->
  0 <= num_columns pMat <= 2 ^ 63 - 1 ->
  Template.GetMatrixAll conv accessor pMat NA_C NA_R
  = Template.GetMatrixElements conv accessor pMat NA_C NA_R
      (whole (seqZ 1 (num_columns pMat))) (whole (seqZ 1 (num_rows pMat))) /\
  Template.GetMatrixCols conv accessor pMat NA_C NA_R col
  = Template.GetMatrixElements conv accessor pMat NA_C NA_R
      col (whole (seqZ 1 (num_rows pMat))) /\
  Template.GetMatrixRows conv accessor pMat NA_C NA_R row
  = Template.GetMatrixElements conv accessor pMat NA_C NA_R
      (whole (seqZ 1 (num_columns pMat))) row.
Proof.
  intros Hr Hc.
  assert (Z.of_nat (length (whole (seqZ 1 (num_rows pMat)))) = num_rows pMat)
    as Hlr by (rewrite length_whole, length_seqZ; lia).
  assert (Z.of_nat (length (whole (seqZ 1 (num_columns pMat))))
          = num_columns pMat)
    as Hlc by (rewrite length_whole, length_seqZ; lia).
  unfold Template.GetMatrixAll, Template.GetMatrixCols, Template.GetMatrixRows,
    Template.GetMatrixElements.
  rewrite ?Hlr, ?Hlc. split; [|split].
  - destruct (TooManyRIndices (num_columns pMat * num_rows pMat)); [done|].
    f_equal. rewrite (whole_seqZ (num_columns pMat)), loop_fmap.
    symmetry. apply loop_ext. intros [pRet k] i Hi. apply elem_of_seqZ in Hi.
    rewrite isna_of_Z. rewrite column_at_whole by lia.
    destruct (accessor CType pMat i); [|done]. cbn [mbind option_bind].
    apply isna_whole_row; lia.
  - destruct (TooManyRIndices (Z.of_nat (length col) * num_rows pMat)); [done|].
    f_equal. symmetry. apply loop_ext. intros [pRet k] ci _.
    destruct (isna ci).
    + rewrite whole_seqZ, loop_fmap. apply loop_ext. by intros [pRet' k'] j _.
    + destruct (Template.column_at accessor pMat ci); [|done].
      cbn [mbind option_bind]. apply isna_whole_row; lia.
  - destruct (TooManyRIndices (num_columns pMat * Z.of_nat (length row))); [done|].
    f_equal. rewrite (whole_seqZ (num_columns pMat)), loop_fmap.
    symmetry. apply loop_ext. intros [pRet k] i Hi. apply elem_of_seqZ in Hi.
    rewrite isna_of_Z. rewrite column_at_whole by lia. done.
Qed.

(** X26: the three bulk readers are [GetMatrixElements] on full index
    ranges.  [GetMatrixAll] returns what [GetMatrixElements] returns for
    the columns [1 .. ncol] and the rows [1 .. nrow]; [GetMatrixCols]
    for the given columns and the rows [1 .. nrow], a missing column
    being treated the same way by both; [GetMatrixRows] for the columns
    [1 .. ncol] and the given rows. *)
Theorem bulk_readers_are_GetMatrixElements (pMat : Mat CType)
    (col row : list double) NA_C NA_R :
  0 <= num_rows pMat <= 2 ^ 63 - 1 ->
  0 <= num_columns pMat <= 2 ^ 63 - 1 ->
  Template.GetMatrixAll conv accessor pMat NA_C NA_R
  = Template.GetMatrixElements conv accessor pMat NA_C NA_R
      (whole (seqZ 1 (num_columns pMat))) (whole (seqZ 1 (num_rows pMat))) /\
  Template.GetMatrixCols conv accessor pMat NA_C NA_R col
  = Template.GetMatrixElements conv accessor pMat NA_C NA_R
      col (whole (seqZ 1 (num_rows pMat))) /\
  Template.GetMatrixRows conv accessor pMat NA_C NA_R row
  = Template.GetMatrixElements conv accessor pMat NA_C NA_R
      (whole (seqZ 1 (num_columns pMat))) row.
Proof. apply bulk_readers_full_ranges. Qed.

End BulkReaders.

Lemma bulk_readers_are_GetMatrixElements_witness :
  let d := Elements.double_of_Z in
  Elements.Template.GetMatrixCols Elements.char_int Elements.BigMatrixAccessor
    sample (d (-128)) (d (-2147483648)) [Elements.DNaN; d 2]
  = Elements.Template.GetMatrixElements Elements.char_int
      Elements.BigMatrixAccessor sample (d (-128)) (d (-2147483648))
      [Elements.DNaN; d 2] (whole [1; 2]).
Proof.
  cbv zeta.
  destruct (bulk_readers_are_GetMatrixElements Elements.char_int
              Elements.BigMatrixAccessor sample
              [Elements.DNaN; Elements.double_of_Z 2] []
              (Elements.double_of_Z (-128))
              (Elements.double_of_Z (-2147483648)))
    as (_ & H & _).
  - cbn. lia.
  - cbn. lia.
  - exact H.
Defined.

(** * Writing and reading back *)

(** The value number [k] of a vector that is used again from its start
    when it runs out. *)
Definition value_at (values : list Z) (k : Z) : Z :=
  default 0 (values !! Z.to_nat (k mod Z.of_nat (length values))).

(** What comes back for a value written to an integer matrix whose valid
    range is [lo .. hi]. *)
Definition returned (lo hi NA_R v : Z) : Z :=
  if (v <? lo) || (hi <? v) then NA_R else v.

Section RoundTrip.
Import Elements.

#[local] Arguments double_of_Z : simpl never.
#[local] Arguments index_of_double : simpl never.
#[local] Arguments load : simpl never.

Lemma shown_checked w na lo hi NA_R v :
  sentinel_ok w na lo hi = true ->
  shown na NA_R (checked na lo hi v) = returned lo hi NA_R v.
Proof.
  intros Hs. apply sentinel_ok_inv in Hs as (_ & _ & _ & _ & Hout).
  unfold shown, checked, returned.
  destruct ((v <? lo) || (hi <? v)) eqn:E.
  - by rewrite Z.eqb_refl.
  - destruct (Z.eqb_spec v na) as [->|?]; [lia|done].
Qed.

Lemma flat_map_seqZ_shift {A} (F : Z -> list A) n :
  flat_map F (seqZ 1 n) = flat_map (fun i => F (i + 1)) (seqZ 0 n).
Proof.
  change (seqZ 1 n) with (seqZ (1 + 0) n). rewrite <- fmap_add_seqZ.
  induction (seqZ 0 n) as [|i l IH]; [done|].
  cbn [fmap list_fmap flat_map]. rewrite IH. do 2 f_equal. lia.
Qed.

Lemma fmap_seqZ_shift {A} (F : Z -> A) n :
  F <$> seqZ 1 n = (fun j => F (j + 1)) <$> seqZ 0 n.
Proof.
  change (seqZ 1 n) with (seqZ (1 + 0) n).
  rewrite <- fmap_add_seqZ, <- list_fmap_compose.
  apply list_fmap_ext. intros _ j _. cbn. f_equal. lia.
Qed.

Lemma flat_map_ext_elem {A B} (F G : A -> list B) l :
  (forall x, x ∈ l -> F x = G x) -> flat_map F l = flat_map G l.
Proof.
  induction l as [|x l IH]; intros H; [done|].
  cbn [flat_map]. rewrite H by left. f_equal. apply IH.
  intros y Hy. apply H. by right.
Qed.

Lemma fmap_ext_elem {A B} (F G : A -> B) (l : list A) :
  (forall x, x ∈ l -> F x = G x) -> F <$> l = G <$> l.
Proof.
  induction l as [|x l IH]; intros H; [done|].
  cbn [fmap list_fmap]. rewrite H by left. f_equal. apply IH.
  intros y Hy. apply H. by right.
Qed.

(** X27: [SetMatrixAll] and then [GetMatrixAll] on an integer matrix of
    [w] bits with the sentinel [na] and the valid range [lo .. hi].  The
    write succeeds on a regular matrix and a vector that is not empty,
    and the read then returns a matrix of the same [nrow] by [ncol], every
    cell assigned: at column [i] and row [j], counted from 0, the value
    number [(i * nrow + j) mod valLength] of the vector when it lies in
    [lo .. hi], and R's missing value when it does not.  A value in the
    valid range always comes back as it was. *)
Theorem SetMatrixAll_then_GetMatrixAll w na lo hi NA_R accessor
    (m : Mat Z) (values : list Z) :
  0 < w ->
  sentinel_ok w na lo hi = true ->
  in_int 32 NA_R = true ->
  regular accessor m ->
  0 <= num_rows m <= 2 ^ 63 - 1 ->
  0 <= num_columns m <= 2 ^ 63 - 1 ->
  num_columns m * num_rows m <= 2 ^ 31 - 1 ->
  values <> [] ->
  exists m',
    Template.SetMatrixAll (int_conv w) accessor m values
      (double_of_Z na) (double_of_Z lo) (double_of_Z hi) (double_of_Z NA_R)
      = Some m' /\
    Template.GetMatrixAll (int_conv w) accessor m'
      (double_of_Z na) (double_of_Z NA_R)
    = Some (Template.RetMat (num_rows m) (num_columns m)
              (Some <$>
                 flat_map
                   (fun i => (fun j => returned lo hi NA_R
                                         (value_at values (i * num_rows m + j)))
                               <$> seqZ 0 (num_rows m))
                   (seqZ 0 (num_columns m)))).
Proof.
  intros Hw Hs HR Hreg Hr Hc Hsmall Hvalues.
  pose proof (sentinel_ok_inv _ _ _ _ Hs) as (Hna & _).
  destruct (bulk_writers_full_ranges (int_conv w) accessor m [] [] values
              (double_of_Z na) (double_of_Z lo) (double_of_Z hi)
              (double_of_Z NA_R)) as (Hall & _ & _); [lia|lia|].
  destruct (SetMatrixElements_cells (int_conv w) accessor m values
              (double_of_Z na) (double_of_Z lo) (double_of_Z hi)
              (checked na lo hi) Hvalues
              (fun v _ => range_checked_int w na lo hi v Hw Hs)
              (seqZ 1 (num_columns m)) (seqZ 1 (num_rows m))
              (double_of_Z NA_R))
    as (m' & Hrun & Hnr & Hnc & Hcells & _ & Hlen); try done; try lia.
  { apply NoDup_seqZ. }
  { apply NoDup_seqZ. }
  { intros c Hc'. apply elem_of_seqZ in Hc'. lia. }
  { intros r Hr'. apply elem_of_seqZ in Hr'. lia. }
  exists m'. split; [by rewrite Hall|].
  assert (forall i, accessor Z m' i = accessor Z m i) as Hacc.
  { intros i. destruct Hreg as (_ & _ & Hsame). rewrite <- (Hsame _ i Hlen).
    destruct m' as [nr nc bufs]. cbn in *. by subst. }
  assert (forall i j, 0 <= i < num_columns m' -> 0 <= j < num_rows m' ->
            cell accessor m' i j
            = Some (checked na lo hi (value_at values (i * num_rows m + j))))
    as Hcontent.
  { intros i j Hi Hj. rewrite Hnc in Hi. rewrite Hnr in Hj.
    destruct (Hcells (Z.to_nat i) (Z.to_nat j) (i + 1) (j + 1))
      as (v & Hv & Hcell).
    - rewrite lookup_seqZ_lt by lia. f_equal. lia.
    - rewrite lookup_seqZ_lt by lia. f_equal. lia.
    - replace (i + 1 - 1) with i in Hcell by lia.
      replace (j + 1 - 1) with j in Hcell by lia.
      rewrite Hcell. do 2 f_equal. unfold value_at.
      rewrite length_seqZ in Hv.
      replace (Z.of_nat (Z.to_nat i) * Z.of_nat (Z.to_nat (num_rows m))
               + Z.of_nat (Z.to_nat j)) with (i * num_rows m + j) in Hv by lia.
      by rewrite Hv. }
  destruct (bulk_readers_full_ranges (int_conv w) accessor m' [] []
              (double_of_Z na) (double_of_Z NA_R)) as (Hget & _ & _);
    [lia|lia|].
  rewrite Hget, Hnr, Hnc.
  rewrite <- (index_double_Some (seqZ 1 (num_rows m))).
  rewrite (GetMatrixElements_column_major (int_conv w) accessor m'
             (double_of_Z na) (double_of_Z NA_R) NA_R (shown na NA_R)
             (fun i j => checked na lo hi (value_at values (i * num_rows m + j)))).
  - rewrite !length_fmap, !length_seqZ.
    replace (Z.of_nat (Z.to_nat (num_rows m))) with (num_rows m) by lia.
    replace (Z.of_nat (Z.to_nat (num_columns m))) with (num_columns m) by lia.
    do 3 f_equal. rewrite flat_map_seqZ_shift. apply flat_map_ext_elem.
    intros i _. rewrite <- list_fmap_compose, fmap_seqZ_shift.
    apply fmap_ext_elem. intros j _. cbn.
    replace (i + 1 - 1) with i by lia. replace (j + 1 - 1) with j by lia.
    by apply (shown_checked w).
  - cbn [r_of_double int_conv]. by rewrite int_of_double_of_Z, HR.
  - intros p j x Hx. by apply element_int.
  - exact Hcontent.
  - intros i Hi. rewrite Hacc. destruct Hreg as (Hcols & _).
    destruct (Hcols i) as (p & Hp & _); [lia|]. rewrite Hp. eauto.
  - lia.
  - lia.
  - intros c Hc'. apply elem_of_seqZ in Hc'. lia.
  - intros r Hr'. apply list_elem_of_fmap in Hr' as (x & [= ->] & Hx).
    apply elem_of_seqZ in Hx. lia.
  - rewrite !length_fmap, !length_seqZ. lia.
Qed.

End RoundTrip.

Lemma SetMatrixAll_then_GetMatrixAll_witness :
  let d := Elements.double_of_Z in
  exists m',
    Elements.Template.SetMatrixAll Elements.char_int Elements.BigMatrixAccessor sample [5; 300; -128]
      (d (-128)) (d (-127)) (d 127) (d (-2147483648)) = Some m' /\
    Elements.Template.GetMatrixAll Elements.char_int Elements.BigMatrixAccessor m'
      (d (-128)) (d (-2147483648))
    = Some (Elements.Template.RetMat 2 2
              (Some <$> [5; -2147483648; -2147483648; 5])).
Proof.
  cbv zeta.
  destruct (SetMatrixAll_then_GetMatrixAll 8 (-128) (-127) 127 (-2147483648)
              Elements.BigMatrixAccessor sample [5; 300; -128])
    as (m' & Hset & Hget); try done.
  - apply (regular_contiguous _ [1; -128; 3; 4]); [cbn; lia|done|cbn; lia].
  - exists m'. split; [exact Hset|exact Hget].
Defined.

(** * Filling a matrix with one value *)

Section Fill.
Import Elements.
Context {CType RType : Type}.
Variable conv : Conv CType RType.
Variable accessor : Accessor.
Variable pMat : Mat CType.
Variable val : double.

#[local] Arguments load : simpl never.
#[local] Arguments store : simpl never.

(** The rows [js] of one column. *)
Lemma fill_rows x (p : ptr) js :
  c_of_double conv val = Some x ->
  forall bufs,
  (forall j, j ∈ js -> is_Some (load bufs p j)) ->
  exists bufs',
    loop (fun bufs j => v ← c_of_double conv val; store bufs p j v) js bufs
    = Some bufs' /\
    length bufs' = length bufs /\
    (forall j, j ∈ js -> load bufs' p j = Some x) /\
    (forall q j, load bufs q j = Some x -> load bufs' q j = Some x) /\
    (forall q j, is_Some (load bufs q j) -> is_Some (load bufs' q j)).
Proof.
  intros Hx. induction js as [|j js IH]; intros bufs Hvalid.
  - exists bufs. repeat split; try done. intros j Hj. by apply elem_of_nil in Hj.
  - destruct (store_Some bufs p j x) as [bufs1 Hst]; [apply Hvalid; left|].
    destruct (IH bufs1) as (bufs' & Hrun & Hlen & Hset & Hkeep & Hval).
    { intros k Hk. eapply load_store_valid; [exact Hst|]. apply Hvalid. by right. }
    assert (forall q k, load bufs q k = Some x -> load bufs1 q k = Some x) as Hkeep1.
    { intros q k Hq. destruct (decide (slot q k = slot p j)) as [E|Hne].
      - rewrite load_slot, E, <- load_slot. by eapply load_store_same.
      - by rewrite (load_store_other _ _ _ _ _ _ _ Hst Hne). }
    exists bufs'. cbn [loop].
    assert ((v ← c_of_double conv val; store bufs p j v) = Some bufs1) as ->
      by (by rewrite Hx).
    cbn [mbind option_bind]. split; [done|].
    split; [rewrite Hlen; by eapply store_length|]. split; [|split].
    + intros k Hk. apply elem_of_cons in Hk as [->|Hk]; [|by apply Hset].
      apply Hkeep. by eapply load_store_same.
    + intros q k Hq. by apply Hkeep, Hkeep1.
    + intros q k Hq. apply Hval. by eapply load_store_valid.
Qed.

(** The columns [is]. *)
Lemma fill_columns x js :
  c_of_double conv val = Some x ->
  forall cols bufs,
  (forall i, i ∈ cols -> exists p, accessor CType pMat i = Some p /\
     forall j, j ∈ js -> is_Some (load bufs p j)) ->
  exists bufs',
    loop (fun bufs i =>
            pColumn ← accessor CType pMat i;
            loop (fun bufs j => v ← c_of_double conv val; store bufs pColumn j v)
                 js bufs)
         cols bufs
    = Some bufs' /\
    length bufs' = length bufs /\
    (forall i p j, i ∈ cols -> accessor CType pMat i = Some p -> j ∈ js ->
       load bufs' p j = Some x) /\
    (forall q j, load bufs q j = Some x -> load bufs' q j = Some x) /\
    (forall q j, is_Some (load bufs q j) -> is_Some (load bufs' q j)).
Proof.
  intros Hx. induction cols as [|i cols IH]; intros bufs Hvalid.
  - exists bufs. repeat split; try done.
    intros i p j Hi. by apply elem_of_nil in Hi.
  - destruct (Hvalid i) as (p & Hp & Hrows); [left|].
    destruct (fill_rows x p js Hx bufs Hrows)
      as (bufs1 & Hrun1 & Hlen1 & Hset1 & Hkeep1 & Hval1).
    destruct (IH bufs1) as (bufs' & Hrun & Hlen & Hset & Hkeep & Hval).
    { intros k Hk. destruct (Hvalid k) as (q & Hq & Hqr); [by right|].
      exists q. split; [done|]. intros j Hj. by apply Hval1, Hqr. }
    exists bufs'. cbn [loop]. rewrite Hp. cbn [mbind option_bind].
    rewrite Hrun1. cbn [mbind option_bind]. split; [done|].
    split; [congruence|]. split; [|split].
    + intros k q j Hk Hq Hj. apply elem_of_cons in Hk as [->|Hk].
      * rewrite Hp in Hq. injection Hq as <-. by apply Hkeep, Hset1.
      * by apply (Hset k).
    + intros q k Hq. by apply Hkeep, Hkeep1.
    + intros q k Hq. by apply Hval, Hval1.
Qed.

(** The value [val] in every cell, when it converts to the element
    type. *)
Lemma fill_all x :
  c_of_double conv val = Some x ->
  regular accessor pMat ->
  exists bufs',
    loop (fun bufs i =>
            pColumn ← accessor CType pMat i;
            loop (fun bufs j => v ← c_of_double conv val; store bufs pColumn j v)
                 (below (num_rows pMat)) bufs)
         (below (num_columns pMat)) (cells pMat)
    = Some bufs' /\
    length bufs' = length (cells pMat) /\
    forall i j, 0 <= i < num_columns pMat -> 0 <= j < num_rows pMat ->
      cell accessor (MkMat (num_rows pMat) (num_columns pMat) bufs') i j = Some x.
Proof.
  intros Hx (Hcols & Hinj & Hsame).
  destruct (fill_columns x (below (num_rows pMat)) Hx
              (below (num_columns pMat)) (cells pMat))
    as (bufs' & Hrun & Hlen & Hset & _ & _).
  { intros i Hi. apply elem_of_seqZ in Hi.
    destruct (Hcols i) as (p & Hp & Hall); [lia|]. exists p. split; [done|].
    intros j Hj. apply elem_of_seqZ in Hj. apply Hall. lia. }
  exists bufs'. split; [done|]. split; [done|].
  intros i j Hi Hj. unfold cell. rewrite Hsame by done.
  destruct (Hcols i Hi) as (p & Hp & _). rewrite Hp. cbn [mbind option_bind cells].
  apply (Hset i p j); [apply elem_of_seqZ; lia|done|apply elem_of_seqZ; lia].
Qed.

(** With a value that does not convert, the first assignment is
    undefined. *)
Lemma fill_undefined :
  c_of_double conv val = None ->
  regular accessor pMat ->
  0 < num_rows pMat -> 0 < num_columns pMat ->
  loop (fun bufs i =>
          pColumn ← accessor CType pMat i;
          loop (fun bufs j => v ← c_of_double conv val; store bufs pColumn j v)
               (below (num_rows pMat)) bufs)
       (below (num_columns pMat)) (cells pMat)
  = None.
Proof.
  intros Hx (Hcols & _ & _) Hr Hc. unfold below.
  rewrite (seqZ_cons 0 (num_columns pMat)) by lia. cbn [loop].
  destruct (Hcols 0) as (p & Hp & _); [lia|]. rewrite Hp. cbn [mbind option_bind].
  rewrite (seqZ_cons 0 (num_rows pMat)) by lia. cbn [loop].
  assert ((v ← c_of_double conv val; store (cells pMat) p 0 v) = None) as ->
    by (by rewrite Hx).
  done.
Qed.

End Fill.

Section FillIntegers.
Import Elements.

#[local] Arguments double_of_Z : simpl never.
#[local] Arguments load : simpl never.

(** What [SetAllMatrixElements] takes for [val]. *)
Lemma fill_value_whole na lo hi v :
  (if dlt (double_of_Z v) (double_of_Z lo) || dlt (double_of_Z hi) (double_of_Z v)
   then (if negb (isna (double_of_Z v)) then double_of_Z na else double_of_Z v)
   else double_of_Z v)
  = double_of_Z (checked na lo hi v).
Proof.
  rewrite !dlt_of_Z, isna_of_Z. unfold checked. cbn [negb].
  by destruct ((v <? lo) || (hi <? v)).
Qed.

Lemma SetAllMatrixElements_whole w na lo hi accessor (m : Mat Z) NA_R v :
  in_int w na = true -> in_int w lo = true -> in_int w hi = true ->
  regular accessor m ->
  exists m',
    Template.SetAllMatrixElements (int_conv w) accessor m (double_of_Z v)
      (double_of_Z na) (double_of_Z lo) (double_of_Z hi) NA_R = Some m' /\
    num_rows m' = num_rows m /\ num_columns m' = num_columns m /\
    length (cells m') = length (cells m) /\
    forall i j, 0 <= i < num_columns m -> 0 <= j < num_rows m ->
      cell accessor m' i j = Some (checked na lo hi v).
Proof.
  intros Hna Hlo Hhi Hreg. unfold Template.SetAllMatrixElements.
  rewrite fill_value_whole.
  destruct (fill_all (int_conv w) accessor m (double_of_Z (checked na lo hi v))
              (checked na lo hi v)) as (bufs' & Hrun & Hlen & Hcells); [|done|].
  { cbn [c_of_double int_conv]. rewrite int_of_double_of_Z.
    assert (in_int w (checked na lo hi v) = true) as ->; [|done].
    unfold checked. destruct ((v <? lo) || (hi <? v)) eqn:E; [done|].
    apply (in_int_between w lo hi); [done|done|lia]. }
  exists (MkMat (num_rows m) (num_columns m) bufs').
  rewrite Hrun. cbn [mbind option_bind]. by repeat split.
Qed.

(** X28: [SetAllMatrixElements] on an integer matrix of [w] bits, with a
    sentinel and a range that fit the type.  Given a whole number, it
    leaves that number in every cell of the matrix when it lies in the
    range [lo .. hi], and the sentinel in every cell when it does not.
    Given an infinity it leaves the sentinel in every cell.  Given a NaN,
    R's missing value for numbers, it converts the NaN itself to the
    integer type, for the test [val < C_MIN || val > C_MAX] does not hold
    of a NaN: on a matrix with at least one cell the behaviour is
    undefined. *)
Theorem SetAllMatrixElements_fills w na lo hi accessor (m : Mat Z) NA_R :
  in_int w na = true -> in_int w lo = true -> in_int w hi = true ->
  regular accessor m ->
  (forall v, exists m',
     Template.SetAllMatrixElements (int_conv w) accessor m (double_of_Z v)
       (double_of_Z na) (double_of_Z lo) (double_of_Z hi) NA_R = Some m' /\
     num_rows m' = num_rows m /\ num_columns m' = num_columns m /\
     forall i j, 0 <= i < num_columns m -> 0 <= j < num_rows m ->
       cell accessor m' i j = Some (checked na lo hi v)) /\
  (forall s, exists m',
     Template.SetAllMatrixElements (int_conv w) accessor m (DInf s)
       (double_of_Z na) (double_of_Z lo) (double_of_Z hi) NA_R = Some m' /\
     forall i j, 0 <= i < num_columns m -> 0 <= j < num_rows m ->
       cell accessor m' i j = Some na) /\
  (0 < num_rows m -> 0 < num_columns m ->
   Template.SetAllMatrixElements (int_conv w) accessor m DNaN
     (double_of_Z na) (double_of_Z lo) (double_of_Z hi) NA_R = None).
Proof.
  intros Hna Hlo Hhi Hreg. split; [|split].
  - intros v.
    destruct (SetAllMatrixElements_whole w na lo hi accessor m NA_R v)
      as (m' & Hrun & Hr & Hc & _ & Hcells); try done.
    by exists m'.
  - intros s. unfold Template.SetAllMatrixElements.
    assert ((if dlt (DInf s) (double_of_Z lo) || dlt (double_of_Z hi) (DInf s)
             then (if negb (isna (DInf s)) then double_of_Z na else DInf s)
             else DInf s) = double_of_Z na) as -> by (by destruct s).
    destruct (fill_all (int_conv w) accessor m (double_of_Z na) na)
      as (bufs' & Hrun & Hlen & Hcells); [|done|].
    { cbn [c_of_double int_conv]. by rewrite int_of_double_of_Z, Hna. }
    exists (MkMat (num_rows m) (num_columns m) bufs').
    rewrite Hrun. cbn [mbind option_bind]. by split.
  - intros Hr Hc. unfold Template.SetAllMatrixElements. cbn [dlt orb].
    by rewrite fill_undefined.
Qed.

End FillIntegers.

Lemma SetAllMatrixElements_fills_witness :
  let d := Elements.double_of_Z in
  (exists m',
     Elements.Template.SetAllMatrixElements Elements.char_int
       Elements.BigMatrixAccessor sample (d 300) (d (-128)) (d (-127)) (d 127)
       Elements.DNaN = Some m' /\
     cell Elements.BigMatrixAccessor m' 1 1 = Some (-128)) /\
  Elements.Template.SetAllMatrixElements Elements.char_int
    Elements.BigMatrixAccessor sample Elements.DNaN (d (-128)) (d (-127)) (d 127)
    Elements.DNaN = None.
Proof.
  cbv zeta.
  destruct (SetAllMatrixElements_fills 8 (-128) (-127) 127
              Elements.BigMatrixAccessor sample Elements.DNaN)
    as (Hwhole & _ & Hnan); try done.
  - apply (regular_contiguous _ [1; -128; 3; 4]); [cbn; lia|done|cbn; lia].
  - split.
    + destruct (Hwhole 300) as (m' & Hrun & _ & _ & Hcells).
      exists m'. split; [exact Hrun|]. apply Hcells; cbn; lia.
    + apply Hnan; cbn; lia.
Defined.

(** * CCreateMatrix with an initial value *)

Section CreateWithValue.
Import Elements Scans.

#[local] Arguments double_of_Z : simpl never.
#[local] Arguments load : simpl never.






End CreateWithValue.

